(** * RTS-Engine: the simulation core, embedded and verified

    A shallow embedding of [game/map.py], [game/resources.py],
    [game/entities.py] and of the driver of [game/engine.py] (construction,
    the per-tick update, the click handler), followed by the properties of
    the natural-language specification that concern them and by further
    properties of the code.

    Conventions of the embedding.
    - Python numbers ([int] and [float], mixed freely by the source) are
      values of a type [N] carrying the interface [Num]; the operations that
      can raise in Python ([/], [** 2], [int()]) return a [res].  The
      instance is IEEE binary64 (Rocq's primitive floats), the arithmetic
      the program runs on; a Python [int] is read as the float nearest to
      it, which is what mixing it with a float does.
    - Python objects live in a store; a reference is an index into it, and
      [is] is equality of indices.
    - A method that mutates [self] or its arguments is a computation in the
      monad [M S], which threads the store and keeps it when an exception
      is raised (the driver catches exceptions and carries on with whatever
      had been mutated). *)

From Stdlib Require Import ZArith QArith Floats String Ascii Bool Lia.
From stdpp Require Import base option list relations.

Local Open Scope Z_scope.

(** ** Exceptions and results *)

Inductive exn : Set :=
| ZeroDivisionError
| OverflowError
| ValueError
| IndexError
| ReferenceError.   (* a reference that points outside the store *)

Inductive res (A : Type) : Type :=
| Ok (a : A)
| Raise (e : exn).
Arguments Ok {A} a.
Arguments Raise {A} e.

#[global] Instance res_ret : MRet res := fun A a => Ok a.
#[global] Instance res_bind : MBind res := fun A B f r =>
  match r with
  | Ok a => f a
  | Raise e => Raise e
  end.

(** ** Numbers *)

Class Num (N : Type) : Type := {
  nadd : N -> N -> N;
  nsub : N -> N -> N;
  nmul : N -> N -> N;
  ndiv : N -> N -> res N;      (* [a / b]: ZeroDivisionError *)
  npow2 : N -> res N;          (* [a ** 2]: OverflowError *)
  nlt : N -> N -> bool;        (* [a < b] *)
  nle : N -> N -> bool;        (* [a <= b] *)
  neqb : N -> N -> bool;       (* [a == b] *)
  nlit : Q -> N;               (* a literal, [30] or [0.1] *)
  nint : N -> res Z            (* [int(a)]: truncation toward zero *)
}.

(** [a ** 0.5] *)
Class Root (N : Type) : Type := nroot : N -> N.

Declare Scope num_scope.
Delimit Scope num_scope with num.
Infix "+" := nadd : num_scope.
Infix "-" := nsub : num_scope.
Infix "*" := nmul : num_scope.
Infix "<?" := nlt : num_scope.
Infix "<=?" := nle : num_scope.
Infix "=?" := neqb : num_scope.

Definition nZ {N} `{Num N} (z : Z) : N := nlit (inject_Z z).
Definition ngt {N} `{Num N} (a b : N) : bool := nlt b a.
Infix ">?" := ngt : num_scope.

(** Python's [max(a, b)] and [min(a, b)] keep the first argument unless the
    second is strictly better. *)
Definition pymax {N} `{Num N} (a b : N) : N := if (b >? a)%num then b else a.
Definition pymin {N} `{Num N} (a b : N) : N := if (b <? a)%num then b else a.

(** The laws of the order that the health clamp relies on. *)
Class NumOrder (N : Type) `{Num N} : Prop := {
  nlt_nle : forall a b : N, (a <? b)%num = true -> (a <=? b)%num = true;
  nle_zero : (nZ 0 <=? nZ 0)%num = true
}.

(** *** Binary64 *)

Definition Z2F (z : Z) : float := SF2Prim (binary_normalize prec emax z 0 false).

Definition F2Z (a : float) : res Z :=
  match Prim2SF a with
  | S754_nan => Raise ValueError
  | S754_infinity _ => Raise OverflowError
  | S754_zero _ => Ok 0
  | S754_finite s m e =>
      let mag := if 0 <=? e then Z.shiftl (Zpos m) e else Z.shiftr (Zpos m) (- e) in
      Ok (if s then - mag else mag)
  end.

#[global] Instance float_Num : Num float := {|
  nadd := PrimFloat.add;
  nsub := PrimFloat.sub;
  nmul := PrimFloat.mul;
  ndiv a b := if PrimFloat.eqb b (Z2F 0) then Raise ZeroDivisionError
              else Ok (PrimFloat.div a b);
  npow2 a := let r := PrimFloat.mul a a in
             if is_infinity r && negb (is_infinity a) then Raise OverflowError
             else Ok r;
  nlt := PrimFloat.ltb;
  nle := PrimFloat.leb;
  neqb := PrimFloat.eqb;
  nlit q := PrimFloat.div (Z2F (Qnum q)) (Z2F (Zpos (Qden q)));
  nint := F2Z
|}.

#[global] Instance float_Root : Root float := PrimFloat.sqrt.

(** ** game/map.py *)

Inductive TileType : Set := GRASS | WATER | FOREST | MOUNTAIN | DIRT.

#[global] Instance TileType_eq_dec : EqDecision TileType.
Proof. solve_decision. Defined.

Module Tile.
(** [building] and [unit_] hold references into the store ([unit_] is the
    attribute [unit] that the driver attaches to a tile). *)
Record t : Type := mk {
  x : Z;
  y : Z;
  tile_type : TileType;
  resource_amount : Z;
  building : option nat;
  unit_ : option nat
}.

Definition base_screen_x (tl : t) : Z := (x tl - y tl) * 32.
Definition base_screen_y (tl : t) : Z := (x tl + y tl) * 16.

Definition set_building (b : option nat) (tl : t) : t :=
  mk (x tl) (y tl) (tile_type tl) (resource_amount tl) b (unit_ tl).
Definition set_unit (u : option nat) (tl : t) : t :=
  mk (x tl) (y tl) (tile_type tl) (resource_amount tl) (building tl) u.
Definition set_tile_type (k : TileType) (tl : t) : t :=
  mk (x tl) (y tl) k (resource_amount tl) (building tl) (unit_ tl).
End Tile.

Module GameMap.
Record t : Type := mk {
  width : Z;
  height : Z;
  tiles : list (list Tile.t)
}.

(** [self.tiles[y][x]], for indices already known to be non-negative. *)
Definition index (m : t) (x y : Z) : res Tile.t :=
  match tiles m !! Z.to_nat y with
  | Some row =>
      match row !! Z.to_nat x with
      | Some tile => Ok tile
      | None => Raise IndexError
      end
  | None => Raise IndexError
  end.

Definition get_tile_at (m : t) (x y : Z) : res (option Tile.t) :=
  if (0 <=? x) && (x <? width m) && (0 <=? y) && (y <? height m)
  then tile ← index m x y; Ok (Some tile)
  else Ok None.

Section Transform.
Context {N : Type} `{Num N}.
Local Open Scope num_scope.

(** The arithmetic of [get_tile_at_screen_pos], up to the tile
    coordinates it looks up. *)
Definition screen_to_tile (screen_x screen_y zoom_level camera_x camera_y : N)
  : res (Z * Z) :=
  screen_x ← ndiv (screen_x - camera_x) zoom_level;
  screen_y ← ndiv (screen_y - camera_y) zoom_level;
  a ← ndiv screen_x (nZ 32);
  b ← ndiv screen_y (nZ 16);
  s ← ndiv (a + b) (nZ 2);
  tile_x ← nint s;
  c ← ndiv screen_y (nZ 16);
  d ← ndiv screen_x (nZ 32);
  s' ← ndiv (c - d) (nZ 2);
  tile_y ← nint s';
  Ok (tile_x, tile_y).

(** Every exception is caught and turned into [None]. *)
Definition get_tile_at_screen_pos (m : t)
    (screen_x screen_y zoom_level camera_x camera_y : N) : option Tile.t :=
  match '(tx, ty) ← screen_to_tile screen_x screen_y zoom_level camera_x camera_y;
        get_tile_at m tx ty with
  | Ok r => r
  | Raise _ => None
  end.
End Transform.

(** The loops of [can_build_at] leave at the first tile that fails. *)
Fixpoint all_of {A : Type} (p : A -> res bool) (l : list A) : res bool :=
  match l with
  | [] => Ok true
  | a :: l' => b ← p a; if b : bool then all_of p l' else Ok false
  end.

Definition tile_ok (m : t) (tx ty : Z) : res bool :=
  tile ← get_tile_at m tx ty;
  Ok match tile with
     | None => false
     | Some tile =>
         negb (bool_decide (Tile.tile_type tile <> GRASS)
               || bool_decide (is_Some (Tile.building tile)))
     end.

Definition can_build_at (m : t) (x y width height : Z) : res bool :=
  all_of (fun dy => all_of (fun dx => tile_ok m (x + dx) (y + dy)) (seqZ 0 width))
         (seqZ 0 height).

(** The grid that [generate_map] builds: [height] rows of [width] tiles,
    each tile knowing its own coordinates. *)
Definition wf (m : t) : Prop :=
  forall x y, 0 <= x < width m -> 0 <= y < height m ->
    exists tile, index m x y = Ok tile /\ Tile.x tile = x /\ Tile.y tile = y.

(** The grid after [generate_map]: the tile at row [y], column [x] is
    [Tile(x, y, ...)] with the terrain and the resource amount drawn for
    it, and nothing on it yet. *)
Definition generated (width height : Z) (terrain : Z -> Z -> TileType)
    (amount : Z -> Z -> Z) : t :=
  mk width height
     (map (fun y => map (fun x => Tile.mk x y (terrain x y) (amount x y) None None)
                        (seqZ 0 width))
          (seqZ 0 height)).

(** What the placement rule asks of one tile, and of a footprint. *)
Definition buildable (m : t) (tx ty : Z) : Prop :=
  0 <= tx < width m /\ 0 <= ty < height m /\
  exists tile, index m tx ty = Ok tile /\
               Tile.tile_type tile = GRASS /\ Tile.building tile = None.

Definition covered (x y w h tx ty : Z) : Prop :=
  x <= tx < x + w /\ y <= ty < y + h.
End GameMap.

(** ** The monad of methods *)

Definition M (S A : Type) : Type := S -> res A * S.

#[global] Instance M_ret {S : Type} : MRet (M S) := fun A a s => (Ok a, s).
#[global] Instance M_bind {S : Type} : MBind (M S) := fun A B f m s =>
  match m s with
  | (Ok a, s') => f a s'
  | (Raise e, s') => (Raise e, s')
  end.

Definition gets {S A : Type} (f : S -> A) : M S A := fun s => (Ok (f s), s).
Definition modify {S : Type} (f : S -> S) : M S unit := fun s => (Ok tt, f s).
Definition lift {S A : Type} (r : res A) : M S A := fun s => (r, s).

(** [for a in l: acc = body(acc, a)] *)
Fixpoint foldM {S A B : Type} (body : B -> A -> M S B) (l : list A) (acc : B) : M S B :=
  match l with
  | [] => mret acc
  | a :: l' => acc' ← body acc a; foldM body l' acc'
  end.

(** [for a in l: if p(a): found = True; break] *)
Fixpoint any_of {S A : Type} (p : A -> M S bool) (l : list A) : M S bool :=
  match l with
  | [] => mret false
  | a :: l' => b ← p a; if b : bool then mret true else any_of p l'
  end.

(** ** Strings: [str.lower] on ASCII and the [in] test *)

Definition lower_ascii (c : ascii) : ascii :=
  let n := nat_of_ascii c in
  if ((65 <=? n) && (n <=? 90))%nat then ascii_of_nat (n + 32) else c.

Fixpoint lower (s : string) : string :=
  match s with
  | EmptyString => EmptyString
  | String c s' => String (lower_ascii c) (lower s')
  end.

Fixpoint contains (needle hay : string) : bool :=
  String.prefix needle hay ||
  match hay with
  | EmptyString => false
  | String _ hay' => contains needle hay'
  end.

(** ** game/resources.py *)

Inductive ResourceType : Set := GOLD | WOOD | STONE | FOOD.

#[global] Instance ResourceType_eq_dec : EqDecision ResourceType.
Proof. solve_decision. Defined.

Module ResourceManager.
Definition t : Type := ResourceType -> Z.

Definition init : t := fun r =>
  match r with GOLD => 1000 | WOOD => 500 | STONE => 500 | FOOD => 1000 end.

Definition add_resource (r : ResourceType) (amount : Z) (rm : t) : t :=
  fun r' => if bool_decide (r' = r) then rm r' + amount else rm r'.
End ResourceManager.

(** ** game/entities.py *)

Module Building.
Section Defs.
Context {N : Type} `{Num N}.
Local Open Scope num_scope.

(** The fields of [Entity] and of [Building] that the simulation reads
    or writes.  [screen_pos_cache] is the dictionary
    [_screen_pos_cache], in insertion order; [resource_manager] tells
    whether the building holds the shared stockpile or [None]. *)
Record t : Type := mk {
  x : N;
  y : N;
  width : N;
  height : N;
  selected : bool;
  base_screen_x : N;
  base_screen_y : N;
  screen_pos_cache : list (N * (N * N));
  building_type : string;
  health : N;
  max_health : N;
  production_rate : N;
  resource_timer : Z;
  resource_manager : bool
}.

Definition set_x (v : N) (b : t) : t :=
  mk v (y b) (width b) (height b) (selected b) (base_screen_x b) (base_screen_y b)
     (screen_pos_cache b) (building_type b) (health b) (max_health b)
     (production_rate b) (resource_timer b) (resource_manager b).
Definition set_y (v : N) (b : t) : t :=
  mk (x b) v (width b) (height b) (selected b) (base_screen_x b) (base_screen_y b)
     (screen_pos_cache b) (building_type b) (health b) (max_health b)
     (production_rate b) (resource_timer b) (resource_manager b).
Definition set_screen_pos_cache (v : list (N * (N * N))) (b : t) : t :=
  mk (x b) (y b) (width b) (height b) (selected b) (base_screen_x b) (base_screen_y b)
     v (building_type b) (health b) (max_health b)
     (production_rate b) (resource_timer b) (resource_manager b).
Definition set_health (v : N) (b : t) : t :=
  mk (x b) (y b) (width b) (height b) (selected b) (base_screen_x b) (base_screen_y b)
     (screen_pos_cache b) (building_type b) v (max_health b)
     (production_rate b) (resource_timer b) (resource_manager b).
Definition set_resource_timer (v : Z) (b : t) : t :=
  mk (x b) (y b) (width b) (height b) (selected b) (base_screen_x b) (base_screen_y b)
     (screen_pos_cache b) (building_type b) (health b) (max_health b)
     (production_rate b) v (resource_manager b).

(** [Building.__init__], with [Entity.__init__] inlined. *)
Definition init (x y : N) (building_type : string) (resource_manager : bool) : t :=
  let '(w, h) :=
    if String.eqb building_type "Stonekeep" || String.eqb building_type "EnemyStonekeep"
    then (nZ 128, nZ 128)
    else if String.eqb building_type "Stockpile" then (nZ 256, nZ 32)
    else (nZ 64, nZ 64) in
  mk x y w h false ((x - y) * nZ 32) ((x + y) * nZ 16) []
     building_type (nZ 100) (nZ 100) (nZ 0) 0 resource_manager.

(** [zoom_level in cache] and [cache[zoom_level]] *)
Fixpoint cache_get (zoom_level : N) (cache : list (N * (N * N))) : option (N * N) :=
  match cache with
  | [] => None
  | (k, pos) :: cache' => if k =? zoom_level then Some pos else cache_get zoom_level cache'
  end.

(** [Entity.get_screen_pos], which buildings inherit: the point and
    the entity with its cache filled. *)
Definition get_screen_pos (zoom_level : N) (b : t) : (N * N) * t :=
  match cache_get zoom_level (screen_pos_cache b) with
  | Some pos => (pos, b)
  | None =>
      let pos := (base_screen_x b * zoom_level, base_screen_y b * zoom_level) in
      (pos, set_screen_pos_cache (screen_pos_cache b ++ [(zoom_level, pos)]) b)
  end.

(** The resource a building type harvests. *)
Definition produces (b : t) : option ResourceType :=
  if String.eqb (building_type b) "Woodcutter" then Some WOOD
  else if String.eqb (building_type b) "Quarry" then Some STONE
  else if String.eqb (building_type b) "Farm" then Some FOOD
  else None.

(** [Building.update(dt=1)] on the building and the shared stockpile. *)
Definition update (dt : Z) (b : t) (rm : ResourceManager.t) : t * ResourceManager.t :=
  match produces b with
  | Some r =>
      if resource_manager b then
        let timer := (resource_timer b + dt)%Z in
        if (30 <=? timer)%Z
        then (set_resource_timer 0 b, ResourceManager.add_resource r 10 rm)
        else (set_resource_timer timer b, rm)
      else (b, rm)
  | None => (b, rm)
  end.
End Defs.
Arguments t : clear implicits.
End Building.

Module Unit.
Section Defs.
Context {N : Type} `{Num N}.
Local Open Scope num_scope.

(** The fields of a [Unit]; [all_buildings] is the attribute the driver
    sets before each update (absent reads as the empty list).  The
    unused [Entity] cache is left out: [Unit] overrides
    [get_screen_pos]. *)
Record t : Type := mk {
  x : N;
  y : N;
  width : N;
  height : N;
  selected : bool;
  unit_type : string;
  health : N;
  max_health : N;
  speed : N;
  target_pos : option (N * N);
  attack_damage : N;
  attack_range : N;
  team : string;
  all_buildings : list nat
}.

Definition set_pos (vx vy : N) (u : t) : t :=
  mk vx vy (width u) (height u) (selected u) (unit_type u) (health u) (max_health u)
     (speed u) (target_pos u) (attack_damage u) (attack_range u) (team u)
     (all_buildings u).
Definition set_selected (v : bool) (u : t) : t :=
  mk (x u) (y u) (width u) (height u) v (unit_type u) (health u) (max_health u)
     (speed u) (target_pos u) (attack_damage u) (attack_range u) (team u)
     (all_buildings u).
Definition set_health (v : N) (u : t) : t :=
  mk (x u) (y u) (width u) (height u) (selected u) (unit_type u) v (max_health u)
     (speed u) (target_pos u) (attack_damage u) (attack_range u) (team u)
     (all_buildings u).
Definition set_target_pos (v : option (N * N)) (u : t) : t :=
  mk (x u) (y u) (width u) (height u) (selected u) (unit_type u) (health u)
     (max_health u) (speed u) v (attack_damage u) (attack_range u) (team u)
     (all_buildings u).
Definition set_all_buildings (v : list nat) (u : t) : t :=
  mk (x u) (y u) (width u) (height u) (selected u) (unit_type u) (health u)
     (max_health u) (speed u) (target_pos u) (attack_damage u) (attack_range u)
     (team u) v.

(** [Unit.__init__] *)
Definition init (x y : N) (unit_type team : string) : t :=
  mk x y (nZ 32) (nZ 32) false unit_type (nZ 100) (nZ 100) (nZ 2) None
     (nZ 10) (nZ 50) team [].

(** [Unit.get_screen_pos]: no cache, the current position. *)
Definition get_screen_pos (zoom_level : N) (u : t) : N * N :=
  (x u * zoom_level, y u * zoom_level).

Definition move_to (target : N * N) (u : t) : t := set_target_pos (Some target) u.
End Defs.
Arguments t : clear implicits.
End Unit.

(** ** The store of entities

    Units and buildings are objects shared by the driver's lists, the
    tiles and each other's [update]; a reference is the index of the
    object in its store.  The two stores are apart, so that a reference
    tells the class of its object: the [isinstance] tests of the source
    are decided by the kind of the reference. *)

Module Heap.
Section Defs.
Context {N : Type}.

Record t : Type := mk {
  units : list (Unit.t N);
  buildings : list (Building.t N);
  resources : ResourceManager.t
}.

Definition get_unit (i : nat) : M t (Unit.t N) := fun h =>
  (match units h !! i with Some u => Ok u | None => Raise ReferenceError end, h).

Definition get_building (i : nat) : M t (Building.t N) := fun h =>
  (match buildings h !! i with Some b => Ok b | None => Raise ReferenceError end, h).

Definition modify_unit (i : nat) (f : Unit.t N -> Unit.t N) : M t unit :=
  modify (fun h => mk (alter f i (units h)) (buildings h) (resources h)).

Definition modify_building (i : nat) (f : Building.t N -> Building.t N) : M t unit :=
  modify (fun h => mk (units h) (alter f i (buildings h)) (resources h)).

(** The heap with [f] applied to the unit at [i]. *)
Definition with_unit (i : nat) (f : Unit.t N -> Unit.t N) (h : t) : t :=
  mk (alter f i (units h)) (buildings h) (resources h).

Definition new_unit (u : Unit.t N) : M t nat := fun h =>
  (Ok (length (units h)), mk (units h ++ [u]) (buildings h) (resources h)).

Definition new_building (b : Building.t N) : M t nat := fun h =>
  (Ok (length (buildings h)), mk (units h) (buildings h ++ [b]) (resources h)).
End Defs.
Arguments t : clear implicits.
End Heap.

(** ** [Unit.update] *)

Section UnitUpdate.
Context {N : Type} `{Num N} `{Root N}.
Local Open Scope num_scope.

(** [((x1 - x2) ** 2 + (y1 - y2) ** 2) ** 0.5] *)
Definition distance (x1 y1 x2 y2 : N) : res N :=
  a ← npow2 (x1 - x2);
  b ← npow2 (y1 - y2);
  mret (nroot (a + b)).

(** Distance from a point to the closest point of the rectangle at
    [(bx, by)] of size [bw] by [bh]. *)
Definition rect_distance (px py bx by_ bw bh : N) : res N :=
  let closest_x := pymin (pymax px bx) (bx + bw) in
  let closest_y := pymin (pymax py by_) (by_ + bh) in
  distance px py closest_x closest_y.

Definition is_enemy_building (team btype : string) : bool :=
  if String.eqb team "player" && contains "enemy" btype then true
  else if String.eqb team "enemy" && negb (contains "enemy" btype) then true
  else false.

(** Body of the loop over [all_units] in the attack phase. *)
Definition attack_unit (self : nat) (did_attack_unit : bool) (other : nat)
  : M (Heap.t N) bool :=
  if bool_decide (other <> self) then
    s ← Heap.get_unit self;
    o ← Heap.get_unit other;
    if negb (String.eqb (Unit.team o) (Unit.team s)) then
      dist ← lift (distance (Unit.x s) (Unit.y s) (Unit.x o) (Unit.y o));
      if dist <? nZ 30 then
        Heap.modify_unit other (fun o =>
          Unit.set_health (Unit.health o - Unit.attack_damage s * nlit (1 # 10)) o);;
        Heap.modify_unit self (fun s =>
          Unit.set_health (Unit.health s - Unit.attack_damage o * nlit (5 # 100)) s);;
        Heap.modify_unit self (Unit.set_target_pos None);;
        mret true
      else mret did_attack_unit
    else mret did_attack_unit
  else mret did_attack_unit.

(** Body of the loop over the buildings in the attack phase. *)
Definition attack_building (self : nat) (did_attack_building : bool) (building : nat)
  : M (Heap.t N) bool :=
  s ← Heap.get_unit self;
  b ← Heap.get_building building;
  let btype := lower (Building.building_type b) in
  if is_enemy_building (Unit.team s) btype then
    dist ← lift (rect_distance (Unit.x s) (Unit.y s) (Building.x b) (Building.y b)
                               (Building.width b) (Building.height b));
    if dist <=? nZ 16 then
      Heap.modify_building building (fun b =>
        Building.set_health (Building.health b - Unit.attack_damage s * nlit (8 # 100)) b);;
      Heap.modify_unit self (Unit.set_target_pos None);;
      mret true
    else mret did_attack_building
  else mret did_attack_building.

(** The two collision tests on the candidate position. *)
Definition blocked_by_unit (self : nat) (next_x next_y : N) (other : nat)
  : M (Heap.t N) bool :=
  if bool_decide (other <> self) then
    o ← Heap.get_unit other;
    dist ← lift (distance next_x next_y (Unit.x o) (Unit.y o));
    mret (dist <? nZ 28)
  else mret false.

Definition blocked_by_building (next_x next_y : N) (building : nat)
  : M (Heap.t N) bool :=
  b ← Heap.get_building building;
  dist ← lift (rect_distance next_x next_y (Building.x b) (Building.y b)
                             (Building.width b) (Building.height b));
  mret (dist <? nZ 16).

(** The candidate position: one step of length [speed] from [s] toward
    [target], [dist] away. *)
Definition next_position (s : Unit.t N) (target : N * N) (dist : N) : res (N * N) :=
  let dx := target.1 - Unit.x s in
  let dy := target.2 - Unit.y s in
  qx ← ndiv dx dist;
  let next_x := Unit.x s + qx * Unit.speed s in
  qy ← ndiv dy dist;
  let next_y := Unit.y s + qy * Unit.speed s in
  mret (next_x, next_y).

(** The movement phase, entered with a destination and no combat. *)
Definition move (self : nat) (all_units : list nat) (target : N * N)
  : M (Heap.t N) unit :=
  s ← Heap.get_unit self;
  dist ← lift (distance target.1 target.2 (Unit.x s) (Unit.y s));
  if dist >? Unit.speed s then
    '(next_x, next_y) ← lift (next_position s target dist);
    blocked ← any_of (blocked_by_unit self next_x next_y) all_units;
    blocked ← (if negb blocked
               then any_of (blocked_by_building next_x next_y) (Unit.all_buildings s)
               else mret blocked);
    if negb blocked
    then Heap.modify_unit self (Unit.set_pos next_x next_y)
    else Heap.modify_unit self (Unit.set_target_pos None)
  else Heap.modify_unit self (Unit.set_target_pos None).

(** The two attack scans; the result is
    [did_attack_unit or did_attack_building]. *)
Definition attack_phase (self : nat) (all_units : list nat) : M (Heap.t N) bool :=
  did_attack_unit ← foldM (attack_unit self) all_units false;
  s ← Heap.get_unit self;
  did_attack_building ← foldM (attack_building self) (Unit.all_buildings s) false;
  mret (did_attack_unit || did_attack_building).

Definition clamp_health (self : nat) : M (Heap.t N) unit :=
  Heap.modify_unit self (fun s => Unit.set_health (pymax (nZ 0) (Unit.health s)) s).

Definition Unit_update (self : nat) (all_units : list nat) : M (Heap.t N) unit :=
  did_attack ← attack_phase self all_units;
  s ← Heap.get_unit self;
  match Unit.target_pos s with
  | Some target => if negb did_attack then move self all_units target else mret tt
  | None => mret tt
  end;;
  clamp_health self.

(** *** What the collision tests see *)

Definition too_close (next_x next_y : N) (o : Unit.t N) : bool :=
  match distance next_x next_y (Unit.x o) (Unit.y o) with
  | Ok dist => dist <? nZ 28
  | Raise _ => false
  end.

Definition touches (next_x next_y : N) (B : Building.t N) : bool :=
  match rect_distance next_x next_y (Building.x B) (Building.y B)
                      (Building.width B) (Building.height B) with
  | Ok dist => dist <? nZ 16
  | Raise _ => false
  end.

(** Some other unit of the roster, or some building of the unit's
    context, is in the way of the position [(next_x, next_y)]. *)
Definition blocked_at (h : Heap.t N) (self : nat) (all_units all_buildings : list nat)
    (next_x next_y : N) : Prop :=
  (exists other o, other ∈ all_units /\ other <> self /\
                   Heap.units h !! other = Some o /\ too_close next_x next_y o = true) \/
  (exists b B, b ∈ all_buildings /\
               Heap.buildings h !! b = Some B /\ touches next_x next_y B = true).

(** *** What the scans see, stated on the units themselves *)

(** [V] is on another team than [U] and closer than the melee radius. *)
Definition in_melee (U V : Unit.t N) : bool :=
  negb (String.eqb (Unit.team V) (Unit.team U)) &&
  match distance (Unit.x U) (Unit.y U) (Unit.x V) (Unit.y V) with
  | Ok dist => dist <? nZ 30
  | Raise _ => false
  end.

(** [B] is hostile to [U] and its rectangle is within the contact radius. *)
Definition in_contact (U : Unit.t N) (B : Building.t N) : bool :=
  is_enemy_building (Unit.team U) (lower (Building.building_type B)) &&
  match rect_distance (Unit.x U) (Unit.y U) (Building.x B) (Building.y B)
                      (Building.width B) (Building.height B) with
  | Ok dist => dist <=? nZ 16
  | Raise _ => false
  end.

(** The health of [U] once every opponent of the roster that is in melee
    has struck back, in roster order. *)
Definition struck (units : list (Unit.t N)) (self : nat) (U : Unit.t N)
    (roster : list nat) : N :=
  foldl (fun acc w =>
           match units !! w with
           | Some V =>
               if bool_decide (w <> self) && in_melee U V
               then acc - Unit.attack_damage V * nlit (5 # 100)
               else acc
           | None => acc
           end) (Unit.health U) roster.

End UnitUpdate.

(** ** game/engine.py *)

(** A reference to an entity together with its class, as [isinstance]
    tells it. *)
Inductive ref : Set :=
| RUnit (i : nat)
| RBuilding (i : nat).

#[global] Instance ref_eq_dec : EqDecision ref.
Proof. solve_decision. Defined.

(** What pygame reports during one tick. *)
Record Input {N : Type} : Type := mkInput {
  K_LEFT : bool; K_RIGHT : bool; K_UP : bool; K_DOWN : bool;
  K_a : bool; K_d : bool; K_w : bool; K_s : bool;
  mouse_pos : N * N
}.
Arguments Input : clear implicits.

Module GameEngine.
Section Defs.
Context {N : Type}.

(** The attributes of [GameEngine] that the simulation reads or writes;
    the store of the entities is [heap]. *)
Record t : Type := mk {
  heap : Heap.t N;
  screen_width : Z;
  screen_height : Z;
  paused : bool;
  selected_entities : list ref;
  entities : list ref;
  buildings : list nat;
  units : list nat;
  camera_x : N;
  camera_y : N;
  zoom_level : N;
  game_map : GameMap.t;
  CAMERA_SPEED : N;
  building_to_place : option string;
  placement_preview : option (Building.t N);
  spawning_swordsman : bool;
  win_message_shown : bool
}.

Definition set_heap (v : Heap.t N) (e : t) : t :=
  mk v (screen_width e) (screen_height e) (paused e) (selected_entities e)
     (entities e) (buildings e) (units e) (camera_x e) (camera_y e) (zoom_level e) (game_map e)
     (CAMERA_SPEED e) (building_to_place e) (placement_preview e) (spawning_swordsman e)
     (win_message_shown e).
Definition set_selected_entities (v : list ref) (e : t) : t :=
  mk (heap e) (screen_width e) (screen_height e) (paused e) v (entities e)
     (buildings e) (units e) (camera_x e) (camera_y e) (zoom_level e) (game_map e) (CAMERA_SPEED e)
     (building_to_place e) (placement_preview e) (spawning_swordsman e)
     (win_message_shown e).
Definition set_entities (v : list ref) (e : t) : t :=
  mk (heap e) (screen_width e) (screen_height e) (paused e) (selected_entities e) v
     (buildings e) (units e) (camera_x e) (camera_y e) (zoom_level e) (game_map e)
     (CAMERA_SPEED e) (building_to_place e) (placement_preview e) (spawning_swordsman e)
     (win_message_shown e).
Definition set_buildings (v : list nat) (e : t) : t :=
  mk (heap e) (screen_width e) (screen_height e) (paused e) (selected_entities e)
     (entities e) v (units e) (camera_x e) (camera_y e) (zoom_level e) (game_map e)
     (CAMERA_SPEED e) (building_to_place e) (placement_preview e) (spawning_swordsman e)
     (win_message_shown e).
Definition set_units (v : list nat) (e : t) : t :=
  mk (heap e) (screen_width e) (screen_height e) (paused e) (selected_entities e)
     (entities e) (buildings e) v (camera_x e) (camera_y e) (zoom_level e) (game_map e)
     (CAMERA_SPEED e) (building_to_place e) (placement_preview e) (spawning_swordsman e)
     (win_message_shown e).
Definition set_camera_x (v : N) (e : t) : t :=
  mk (heap e) (screen_width e) (screen_height e) (paused e) (selected_entities e)
     (entities e) (buildings e) (units e) v (camera_y e) (zoom_level e) (game_map e)
     (CAMERA_SPEED e) (building_to_place e) (placement_preview e) (spawning_swordsman e)
     (win_message_shown e).
Definition set_camera_y (v : N) (e : t) : t :=
  mk (heap e) (screen_width e) (screen_height e) (paused e) (selected_entities e)
     (entities e) (buildings e) (units e) (camera_x e) v (zoom_level e) (game_map e)
     (CAMERA_SPEED e) (building_to_place e) (placement_preview e) (spawning_swordsman e)
     (win_message_shown e).
Definition set_game_map (v : GameMap.t) (e : t) : t :=
  mk (heap e) (screen_width e) (screen_height e) (paused e) (selected_entities e)
     (entities e) (buildings e) (units e) (camera_x e) (camera_y e) (zoom_level e) v
     (CAMERA_SPEED e) (building_to_place e) (placement_preview e) (spawning_swordsman e)
     (win_message_shown e).
Definition set_building_to_place (v : option string) (e : t) : t :=
  mk (heap e) (screen_width e) (screen_height e) (paused e) (selected_entities e)
     (entities e) (buildings e) (units e) (camera_x e) (camera_y e) (zoom_level e)
     (game_map e) (CAMERA_SPEED e) v (placement_preview e) (spawning_swordsman e)
     (win_message_shown e).
Definition set_placement_preview (v : option (Building.t N)) (e : t) : t :=
  mk (heap e) (screen_width e) (screen_height e) (paused e) (selected_entities e)
     (entities e) (buildings e) (units e) (camera_x e) (camera_y e) (zoom_level e)
     (game_map e) (CAMERA_SPEED e) (building_to_place e) v (spawning_swordsman e)
     (win_message_shown e).
Definition set_spawning_swordsman (v : bool) (e : t) : t :=
  mk (heap e) (screen_width e) (screen_height e) (paused e) (selected_entities e)
     (entities e) (buildings e) (units e) (camera_x e) (camera_y e) (zoom_level e)
     (game_map e) (CAMERA_SPEED e) (building_to_place e) (placement_preview e) v
     (win_message_shown e).
Definition set_win_message_shown (v : bool) (e : t) : t :=
  mk (heap e) (screen_width e) (screen_height e) (paused e) (selected_entities e)
     (entities e) (buildings e) (units e) (camera_x e) (camera_y e) (zoom_level e)
     (game_map e) (CAMERA_SPEED e) (building_to_place e) (placement_preview e)
     (spawning_swordsman e) v.

Definition with_heap {A : Type} (m : M (Heap.t N) A) : M t A := fun e =>
  let '(r, h) := m (heap e) in (r, set_heap h e).
End Defs.
Arguments t : clear implicits.
End GameEngine.

(** [try: m  except Exception: print(...)]: the exception is dropped, the
    mutations made before it stay. *)
Definition catch {S A : Type} (m : M S A) : M S unit := fun s => (Ok tt, (m s).2).

(** [if a in l: l.remove(a)]: the first occurrence goes. *)
Fixpoint remove_first {A : Type} `{EqDecision A} (a : A) (l : list A) : list A :=
  match l with
  | [] => []
  | b :: l' => if decide (b = a) then l' else b :: remove_first a l'
  end.

Section Engine.
Context {N : Type} `{Num N} `{Root N}.
Local Open Scope num_scope.

Abbreviation Engine := (GameEngine.t N).

(** *** Camera *)

Definition center_camera : M Engine unit :=
  catch (
    e ← gets id;
    let m := GameEngine.game_map e in
    center_tile ← lift (GameMap.get_tile_at m (GameMap.width m / 2)%Z (GameMap.height m / 2)%Z);
    match center_tile with
    | Some tile =>
        let zoom := GameEngine.zoom_level e in
        let center_x := nZ (Tile.base_screen_x tile) * zoom in
        let center_y := nZ (Tile.base_screen_y tile) * zoom - nZ 16 * zoom in
        cx ← lift (nint center_x);
        modify (GameEngine.set_camera_x (nZ (GameEngine.screen_width e / 2 - cx)));;
        cy ← lift (nint center_y);
        modify (GameEngine.set_camera_y (nZ (GameEngine.screen_height e / 2 - cy)))
    | None => mret tt
    end).

Definition get_camera_limits (e : Engine) : N * N * N * N :=
  let map_width := nZ (GameMap.width (GameEngine.game_map e) * 32) * GameEngine.zoom_level e in
  let map_height := nZ (GameMap.height (GameEngine.game_map e) * 16) * GameEngine.zoom_level e in
  let padding := nZ 100 in
  let min_x := nZ (GameEngine.screen_width e) - map_width - padding in
  let max_x := padding in
  let min_y := nZ (GameEngine.screen_height e) - map_height - padding in
  let max_y := padding in
  (min_x, max_x, min_y, max_y).

Definition clamp_camera_position : M Engine unit :=
  modify (fun e =>
    let '(min_x, max_x, min_y, max_y) := get_camera_limits e in
    let e := GameEngine.set_camera_x (pymax min_x (pymin max_x (GameEngine.camera_x e))) e in
    GameEngine.set_camera_y (pymax min_y (pymin max_y (GameEngine.camera_y e))) e).

(** *** The tick: enemy AI *)

(** Inner loop of the AI: [acc] is [(min_dist, target)], [None] standing
    for [(inf, None)]. *)
Definition seek (enemy : nat) (acc : option (N * nat)) (unit : nat)
  : M (Heap.t N) (option (N * nat)) :=
  u ← Heap.get_unit unit;
  if String.eqb (Unit.team u) "player" then
    en ← Heap.get_unit enemy;
    dist ← lift (distance (Unit.x en) (Unit.y en) (Unit.x u) (Unit.y u));
    if (dist <? nZ 400) && match acc with Some (min_dist, _) => dist <? min_dist | None => true end
    then mret (Some (dist, unit))
    else mret acc
  else mret acc.

Definition enemy_ai (units : list nat) (enemy : nat) : M (Heap.t N) unit :=
  en ← Heap.get_unit enemy;
  if String.eqb (Unit.team en) "enemy" then
    acc ← foldM (seek enemy) units None;
    match acc with
    | Some (_, target) =>
        t ← Heap.get_unit target;
        Heap.modify_unit enemy (Unit.move_to (Unit.x t, Unit.y t))
    | None => mret tt
    end
  else mret tt.

(** *** The tick: keyboard *)

Definition move_camera (inp : Input N) : M Engine unit :=
  let step : M Engine N :=
    e ← gets id; lift (ndiv (GameEngine.CAMERA_SPEED e) (GameEngine.zoom_level e)) in
  (if K_LEFT inp then
     d ← step; modify (fun e => GameEngine.set_camera_x (GameEngine.camera_x e + d) e)
   else mret tt);;
  (if K_RIGHT inp then
     d ← step; modify (fun e => GameEngine.set_camera_x (GameEngine.camera_x e - d) e)
   else mret tt);;
  (if K_UP inp then
     d ← step; modify (fun e => GameEngine.set_camera_y (GameEngine.camera_y e + d) e)
   else mret tt);;
  (if K_DOWN inp then
     d ← step; modify (fun e => GameEngine.set_camera_y (GameEngine.camera_y e - d) e)
   else mret tt).

Definition wasd_entity (dx dy : Z) (entity : ref) : M (Heap.t N) unit :=
  match entity with
  | RUnit i =>
      a ← lift (npow2 (nZ dx));
      b ← lift (npow2 (nZ dy));
      let norm := nroot (a + b) in
      if norm =? nZ 0 then mret tt
      else
        u ← Heap.get_unit i;
        qx ← lift (ndiv (nZ dx) norm);
        let move_x := qx * Unit.speed u in
        qy ← lift (ndiv (nZ dy) norm);
        let move_y := qy * Unit.speed u in
        Heap.modify_unit i (fun u => Unit.set_pos (Unit.x u + move_x) (Unit.y u) u);;
        Heap.modify_unit i (fun u => Unit.set_pos (Unit.x u) (Unit.y u + move_y) u)
  | RBuilding _ => mret tt
  end.

Definition move_selected (inp : Input N) : M Engine unit :=
  let dx := ((if K_a inp then -1 else 0) + (if K_d inp then 1 else 0))%Z in
  let dy := ((if K_w inp then -1 else 0) + (if K_s inp then 1 else 0))%Z in
  if negb (dx =? 0)%Z || negb (dy =? 0)%Z then
    e ← gets id;
    GameEngine.with_heap
      (foldM (fun _ entity => wasd_entity dx dy entity) (GameEngine.selected_entities e) tt)
  else mret tt.

(** *** The tick: entities *)

Definition update_building (i : nat) : M (Heap.t N) unit := fun h =>
  match Heap.buildings h !! i with
  | Some b =>
      let '(b', rm) := Building.update 1 b (Heap.resources h) in
      (Ok tt, Heap.mk (Heap.units h) (<[i := b']> (Heap.buildings h)) rm)
  | None => (Raise ReferenceError, h)
  end.

(** Body of the loop over [self.entities]; [acc] is
    [(to_remove, to_remove_buildings)]. *)
Definition update_entity (all_units all_buildings : list nat)
    (acc : list nat * list nat) (entity : ref) : M (Heap.t N) (list nat * list nat) :=
  match entity with
  | RUnit i =>
      Heap.modify_unit i (Unit.set_all_buildings all_buildings);;
      Unit_update i all_units;;
      u ← Heap.get_unit i;
      if Unit.health u <=? nZ 0 then mret (acc.1 ++ [i], acc.2) else mret acc
  | RBuilding i =>
      update_building i;;
      b ← Heap.get_building i;
      if Building.health b <=? nZ 0 then mret (acc.1, acc.2 ++ [i]) else mret acc
  end.

Definition clear_tiles (f : Tile.t -> Tile.t) (m : GameMap.t) : GameMap.t :=
  GameMap.mk (GameMap.width m) (GameMap.height m) (map (map f) (GameMap.tiles m)).

Definition remove_unit (dead : nat) (e : Engine) : Engine :=
  let e := GameEngine.set_entities (remove_first (RUnit dead) (GameEngine.entities e)) e in
  let e := GameEngine.set_units (remove_first dead (GameEngine.units e)) e in
  GameEngine.set_game_map
    (clear_tiles (fun tile => if bool_decide (Tile.unit_ tile = Some dead)
                              then Tile.set_unit None tile else tile)
                 (GameEngine.game_map e)) e.

Definition remove_building (b : nat) (e : Engine) : Engine :=
  let e := GameEngine.set_entities (remove_first (RBuilding b) (GameEngine.entities e)) e in
  let e := GameEngine.set_buildings (remove_first b (GameEngine.buildings e)) e in
  GameEngine.set_game_map
    (clear_tiles (fun tile => if bool_decide (Tile.building tile = Some b)
                              then Tile.set_building None tile else tile)
                 (GameEngine.game_map e)) e.

Definition unit_refs (l : list ref) : list nat :=
  omap (fun r => match r with RUnit i => Some i | RBuilding _ => None end) l.
Definition building_refs (l : list ref) : list nat :=
  omap (fun r => match r with RBuilding i => Some i | RUnit _ => None end) l.

Definition update_entities : M Engine unit :=
  e ← gets id;
  let all_units := unit_refs (GameEngine.entities e) in
  let all_buildings := building_refs (GameEngine.entities e) in
  dead ← GameEngine.with_heap
           (foldM (update_entity all_units all_buildings) (GameEngine.entities e) ([], []));
  modify (fun e => foldl (fun e d => remove_unit d e) e dead.1);;
  modify (fun e => foldl (fun e b => remove_building b e) e dead.2).

(** *** The tick: placement preview *)

Definition update_preview (inp : Input N) : M Engine unit :=
  e ← gets id;
  match GameEngine.placement_preview e with
  | Some preview =>
      let '(mouse_x, mouse_y) := mouse_pos inp in
      world_x ← lift (ndiv (mouse_x - GameEngine.camera_x e) (GameEngine.zoom_level e));
      world_y ← lift (ndiv (mouse_y - GameEngine.camera_y e) (GameEngine.zoom_level e));
      match GameMap.get_tile_at_screen_pos (GameEngine.game_map e) world_x world_y
              (GameEngine.zoom_level e) (GameEngine.camera_x e) (GameEngine.camera_y e) with
      | Some tile =>
          modify (GameEngine.set_placement_preview
                    (Some (Building.set_y (nZ (Tile.y tile))
                             (Building.set_x (nZ (Tile.x tile)) preview))))
      | None => mret tt
      end
  | None => mret tt
  end.

(** *** The tick: win condition *)

Definition living_enemy_swordsman (u : Unit.t N) : bool :=
  String.eqb (Unit.unit_type u) "Swordsman" && String.eqb (Unit.team u) "enemy"
  && (nZ 0 <? Unit.health u).

(** [[u for u in self.units if ...]], as references. *)
Definition enemy_swordsmen (units : list nat) : M (Heap.t N) (list nat) :=
  foldM (fun acc i => u ← Heap.get_unit i;
                      mret (if living_enemy_swordsman u then acc ++ [i] else acc))
        units [].

Definition check_win : M Engine unit :=
  e ← gets id;
  if negb (GameEngine.win_message_shown e) then
    l ← GameEngine.with_heap (enemy_swordsmen (GameEngine.units e));
    if (length l =? 0)%nat then modify (GameEngine.set_win_message_shown true) else mret tt
  else mret tt.

(** *** [GameEngine.update] *)

Definition simulate (inp : Input N) : M Engine unit :=
  e ← gets id;
  GameEngine.with_heap
    (foldM (fun _ enemy => enemy_ai (GameEngine.units e) enemy) (GameEngine.units e) tt);;
  move_camera inp;;
  move_selected inp;;
  clamp_camera_position;;
  update_entities;;
  update_preview inp.

Definition update_body (inp : Input N) : M Engine unit :=
  e ← gets id;
  (if negb (GameEngine.paused e) then simulate inp else mret tt);;
  check_win.

Definition update (inp : Input N) : M Engine unit := catch (update_body inp).

(** *** [GameEngine.__init__]

    [generate_map] is random: [init] takes the terrain and the resource
    amounts it drew, and starts from the 71 by 71 grid that holds them. *)

Definition set_tile (x y : Z) (f : Tile.t -> Tile.t) (m : GameMap.t) : GameMap.t :=
  GameMap.mk (GameMap.width m) (GameMap.height m)
             (alter (alter f (Z.to_nat x)) (Z.to_nat y) (GameMap.tiles m)).

Definition in_map (m : GameMap.t) (x y : Z) : bool :=
  ((0 <=? x) && (x <? GameMap.width m) && (0 <=? y) && (y <? GameMap.height m))%Z.

(** [self.entities.append(b); self.buildings.append(b)] for a new building *)
Definition add_building (b : Building.t N) : M Engine nat :=
  i ← GameEngine.with_heap (Heap.new_building b);
  modify (fun e => GameEngine.set_buildings (GameEngine.buildings e ++ [i])
                     (GameEngine.set_entities (GameEngine.entities e ++ [RBuilding i]) e));;
  mret i.

(** The same for a new unit, which is also written on its tile. *)
Definition add_unit (u : Unit.t N) (tx ty : Z) : M Engine nat :=
  i ← GameEngine.with_heap (Heap.new_unit u);
  modify (fun e => GameEngine.set_units (GameEngine.units e ++ [i])
                     (GameEngine.set_entities (GameEngine.entities e ++ [RUnit i]) e));;
  modify (fun e => GameEngine.set_game_map
                     (set_tile tx ty (Tile.set_unit (Some i)) (GameEngine.game_map e)) e);;
  mret i.

Definition set_map (f : GameMap.t -> GameMap.t) : M Engine unit :=
  modify (fun e => GameEngine.set_game_map (f (GameEngine.game_map e)) e).

Definition spawn_tiles (m : GameMap.t) : list (Z * Z) :=
  filter (fun t => Is_true (in_map m t.1 t.2))
         (map (fun d : Z * Z => (65 + d.1 - 8, 5 + d.2)%Z)
              [(-1, 0); (2, 0); (0, -1); (0, 2); (2, 2); (-1, 2); (2, -1); (-1, -1)]%Z).

Definition empty_engine (screen_width screen_height : Z) (generated : GameMap.t) : Engine :=
  GameEngine.mk (Heap.mk [] [] ResourceManager.init) screen_width screen_height false
                [] [] [] [] (nZ 0) (nZ 0) (nlit 1) generated (nZ 10) None None false false.

Definition init_body : M Engine unit :=
  stonekeep ← add_building (Building.init (nZ 9) (nZ 13) "Stonekeep" false);
  set_map (set_tile 9 13 (Tile.set_building (Some stonekeep)));;
  stockpile_right ← add_building (Building.init (nZ 11) (nZ 13) "Stockpile" false);
  e ← gets id;
  foldM (fun _ sx =>
           if ((0 <=? sx) && (sx <? GameMap.width (GameEngine.game_map e)))%Z
           then set_map (set_tile sx 13 (Tile.set_building (Some stockpile_right)))
           else mret tt) (seqZ 11 4) tt;;
  foldM (fun (_ : unit) (d : Z * Z) =>
           if in_map (GameEngine.game_map e) (9 + d.1) (13 + d.2)
           then set_map (set_tile (9 + d.1) (13 + d.2) (Tile.set_tile_type MOUNTAIN))
           else mret tt) [(6, 0); (0, 6)]%Z tt;;
  foldM (fun (_ : unit) (d : Z * Z) =>
           if in_map (GameEngine.game_map e) (65 + d.1) (5 + d.2)
           then set_map (set_tile (65 + d.1) (5 + d.2) (Tile.set_tile_type MOUNTAIN))
           else mret tt) [(6, 0); (0, 6)]%Z tt;;
  enemy_stonekeep ← add_building (Building.init (nZ 65) (nZ 5) "EnemyStonekeep" false);
  set_map (set_tile 65 5 (Tile.set_building (Some enemy_stonekeep)));;
  stockpile_enemy_left ← add_building (Building.init (nZ 61) (nZ 5) "Stockpile" false);
  foldM (fun _ sx =>
           if ((0 <=? sx) && (sx <? GameMap.width (GameEngine.game_map e)))%Z
           then set_map (set_tile sx 5 (Tile.set_building (Some stockpile_enemy_left)))
           else mret tt) (seqZ 61 4) tt;;
  let tiles := spawn_tiles (GameEngine.game_map e) in
  foldM (fun _ i =>
           match tiles !! (i `mod` length tiles)%nat with
           | Some (tx, ty) =>
               let iso_x := ((tx - ty) * 32)%Z in
               let iso_y := ((tx + ty) * 16)%Z in
               add_unit (Unit.init (nZ iso_x) (nZ iso_y) "Swordsman" "enemy") tx ty;;
               mret tt
           | None => lift (Raise ZeroDivisionError)
           end) (seq 0 5) tt;;
  center_camera.

(** The engine after [__init__] on a 1280 by 720 screen (the exceptions
    it re-raises end the program; then there is no engine). *)
Definition init (terrain : Z -> Z -> TileType) (amount : Z -> Z -> Z) : res Engine :=
  let '(r, e) := init_body (empty_engine 1280 720 (GameMap.generated 71 71 terrain amount)) in
  _ ← r; Ok e.

(** *** Commands of the input layer *)

Definition start_building_placement (building_type : string) : M Engine unit :=
  catch (
    if String.eqb building_type "Swordsman" then
      modify (GameEngine.set_spawning_swordsman true);;
      modify (GameEngine.set_building_to_place None);;
      modify (GameEngine.set_placement_preview None)
    else
      modify (GameEngine.set_building_to_place (Some building_type));;
      modify (GameEngine.set_placement_preview
                (Some (Building.init (nZ 0) (nZ 0) building_type false)))).

(** [handle_mouse_click(pos)] in its swordsman branch: a left click, or a
    right click with nothing selected, while [spawning_swordsman] is set. *)
Definition spawn_swordsman_click (pos : N * N) : M Engine unit :=
  catch (
    e ← gets id;
    world_x ← lift (ndiv (pos.1 - GameEngine.camera_x e) (GameEngine.zoom_level e));
    world_y ← lift (ndiv (pos.2 - GameEngine.camera_y e) (GameEngine.zoom_level e));
    match GameMap.get_tile_at_screen_pos (GameEngine.game_map e) world_x world_y
            (GameEngine.zoom_level e) (GameEngine.camera_x e) (GameEngine.camera_y e) with
    | Some tile =>
        let iso_x := ((Tile.x tile - Tile.y tile) * 32)%Z in
        let iso_y := ((Tile.x tile + Tile.y tile) * 16)%Z in
        add_unit (Unit.init (nZ iso_x) (nZ iso_y) "Swordsman" "player")
                 (Tile.x tile) (Tile.y tile);;
        mret tt
    | None => mret tt
    end);;
  modify (GameEngine.set_spawning_swordsman false);;
  modify (GameEngine.set_placement_preview None);;
  modify (GameEngine.set_building_to_place None).

(** The preview as [render] places it: [Building.render] asks
    [get_screen_pos] (through [get_points]) at the current zoom. *)
Definition preview_screen_pos (e : Engine) : option (N * N) :=
  b ← GameEngine.placement_preview e;
  Some (Building.get_screen_pos (GameEngine.zoom_level e) b).1.

(** *** Runs of the driver *)

(** One pass of the game loop through [update]: the engine it leaves. *)
Definition tick (inp : Input N) (e : Engine) : Engine := (update inp e).2.

(** What happens to an engine between its construction and now: ticks,
    and whatever else the program does to it, none of which assigns
    [win_message_shown] ([update] is the only place that does). *)
Inductive step : Engine -> Engine -> Prop :=
| step_tick (inp : Input N) (e : Engine) : step e (tick inp e)
| step_other (e e' : Engine) :
    GameEngine.win_message_shown e' = GameEngine.win_message_shown e -> step e e'.

(** The engines that the modelled commands can produce from a fresh one. *)
Inductive reachable : Engine -> Prop :=
| reach_init (terrain : Z -> Z -> TileType) (amount : Z -> Z -> Z) (e : Engine) :
    init terrain amount = Ok e -> reachable e
| reach_tick (inp : Input N) (e : Engine) :
    reachable e -> reachable (tick inp e)
| reach_placement (building_type : string) (e : Engine) :
    reachable e -> reachable (start_building_placement building_type e).2
| reach_spawn (pos : N * N) (e : Engine) :
    reachable e -> GameEngine.spawning_swordsman e = true ->
    reachable (spawn_swordsman_click pos e).2.

(** No unit of [self.units] is an enemy swordsman with health above zero. *)
Definition enemy_defeated (e : Engine) : Prop :=
  forall i u, i ∈ GameEngine.units e ->
              Heap.units (GameEngine.heap e) !! i = Some u ->
              living_enemy_swordsman u = false.

(** A method of the engine that leaves [win_message_shown] as it is,
    however it ends. *)
Definition keeps_win {A : Type} (m : M Engine A) : Prop :=
  forall e, GameEngine.win_message_shown (m e).2 = GameEngine.win_message_shown e.

End Engine.

(** ** The effect of the attack scans, unit by unit

    These definitions say, for the scans of the unit [U] found at [self]
    in the heap [h0], what each unit and building looks like once the
    scan has gone through the references [done]. *)

Section ScanModel.
Context {N : Type} `{Num N} `{Root N}.
Local Open Scope num_scope.

Variables (self : nat) (h0 : Heap.t N) (U : Unit.t N).

(** [w] is struck by the scan of [self]. *)
Definition struck_back (w : nat) : bool :=
  bool_decide (w <> self) &&
  match Heap.units h0 !! w with Some V => in_melee U V | None => false end.

(** The unit at [i] once the scan has gone through [done]. *)
Definition after_units (done : list nat) (i : nat) (u : Unit.t N) : Unit.t N :=
  if decide (i = self) then
    Unit.set_target_pos (if existsb struck_back done then None else Unit.target_pos u)
      (Unit.set_health (struck (Heap.units h0) self U done) u)
  else
    Unit.set_health
      (foldl (fun acc w => if bool_decide (w = i) && struck_back w
                           then acc - Unit.attack_damage U * nlit (1 # 10) else acc)
             (Unit.health u) done) u.

Definition units_inv (done : list nat) (h : Heap.t N) : Prop :=
  Heap.buildings h = Heap.buildings h0 /\
  Heap.resources h = Heap.resources h0 /\
  forall i, Heap.units h !! i = after_units done i <$> Heap.units h0 !! i.

(** [b] is damaged by the scan of [self]. *)
Definition hit (b : nat) : bool :=
  match Heap.buildings h0 !! b with Some B => in_contact U B | None => false end.

Definition after_buildings (done : list nat) (j : nat) (B : Building.t N) : Building.t N :=
  Building.set_health
    (foldl (fun acc b => if bool_decide (b = j) && hit b
                         then acc - Unit.attack_damage U * nlit (8 # 100) else acc)
           (Building.health B) done) B.

Definition after_contact (done : list nat) (i : nat) (u : Unit.t N) : Unit.t N :=
  if bool_decide (i = self) && existsb hit done then Unit.set_target_pos None u else u.

Definition buildings_inv (done : list nat) (h : Heap.t N) : Prop :=
  Heap.resources h = Heap.resources h0 /\
  (forall j, Heap.buildings h !! j = after_buildings done j <$> Heap.buildings h0 !! j) /\
  (forall i, Heap.units h !! i = after_contact done i <$> Heap.units h0 !! i).

End ScanModel.

(** The heap after the two scans of [self], unit by unit and building by
    building, in terms of the heap before them. *)
Definition scanned {N : Type} `{Num N} `{Root N} (self : nat) (h : Heap.t N) (U : Unit.t N) (all_units : list nat)
    (h' : Heap.t N) : Prop :=
  Heap.resources h' = Heap.resources h /\
  (forall j, Heap.buildings h' !! j =
             after_buildings h U (Unit.all_buildings U) j <$> Heap.buildings h !! j) /\
  (forall i, Heap.units h' !! i =
             (fun u => after_contact self h U (Unit.all_buildings U) i
                         (after_units self h U all_units i u)) <$> Heap.units h !! i).


(** ** Concrete situations, on binary64 *)

Module Scenario.

Definition swordsman (x y : Z) (team : string) : Unit.t float :=
  Unit.init (nZ x) (nZ y) "Swordsman" team.

(** A unit with chosen health and attack damage, otherwise as built. *)
Definition fighter (x y : Z) (team : string) (health attack_damage : Z) : Unit.t float :=
  Unit.mk (nZ x) (nZ y) (nZ 32) (nZ 32) false "Swordsman" (nZ health) (nZ 100) (nZ 2)
          None (nZ attack_damage) (nZ 50) team [].

Definition heap (units : list (Unit.t float)) (buildings : list (Building.t float))
  : Heap.t float :=
  Heap.mk units buildings ResourceManager.init.

(** One unit at the origin, sent to a point one pixel away. *)
Definition arriving : Heap.t float :=
  heap [Unit.move_to (nZ 1, nZ 0) (swordsman 0 0 "player")] [].

(** A unit sent to the right, a friend standing 20 pixels along the way. *)
Definition crowded : Heap.t float :=
  heap [Unit.move_to (nZ 100, nZ 0) (swordsman 0 0 "player"); swordsman 20 0 "player"] [].

(** Two opposing swordsmen 10 pixels apart. *)
Definition duel : Heap.t float :=
  heap [swordsman 0 0 "player"; swordsman 10 0 "enemy"] [].

(** A unit with health 5 next to an opponent who deals 1000 per tick. *)
Definition overkill : Heap.t float :=
  heap [fighter 0 0 "player" 5 10; fighter 10 0 "enemy" 100 20000] [].

(** A player swordsman with a destination, standing on the enemy keep. *)
Definition siege : Heap.t float :=
  heap [Unit.set_all_buildings [0%nat]
          (Unit.move_to (nZ 300, nZ 300) (swordsman 96 48 "player"))]
       [Building.init (nZ 65) (nZ 5) "EnemyStonekeep" false].

(** No key pressed, the mouse in a corner; the same with the up arrow
    held; the mouse over the tile (35, 35) once the camera is clamped. *)
Definition idle : Input float :=
  mkInput float false false false false false false false false (nZ 0, nZ 0).
Definition arrow_up : Input float :=
  mkInput float false false true false false false false false (nZ 0, nZ 0).
Definition hover : Input float :=
  mkInput float false false false false false false false false (nZ 200, nZ 88).

(** The engine after [__init__] on the map drawn as [terrain], [amount]. *)
Definition fresh (terrain : Z -> Z -> TileType) (amount : Z -> Z -> Z)
  : GameEngine.t float :=
  match init terrain amount with
  | Ok e => e
  | Raise _ => empty_engine 1280 720 (GameMap.generated 71 71 terrain amount)
  end.

(** Scroll up for 63 ticks, spawn two swordsmen with clicks on the tiles
    (3, 0) and (4, 0), which lie on the rectangle of the enemy keep, and
    let 63 more ticks pass. *)
Definition assault (e : GameEngine.t float) : GameEngine.t float :=
  let e := Nat.iter 63 (tick arrow_up) e in
  let e := (start_building_placement "Swordsman" e).2 in
  let e := (spawn_swordsman_click (nZ 296, nZ 248) e).2 in
  let e := (start_building_placement "Swordsman" e).2 in
  let e := (spawn_swordsman_click (nZ 328, nZ 264) e).2 in
  Nat.iter 63 (tick idle) e.

(** Pick the farm button, then let one tick pass with the mouse over the
    map. *)
Definition placing (e : GameEngine.t float) : GameEngine.t float :=
  tick hover (start_building_placement "Farm" e).2.

(** A unit with a long way to go and nothing around; and the same unit
    about to step against the wall of its own keep. *)
Definition marching : Heap.t float :=
  heap [Unit.move_to (nZ 100, nZ 0) (swordsman 0 0 "player")] [].
Definition walled : Heap.t float :=
  heap [Unit.set_all_buildings [0%nat]
          (Unit.move_to (nZ 100, nZ 50) (swordsman (-8) 50 "player"))]
       [Building.init (nZ 9) (nZ 13) "Stonekeep" false].


(** A 2 by 2 map of grass, and the same with a mountain in a corner. *)
Definition meadow : GameMap.t := GameMap.generated 2 2 (fun _ _ => GRASS) (fun _ _ => 0).
Definition foothill : GameMap.t :=
  GameMap.generated 2 2 (fun x y => if (x =? 1) && (y =? 1) then MOUNTAIN else GRASS)
                    (fun _ _ => 0).

End Scenario.

(** ** The rest of game/map.py and game/resources.py *)

(** [for a in l: acc = body(acc, a)], for code that keeps no state. *)
Fixpoint fold_res {A B : Type} (body : B -> A -> res B) (l : list A) (acc : B) : res B :=
  match l with
  | [] => Ok acc
  | a :: l' => acc' ← body acc a; fold_res body l' acc'
  end.

Definition is_walkable (tile : Tile.t) : bool :=
  negb (bool_decide (Tile.tile_type tile = WATER))
  && negb (bool_decide (Tile.tile_type tile = MOUNTAIN)).

(** [GameMap.get_walkable_neighbors] *)
Definition get_walkable_neighbors (m : GameMap.t) (x y : Z) : res (list (Z * Z)) :=
  let directions := [(0, 1); (1, 0); (0, -1); (-1, 0)] in
  fold_res (fun neighbors (d : Z * Z) =>
              let new_x := x + d.1 in
              let new_y := y + d.2 in
              tile ← GameMap.get_tile_at m new_x new_y;
              Ok match tile with
                 | Some tile =>
                     if is_walkable tile then neighbors ++ [(new_x, new_y)] else neighbors
                 | None => neighbors
                 end)
           directions [].

(** The methods of [ResourceManager] besides [add_resource].  A cost
    dictionary is the list of its items, in the order [items()] gives
    them; its keys are distinct. *)
Module Stockpile.

Definition get_resource (r : ResourceType) (rm : ResourceManager.t) : Z := rm r.

Definition remove_resource (r : ResourceType) (amount : Z) (rm : ResourceManager.t)
  : bool * ResourceManager.t :=
  if amount <=? rm r
  then (true, fun r' => if bool_decide (r' = r) then rm r' - amount else rm r')
  else (false, rm).

Fixpoint can_afford (costs : list (ResourceType * Z)) (rm : ResourceManager.t) : bool :=
  match costs with
  | [] => true
  | (r, cost) :: costs' => if rm r <? cost then false else can_afford costs' rm
  end.

Definition pay_costs (costs : list (ResourceType * Z)) (rm : ResourceManager.t)
  : bool * ResourceManager.t :=
  if can_afford costs rm
  then (true, foldl (fun rm (c : ResourceType * Z) => (remove_resource c.1 c.2 rm).2)
                    rm costs)
  else (false, rm).

(** [costs.get(r, 0)] *)
Fixpoint cost_of (costs : list (ResourceType * Z)) (r : ResourceType) : Z :=
  match costs with
  | [] => 0
  | (r', cost) :: costs' => if bool_decide (r' = r) then cost else cost_of costs' r
  end.

End Stockpile.

(** A tile that [get_walkable_neighbors] accepts. *)
Definition walkable_at (m : GameMap.t) (p : Z * Z) : Prop :=
  0 <= p.1 < GameMap.width m /\ 0 <= p.2 < GameMap.height m /\
  exists tile, GameMap.index m p.1 p.2 = Ok tile /\
               Tile.tile_type tile <> WATER /\ Tile.tile_type tile <> MOUNTAIN.

(** [n] calls of [Building.update()], one per tick, on a building and the
    stockpile it feeds. *)
Definition Building_updates {N : Type} (n : nat)
    (s : Building.t N * ResourceManager.t) : Building.t N * ResourceManager.t :=
  Nat.iter n (fun s => Building.update 1 s.1 s.2) s.

(** ** The rest of the click handler of game/engine.py *)

(** The coordinates [c] lie on the map. *)
Definition cell_ok (m : GameMap.t) (c : Z * Z) : Prop :=
  0 <= c.1 < GameMap.width m /\ 0 <= c.2 < GameMap.height m.

(** The tiles under a [width] by [height] building at [(place_x, place_y)],
    in the order the loops visit them, and the map once each of them
    holds the building. *)
Definition footprint (place_x place_y width height : Z) : list (Z * Z) :=
  dy ← seqZ 0 height; dx ← seqZ 0 width; [(place_x + dx, place_y + dy)].

Definition occupy (building : nat) (cells : list (Z * Z)) (m : GameMap.t) : GameMap.t :=
  foldl (fun m (c : Z * Z) => set_tile c.1 c.2 (Tile.set_building (Some building)) m)
        m cells.

Section Placement.
Context {N : Type} `{Num N} `{Root N}.
Local Open Scope num_scope.

(** [for dy in range(height): for dx in range(width):
       t = get_tile_at(place_x + dx, place_y + dy)
       if t: t.building = building] *)
Definition place_tiles (building : nat) (place_x place_y width height : Z)
  : M (GameEngine.t N) unit :=
  foldM (fun (_ : unit) (dy : Z) =>
           foldM (fun (_ : unit) (dx : Z) =>
                    e ← gets id;
                    t ← lift (GameMap.get_tile_at (GameEngine.game_map e)
                                (place_x + dx) (place_y + dy));
                    match t with
                    | Some _ =>
                        set_map (N := N)
                          (set_tile (place_x + dx) (place_y + dy)
                                    (Tile.set_building (Some building)))
                    | None => mret tt
                    end) (seqZ 0 width) tt) (seqZ 0 height) tt.

(** [handle_mouse_click(pos, button)] past its first two branches: not a
    right click with units selected, and [spawning_swordsman] unset.
    The answer tells whether the click was taken as a placement; if not,
    the selection logic follows.  The sizes of the preview are the
    integers that [Building.__init__] wrote, read back with [nint];
    [resource_manager] is the shared stockpile. *)
Definition place_building_click (pos : N * N) (button : Z) : M (GameEngine.t N) bool :=
  e ← gets id;
  world_x ← lift (ndiv (pos.1 - GameEngine.camera_x e) (GameEngine.zoom_level e));
  world_y ← lift (ndiv (pos.2 - GameEngine.camera_y e) (GameEngine.zoom_level e));
  let tile := GameMap.get_tile_at_screen_pos (GameEngine.game_map e) world_x world_y
                (GameEngine.zoom_level e) (GameEngine.camera_x e) (GameEngine.camera_y e) in
  match GameEngine.placement_preview e, GameEngine.building_to_place e, tile with
  | Some preview, Some building_type, Some tile =>
      if String.eqb building_type EmptyString then mret false
      else
        pw ← lift (nint (Building.width preview));
        let width := Z.max 1 (pw / 64) in
        ph ← lift (nint (Building.height preview));
        let height := Z.max 1 (ph / 64) in
        let place_x := (Tile.x tile - width / 2)%Z in
        let place_y := (Tile.y tile - height / 2)%Z in
        (if (button =? 1)%Z then
           ok ← lift (GameMap.can_build_at (GameEngine.game_map e)
                        place_x place_y width height);
           if ok : bool then
             catch (building ← add_building
                                 (Building.init (nZ place_x) (nZ place_y) building_type true);
                    place_tiles building place_x place_y width height);;
             modify (GameEngine.set_building_to_place None);;
             modify (GameEngine.set_placement_preview None)
           else mret tt
         else if (button =? 3)%Z then
           modify (GameEngine.set_building_to_place None);;
           modify (GameEngine.set_placement_preview None)
         else mret tt);;
        mret true
  | _, _, _ => mret false
  end.

End Placement.

(** ** What the enemy AI looks for *)

(** [P] is a player unit less than 400 pixels from [en]. *)
Definition in_sight {N : Type} `{Num N} `{Root N} (en P : Unit.t N) : bool :=
  String.eqb (Unit.team P) "player" &&
  match distance (Unit.x en) (Unit.y en) (Unit.x P) (Unit.y P) with
  | Ok dist => (dist <? nZ 400)%num
  | Raise _ => false
  end.

(** Some unit of [units] is in sight of [en]. *)
Definition sees {N : Type} `{Num N} `{Root N} (h : Heap.t N) (en : Unit.t N)
    (units : list nat) : bool :=
  existsb (fun p => match Heap.units h !! p with
                    | Some P => in_sight en P
                    | None => false
                    end) units.

(** ** What a run of the engine keeps *)

(** A method that takes every state to one related to it by [R], however
    it ends. *)
Definition always {S A : Type} (R : relation S) (m : M S A) : Prop :=
  forall s, R s (m s).2.

Section Invariants.
Context {N : Type}.

(** The store keeps its size and the stockpile does not shrink. *)
Definition tame (h h' : Heap.t N) : Prop :=
  length (Heap.units h') = length (Heap.units h) /\
  length (Heap.buildings h') = length (Heap.buildings h) /\
  forall r, Heap.resources h r <= Heap.resources h' r.

(** The three lists of the engine agree, hold no entity twice, and every
    reference in them points into the store. *)
Definition sound (e : GameEngine.t N) : Prop :=
  GameEngine.units e = unit_refs (GameEngine.entities e) /\
  GameEngine.buildings e = building_refs (GameEngine.entities e) /\
  NoDup (GameEngine.entities e) /\
  (forall i, RUnit i ∈ GameEngine.entities e ->
             (i < length (Heap.units (GameEngine.heap e)))%nat) /\
  (forall i, RBuilding i ∈ GameEngine.entities e ->
             (i < length (Heap.buildings (GameEngine.heap e)))%nat).

(** What a tick may do to the engine. *)
Definition evolves (e e' : GameEngine.t N) : Prop :=
  tame (GameEngine.heap e) (GameEngine.heap e') /\
  (sound e -> sound e') /\
  (forall r, r ∈ GameEngine.entities e' -> r ∈ GameEngine.entities e) /\
  GameEngine.zoom_level e' = GameEngine.zoom_level e /\
  GameEngine.paused e' = GameEngine.paused e /\
  GameEngine.screen_width e' = GameEngine.screen_width e /\
  GameEngine.screen_height e' = GameEngine.screen_height e /\
  GameMap.width (GameEngine.game_map e') = GameMap.width (GameEngine.game_map e) /\
  GameMap.height (GameEngine.game_map e') = GameMap.height (GameEngine.game_map e).

(** A change of the engine that touches neither the store, the lists of
    entities, the zoom, the pause, nor the sizes of screen and map. *)
Definition settings_only (f : GameEngine.t N -> GameEngine.t N) : Prop :=
  forall e,
    GameEngine.heap (f e) = GameEngine.heap e /\
    GameEngine.entities (f e) = GameEngine.entities e /\
    GameEngine.units (f e) = GameEngine.units e /\
    GameEngine.buildings (f e) = GameEngine.buildings e /\
    GameEngine.zoom_level (f e) = GameEngine.zoom_level e /\
    GameEngine.paused (f e) = GameEngine.paused e /\
    GameEngine.screen_width (f e) = GameEngine.screen_width e /\
    GameEngine.screen_height (f e) = GameEngine.screen_height e /\
    GameMap.width (GameEngine.game_map (f e)) = GameMap.width (GameEngine.game_map e) /\
    GameMap.height (GameEngine.game_map (f e)) = GameMap.height (GameEngine.game_map e).

(** A step that takes sound engines to sound engines. *)
Definition stays_sound (e e' : GameEngine.t N) : Prop := sound e -> sound e'.

(** A step that keeps the size of the map and its being well formed. *)
Definition keeps_map (e e' : GameEngine.t N) : Prop :=
  GameMap.width (GameEngine.game_map e') = GameMap.width (GameEngine.game_map e) /\
  GameMap.height (GameEngine.game_map e') = GameMap.height (GameEngine.game_map e) /\
  (GameMap.wf (GameEngine.game_map e) -> GameMap.wf (GameEngine.game_map e')).

(** A step that leaves the camera where it is. *)
Definition holds_camera (e e' : GameEngine.t N) : Prop :=
  GameEngine.camera_x e' = GameEngine.camera_x e /\
  GameEngine.camera_y e' = GameEngine.camera_y e.

End Invariants.

(** ** The pause key and further situations *)

(** [self.paused = not self.paused], the answer of [handle_events] to the
    escape key. *)
Definition toggle_pause {N : Type} (e : GameEngine.t N) : GameEngine.t N :=
  GameEngine.mk (GameEngine.heap e) (GameEngine.screen_width e)
    (GameEngine.screen_height e) (negb (GameEngine.paused e))
    (GameEngine.selected_entities e) (GameEngine.entities e) (GameEngine.buildings e)
    (GameEngine.units e) (GameEngine.camera_x e) (GameEngine.camera_y e)
    (GameEngine.zoom_level e) (GameEngine.game_map e) (GameEngine.CAMERA_SPEED e)
    (GameEngine.building_to_place e) (GameEngine.placement_preview e)
    (GameEngine.spawning_swordsman e) (GameEngine.win_message_shown e).

Module Scene.

(** The engine after [__init__] on a map of grass; the same, paused; the
    same with the camera far off to the right. *)
Definition start : GameEngine.t float := Scenario.fresh (fun _ _ => GRASS) (fun _ _ => 0).
Definition halted : GameEngine.t float := toggle_pause start.
Definition astray : GameEngine.t float := GameEngine.set_camera_x (nZ 5000) start.

(** An engine without entities on the 2 by 2 meadow, the camera at the
    origin, after the farm button was picked. *)
Definition farming : GameEngine.t float :=
  (start_building_placement "Farm" (empty_engine 1280 720 Scenario.meadow)).2.

End Scene.

(** * Properties *)

Section MapFacts.





Lemma get_tile_at_wf (m : GameMap.t) (x y : Z) :
  GameMap.wf m ->
  (0 <= x < GameMap.width m /\ 0 <= y < GameMap.height m /\
   exists tile, GameMap.index m x y = Ok tile /\
                GameMap.get_tile_at m x y = Ok (Some tile)) \/
  (~ (0 <= x < GameMap.width m /\ 0 <= y < GameMap.height m) /\
   GameMap.get_tile_at m x y = Ok None).
Proof.
  intros Hwf. unfold GameMap.get_tile_at.
  destruct ((0 <=? x) && (x <? GameMap.width m) && (0 <=? y) && (y <? GameMap.height m))
    eqn:E.
  - left. repeat (apply andb_prop in E; destruct E as [E ?]).
    assert (Hx : 0 <= x < GameMap.width m) by lia.
    assert (Hy : 0 <= y < GameMap.height m) by lia.
    destruct (Hwf x y Hx Hy) as (tile & Hi & _).
    repeat split; try lia. exists tile. rewrite Hi. auto.
  - right. split; [|reflexivity]. intros [Hx Hy].
    assert ((0 <=? x) && (x <? GameMap.width m) && (0 <=? y) && (y <? GameMap.height m) = true)
      by (repeat (apply andb_true_intro; split); lia).
    congruence.
Qed.

Lemma tile_ok_spec (m : GameMap.t) (tx ty : Z) :
  GameMap.wf m ->
  exists b, GameMap.tile_ok m tx ty = Ok b /\ (b = true <-> GameMap.buildable m tx ty).
Proof.
  intros Hwf. unfold GameMap.tile_ok, GameMap.buildable.
  destruct (get_tile_at_wf m tx ty Hwf) as [(Hx & Hy & tile & Hi & ->)|[Hout ->]]; cbn.
  - eexists; split; [reflexivity|].
    rewrite negb_true_iff, orb_false_iff, !bool_decide_eq_false. split.
    + intros [Hg Hb]. repeat split; try lia. exists tile. repeat split; auto.
      * destruct (Tile.tile_type tile); try reflexivity; exfalso; apply Hg; discriminate.
      * destruct (Tile.building tile); [exfalso; apply Hb; eauto | reflexivity].
    + intros (_ & _ & tile' & Hi' & Hg & Hb).
      assert (tile' = tile) as -> by congruence.
      rewrite Hg, Hb. split; [congruence | intros [? ?]; discriminate].
  - exists false. split; [reflexivity|]. split; [discriminate|].
    intros (? & ? & _). exfalso. apply Hout. lia.
Qed.

Lemma all_of_spec {A : Type} (p : A -> res bool) (P : A -> Prop) (l : list A) :
  (forall a, a ∈ l -> exists b, p a = Ok b /\ (b = true <-> P a)) ->
  exists b, GameMap.all_of p l = Ok b /\ (b = true <-> forall a, a ∈ l -> P a).
Proof.
  induction l as [|a l IH]; intros Hp; cbn.
  - exists true. split; [reflexivity|]. split; [|reflexivity].
    intros _ a Ha. inversion Ha.
  - destruct (Hp a) as (b & -> & Hb); [left|]. cbn.
    destruct b.
    + destruct IH as (b' & -> & Hb'); [intros; apply Hp; right; trivial|].
      exists b'. split; [reflexivity|]. rewrite Hb'. split.
      * intros Hl a' Ha'. apply elem_of_cons in Ha' as [->|Ha']; [apply Hb|]; auto.
      * intros Hl a' Ha'. apply Hl. right. trivial.
    + exists false. split; [reflexivity|]. split; [discriminate|].
      intros Hl. apply Hb, Hl. left.
Qed.

(** C7: on a well-formed map, [can_build_at x y w h] answers, and answers
    true exactly when every tile of the w-by-h rectangle at (x, y) is
    in bounds, GRASS and without a building. *)
Theorem can_build_at_iff (m : GameMap.t) (x y w h : Z) :
  GameMap.wf m ->
  exists b, GameMap.can_build_at m x y w h = Ok b /\
            (b = true <->
             forall tx ty, GameMap.covered x y w h tx ty -> GameMap.buildable m tx ty).
Proof.
  intros Hwf. unfold GameMap.can_build_at.
  destruct (all_of_spec
              (fun dy => GameMap.all_of (fun dx => GameMap.tile_ok m (x + dx) (y + dy))
                                        (seqZ 0 w))
              (fun dy => forall dx, dx ∈ seqZ 0 w -> GameMap.buildable m (x + dx) (y + dy))
              (seqZ 0 h)) as (b & Hb & Hiff).
  { intros dy _. apply all_of_spec. intros dx _. apply tile_ok_spec, Hwf. }
  exists b. split; [exact Hb|]. rewrite Hiff. unfold GameMap.covered. split.
  - intros Hall tx ty [Hx Hy].
    replace tx with (x + (tx - x)) by lia. replace ty with (y + (ty - y)) by lia.
    apply Hall; apply elem_of_seqZ; lia.
  - intros Hall dy Hdy dx Hdx. apply elem_of_seqZ in Hdy, Hdx. apply Hall. lia.
Qed.

(** The grid of [generate_map] is well formed. *)
Lemma generated_wf (w h : Z) (terrain : Z -> Z -> TileType) (amount : Z -> Z -> Z) :
  GameMap.wf (GameMap.generated w h terrain amount).
Proof.
  intros x y Hx Hy. cbn in Hx, Hy. unfold GameMap.index, GameMap.generated. cbn.
  rewrite list_lookup_fmap, lookup_seqZ_lt by lia. cbn.
  rewrite list_lookup_fmap, lookup_seqZ_lt by lia. cbn.
  rewrite !Z.add_0_l, !Z2Nat.id by lia.
  eexists. split; [reflexivity|]. cbn. auto.
Qed.

Lemma can_build_at_iff_witness :
  exists b, GameMap.can_build_at Scenario.meadow 0 0 2 2 = Ok b /\
            (b = true <->
             forall tx ty, GameMap.covered 0 0 2 2 tx ty ->
                           GameMap.buildable Scenario.meadow tx ty).
Proof.
  apply (can_build_at_iff Scenario.meadow 0 0 2 2). apply generated_wf.
Defined.

(** The two placements of the specification: a 2 by 2 footprint on grass,
    and one that straddles a mountain tile. *)
Example can_build_on_meadow : GameMap.can_build_at Scenario.meadow 0 0 2 2 = Ok true.
Proof. reflexivity. Qed.

Example cannot_build_on_foothill : GameMap.can_build_at Scenario.foothill 0 0 2 2 = Ok false.
Proof. reflexivity. Qed.

End MapFacts.

(** ** Reasoning about methods *)

Section MonadFacts.
Context {S : Type}.

Lemma bind_Ok {A B : Type} (m : M S A) (f : A -> M S B) (s s' : S) (b : B) :
  (m ≫= f) s = (Ok b, s') ->
  exists a s1, m s = (Ok a, s1) /\ f a s1 = (Ok b, s').
Proof.
  unfold mbind, M_bind. destruct (m s) as [[a|e] s1]; intros E; [eauto|discriminate].
Qed.

Lemma ret_Ok {A : Type} (a b : A) (s s' : S) :
  mret (M := M S) a s = (Ok b, s') -> b = a /\ s' = s.
Proof. unfold mret, M_ret. intros E. inversion E. auto. Qed.

Lemma lift_Ok {A : Type} (r : res A) (a : A) (s s' : S) :
  lift r s = (Ok a, s') -> r = Ok a /\ s' = s.
Proof. unfold lift. intros E. inversion E. auto. Qed.

Lemma modify_Ok (f : S -> S) (s s' : S) (u : unit) :
  modify f s = (Ok u, s') -> s' = f s.
Proof. unfold modify. intros E. inversion E. auto. Qed.

Lemma gets_Ok {A : Type} (f : S -> A) (a : A) (s s' : S) :
  gets f s = (Ok a, s') -> a = f s /\ s' = s.
Proof. unfold gets. intros E. inversion E. auto. Qed.

End MonadFacts.

Lemma get_unit_Ok {N : Type} (i : nat) (h h' : Heap.t N) (u : Unit.t N) :
  Heap.get_unit i h = (Ok u, h') -> Heap.units h !! i = Some u /\ h' = h.
Proof.
  unfold Heap.get_unit. destruct (Heap.units h !! i); intros E; inversion E; auto.
Qed.

Lemma get_building_Ok {N : Type} (i : nat) (h h' : Heap.t N) (b : Building.t N) :
  Heap.get_building i h = (Ok b, h') -> Heap.buildings h !! i = Some b /\ h' = h.
Proof.
  unfold Heap.get_building. destruct (Heap.buildings h !! i); intros E; inversion E; auto.
Qed.

(** Takes a hypothesis [m s = (Ok r, s')] apart, one statement at a time. *)
Ltac step_in_hyp H H1 :=
  let a := fresh "a" in
  let s1 := fresh "s" in
  apply bind_Ok in H; destruct H as (a & s1 & H1 & H).

Tactic Notation "step_in" hyp(H) "as" ident(H1) := step_in_hyp H H1.
Tactic Notation "step_in" hyp(H) "as" ident(a) ident(s) ident(H1) :=
  apply bind_Ok in H; destruct H as (a & s & H1 & H).

Ltac leaf_in_hyp H :=
  cbv beta in H;
  lazymatch type of H with
  | Heap.get_unit _ _ = _ => apply get_unit_Ok in H; destruct H as [H ->]
  | Heap.get_building _ _ = _ => apply get_building_Ok in H; destruct H as [H ->]
  | Heap.modify_unit _ _ _ = _ => unfold Heap.modify_unit in H; apply modify_Ok in H; subst
  | Heap.modify_building _ _ _ = _ =>
      unfold Heap.modify_building in H; apply modify_Ok in H; subst
  | lift _ _ = _ => apply lift_Ok in H; destruct H as [H ->]
  | mret _ _ = _ =>
      let Hv := fresh in
      let Hs := fresh in
      apply ret_Ok in H; destruct H as [Hv Hs]; try subst; try clear Hv
  | gets _ _ = _ => apply gets_Ok in H; destruct H as [-> ->]
  | modify _ _ = _ => apply modify_Ok in H; subst
  end.

Tactic Notation "leaf_in" hyp(H) := leaf_in_hyp H.

(** ** The attack scans *)

Section Scans.
Context {N : Type} `{Num N} `{Root N}.
Local Open Scope num_scope.

Variables (self : nat) (h0 : Heap.t N) (U : Unit.t N).
Hypothesis HU : Heap.units h0 !! self = Some U.

Lemma struck_snoc (done : list nat) (w : nat) :
  struck (Heap.units h0) self U (done ++ [w]) =
  match Heap.units h0 !! w with
  | Some V => if struck_back self h0 U w
              then struck (Heap.units h0) self U done - Unit.attack_damage V * nlit (5 # 100)
              else struck (Heap.units h0) self U done
  | None => struck (Heap.units h0) self U done
  end.
Proof.
  unfold struck, struck_back. rewrite foldl_app. cbn.
  destruct (Heap.units h0 !! w); reflexivity.
Qed.

Lemma after_units_static (done : list nat) (i : nat) (u : Unit.t N) :
  Unit.x (after_units self h0 U done i u) = Unit.x u /\
  Unit.y (after_units self h0 U done i u) = Unit.y u /\
  Unit.team (after_units self h0 U done i u) = Unit.team u /\
  Unit.attack_damage (after_units self h0 U done i u) = Unit.attack_damage u /\
  Unit.all_buildings (after_units self h0 U done i u) = Unit.all_buildings u /\
  Unit.speed (after_units self h0 U done i u) = Unit.speed u.
Proof. unfold after_units. destruct (decide (i = self)); cbn; auto 10. Qed.

Lemma after_units_skip (done : list nat) (w i : nat) (u : Unit.t N) :
  struck_back self h0 U w = false -> after_units self h0 U (done ++ [w]) i u = after_units self h0 U done i u.
Proof.
  intros Hsb. unfold after_units.
  rewrite existsb_app, struck_snoc, foldl_app. cbn.
  rewrite Hsb, orb_false_r, andb_false_r. destruct (Heap.units h0 !! w); reflexivity.
Qed.

Lemma after_units_self (done : list nat) (w : nat) (V : Unit.t N) :
  Heap.units h0 !! w = Some V -> struck_back self h0 U w = true ->
  after_units self h0 U (done ++ [w]) self U =
  Unit.set_target_pos None
    (Unit.set_health (Unit.health (after_units self h0 U done self U)
                      - Unit.attack_damage V * nlit (5 # 100))
                     (after_units self h0 U done self U)).
Proof.
  intros HV Hsb. unfold after_units. rewrite !decide_True by reflexivity.
  rewrite existsb_app, struck_snoc, HV, Hsb. cbn. rewrite Hsb, orb_true_r. reflexivity.
Qed.

Lemma after_units_other (done : list nat) (w : nat) (V : Unit.t N) :
  w <> self -> struck_back self h0 U w = true ->
  after_units self h0 U (done ++ [w]) w V =
  Unit.set_health (Unit.health (after_units self h0 U done w V)
                   - Unit.attack_damage U * nlit (1 # 10))
                  (after_units self h0 U done w V).
Proof.
  intros Hw Hsb. unfold after_units. rewrite !decide_False by assumption.
  rewrite foldl_app. cbn. rewrite bool_decide_true by reflexivity.
  rewrite Hsb. reflexivity.
Qed.

Lemma after_units_frame (done : list nat) (w i : nat) (u : Unit.t N) :
  i <> self -> i <> w -> after_units self h0 U (done ++ [w]) i u = after_units self h0 U done i u.
Proof.
  intros Hi Hiw. unfold after_units. rewrite !decide_False by assumption.
  rewrite foldl_app. cbn. rewrite (bool_decide_false (w = i)) by congruence.
  reflexivity.
Qed.

Lemma attack_unit_inv (done : list nat) (did did' : bool) (w : nat) (h h' : Heap.t N) :
  units_inv self h0 U done h ->
  attack_unit self did w h = (Ok did', h') ->
  units_inv self h0 U (done ++ [w]) h' /\ did' = did || struck_back self h0 U w.
Proof.
  intros (Hb & Hr & Hu) E. unfold attack_unit in E.
  assert (Hself : Heap.units h !! self = Some (after_units self h0 U done self U))
    by (rewrite Hu, HU; reflexivity).
  assert (Hskip : struck_back self h0 U w = false ->
                  units_inv self h0 U (done ++ [w]) h /\ did = did || struck_back self h0 U w).
  { intros Hsb. rewrite Hsb, orb_false_r. split; [|reflexivity].
    split; [exact Hb|]. split; [exact Hr|]. intros i.
    rewrite Hu. destruct (Heap.units h0 !! i); cbn; [|reflexivity].
    rewrite after_units_skip by assumption. reflexivity. }
  case_bool_decide as Hw.
  - (* another unit *)
    step_in E as E0. leaf_in E0. step_in E as E1. leaf_in E1.
    rewrite Hself in E0. inversion E0; subst a; clear E0.
    rewrite Hu in E1. destruct (Heap.units h0 !! w) as [V|] eqn:HV; [|discriminate].
    inversion E1; subst a0; clear E1.
    destruct (after_units_static done self U) as (Hx & Hy & Hteam & Had & _).
    destruct (after_units_static done w V) as (Hx' & Hy' & Hteam' & Had' & _).
    rewrite Hx, Hy, Hteam, Hx', Hy', Hteam' in E.
    assert (Hstat : struck_back self h0 U w = in_melee U V).
    { unfold struck_back. rewrite HV, bool_decide_true by assumption. reflexivity. }
    unfold in_melee in Hstat.
    destruct (negb (String.eqb (Unit.team V) (Unit.team U))) eqn:Ht; cbn in Hstat.
    + step_in E as E0. leaf_in E0. rewrite E0 in Hstat.
      destruct (a <? nZ 30) eqn:Hd.
      * (* struck *)
        step_in E as E1. leaf_in E1. step_in E as E2. leaf_in E2.
        step_in E as E3. leaf_in E3. leaf_in E.
        rewrite Hstat, orb_true_r. split; [|reflexivity].
        split; [exact Hb|]. split; [exact Hr|]. intros i. cbn.
        destruct (decide (i = self)) as [->|Hi].
        -- rewrite !list_lookup_alter_eq, list_lookup_alter_ne by assumption.
           rewrite Hu, HU. cbn. rewrite (after_units_self done w V) by assumption.
           rewrite Had'. reflexivity.
        -- rewrite !list_lookup_alter_ne by congruence.
           destruct (decide (i = w)) as [->|Hiw].
           ++ rewrite list_lookup_alter_eq, Hu, HV. cbn.
              rewrite (after_units_other done w V) by assumption.
              rewrite Had. reflexivity.
           ++ rewrite list_lookup_alter_ne by congruence.
              rewrite Hu. destruct (Heap.units h0 !! i); cbn; [|reflexivity].
              rewrite after_units_frame by assumption. reflexivity.
      * leaf_in E. apply Hskip. exact Hstat.
    + leaf_in E. apply Hskip. exact Hstat.
  - (* [other is self] *)
    leaf_in E. apply Hskip.
    unfold struck_back. rewrite bool_decide_false by tauto. reflexivity.
Qed.

Lemma attack_units_inv (l done : list nat) (did did' : bool) (h h' : Heap.t N) :
  units_inv self h0 U done h ->
  foldM (attack_unit self) l did h = (Ok did', h') ->
  units_inv self h0 U (done ++ l) h' /\ did' = did || existsb (struck_back self h0 U) l.
Proof.
  revert done did h. induction l as [|w l IH]; intros done did h Hinv E; cbn in E.
  - leaf_in E. rewrite app_nil_r, orb_false_r. auto.
  - step_in E as E0. destruct (attack_unit_inv _ _ _ _ _ _ Hinv E0) as [Hinv' ->].
    destruct (IH _ _ _ Hinv' E) as [Hinv'' ->].
    rewrite <- app_assoc in Hinv''. cbn in Hinv''. split; [exact Hinv''|].
    cbn. rewrite orb_assoc. reflexivity.
Qed.

Lemma after_contact_static (done : list nat) (i : nat) (u : Unit.t N) :
  Unit.x (after_contact self h0 U done i u) = Unit.x u /\
  Unit.y (after_contact self h0 U done i u) = Unit.y u /\
  Unit.team (after_contact self h0 U done i u) = Unit.team u /\
  Unit.attack_damage (after_contact self h0 U done i u) = Unit.attack_damage u /\
  Unit.health (after_contact self h0 U done i u) = Unit.health u.
Proof. unfold after_contact. destruct (_ && _); cbn; auto 10. Qed.

Lemma after_buildings_static (done : list nat) (j : nat) (B : Building.t N) :
  Building.x (after_buildings h0 U done j B) = Building.x B /\
  Building.y (after_buildings h0 U done j B) = Building.y B /\
  Building.width (after_buildings h0 U done j B) = Building.width B /\
  Building.height (after_buildings h0 U done j B) = Building.height B /\
  Building.building_type (after_buildings h0 U done j B) = Building.building_type B.
Proof. unfold after_buildings. cbn. auto 10. Qed.

Lemma attack_building_inv (done : list nat) (did did' : bool) (b : nat) (h h' : Heap.t N) :
  buildings_inv self h0 U done h ->
  attack_building self did b h = (Ok did', h') ->
  buildings_inv self h0 U (done ++ [b]) h' /\ did' = did || hit h0 U b.
Proof.
  intros (Hr & Hb & Hu) E. unfold attack_building in E.
  step_in E as E0. leaf_in E0. step_in E as E1. leaf_in E1.
  rewrite Hu, HU in E0. inversion E0; subst a; clear E0.
  rewrite Hb in E1. destruct (Heap.buildings h0 !! b) as [B|] eqn:HB; [|discriminate].
  inversion E1; subst a0; clear E1.
  destruct (after_contact_static done self U) as (Hx & Hy & Hteam & Had & _).
  destruct (after_buildings_static done b B) as (Hx' & Hy' & Hwd & Hht & Hty).
  rewrite Hx, Hy, Hteam, Hx', Hy', Hwd, Hht, Hty in E.
  assert (Hstat : hit h0 U b = in_contact U B) by (unfold hit; rewrite HB; reflexivity).
  unfold in_contact in Hstat.
  assert (Hskip : hit h0 U b = false ->
                  buildings_inv self h0 U (done ++ [b]) h /\ did = did || hit h0 U b).
  { intros Hh. rewrite Hh, orb_false_r. split; [|reflexivity].
    split; [exact Hr|]. split.
    - intros j. rewrite Hb. destruct (Heap.buildings h0 !! j); cbn; [|reflexivity].
      unfold after_buildings. rewrite foldl_app. cbn. rewrite Hh, andb_false_r. reflexivity.
    - intros i. rewrite Hu. destruct (Heap.units h0 !! i); cbn; [|reflexivity].
      unfold after_contact. rewrite existsb_app. cbn. rewrite Hh, !orb_false_r.
      reflexivity. }
  destruct (is_enemy_building (Unit.team U) (lower (Building.building_type B))) eqn:Hen;
    cbn in Hstat.
  - step_in E as E0. leaf_in E0. rewrite E0 in Hstat.
    destruct (a <=? nZ 16) eqn:Hd.
    + step_in E as E1. leaf_in E1. step_in E as E2. leaf_in E2. leaf_in E.
      rewrite Hstat, orb_true_r. split; [|reflexivity].
      split; [exact Hr|]. cbn. split.
      * intros j. destruct (decide (j = b)) as [->|Hj].
        -- rewrite list_lookup_alter_eq, Hb, HB. cbn. unfold after_buildings.
           rewrite foldl_app. cbn. rewrite bool_decide_true by reflexivity.
           rewrite Hstat, Had. reflexivity.
        -- rewrite list_lookup_alter_ne by congruence. rewrite Hb.
           destruct (Heap.buildings h0 !! j); cbn; [|reflexivity].
           unfold after_buildings. rewrite foldl_app. cbn.
           rewrite (bool_decide_false (b = j)) by congruence. reflexivity.
      * intros i. destruct (decide (i = self)) as [->|Hi].
        -- rewrite list_lookup_alter_eq, Hu, HU. cbn. unfold after_contact.
           rewrite bool_decide_true by reflexivity. rewrite existsb_app. cbn.
           rewrite Hstat, orb_true_r. cbn. destruct (existsb (hit h0 U) done); reflexivity.
        -- rewrite list_lookup_alter_ne by congruence. rewrite Hu.
           destruct (Heap.units h0 !! i); cbn; [|reflexivity].
           unfold after_contact. rewrite bool_decide_false by assumption. reflexivity.
    + leaf_in E. apply Hskip. exact Hstat.
  - leaf_in E. apply Hskip. exact Hstat.
Qed.

Lemma attack_buildings_inv (l done : list nat) (did did' : bool) (h h' : Heap.t N) :
  buildings_inv self h0 U done h ->
  foldM (attack_building self) l did h = (Ok did', h') ->
  buildings_inv self h0 U (done ++ l) h' /\ did' = did || existsb (hit h0 U) l.
Proof.
  revert done did h. induction l as [|b l IH]; intros done did h Hinv E; cbn in E.
  - leaf_in E. rewrite app_nil_r, orb_false_r. auto.
  - step_in E as E0. destruct (attack_building_inv _ _ _ _ _ _ Hinv E0) as [Hinv' ->].
    destruct (IH _ _ _ Hinv' E) as [Hinv'' ->].
    rewrite <- app_assoc in Hinv''. cbn in Hinv''. split; [exact Hinv''|].
    cbn. rewrite orb_assoc. reflexivity.
Qed.

End Scans.

(** ** The attack phase as a whole *)

Section AttackPhase.
Context {N : Type} `{Num N} `{Root N}.
Local Open Scope num_scope.

Lemma in_contact_static (U U' : Unit.t N) (B : Building.t N) :
  Unit.x U' = Unit.x U -> Unit.y U' = Unit.y U -> Unit.team U' = Unit.team U ->
  in_contact U' B = in_contact U B.
Proof. intros Hx Hy Ht. unfold in_contact. rewrite Hx, Hy, Ht. reflexivity. Qed.

Lemma units_inv_start (self : nat) (h : Heap.t N) (U : Unit.t N) :
  Heap.units h !! self = Some U -> units_inv self h U [] h.
Proof.
  intros HU. split; [reflexivity|]. split; [reflexivity|]. intros i.
  unfold after_units. cbn. destruct (decide (i = self)) as [->|Hi].
  - rewrite HU. cbn. destruct U; reflexivity.
  - destruct (Heap.units h !! i) as [u|]; cbn; [|reflexivity]. destruct u; reflexivity.
Qed.

Lemma buildings_inv_start (self : nat) (h : Heap.t N) (U : Unit.t N) :
  buildings_inv self h U [] h.
Proof.
  split; [reflexivity|]. split; intros i.
  - destruct (Heap.buildings h !! i) as [b|]; cbn; [|reflexivity].
    unfold after_buildings. cbn. destruct b; reflexivity.
  - destruct (Heap.units h !! i) as [u|]; cbn; [|reflexivity].
    unfold after_contact. cbn. rewrite andb_false_r. reflexivity.
Qed.

Lemma attack_phase_spec (self : nat) (all_units : list nat) (h h' : Heap.t N)
    (U : Unit.t N) (did : bool) :
  Heap.units h !! self = Some U ->
  attack_phase self all_units h = (Ok did, h') ->
  scanned self h U all_units h' /\
  did = existsb (struck_back self h U) all_units
        || existsb (hit h U) (Unit.all_buildings U).
Proof.
  intros HU E. unfold attack_phase in E.
  step_in E as did_u s E0.
  destruct (attack_units_inv self h U HU _ _ _ _ _ _ (units_inv_start self h U HU) E0)
    as [(Hb1 & Hr1 & Hu1) ->].
  cbn in Hu1. step_in E as U1' s1 E1. leaf_in E1.
  rewrite Hu1, HU in E1. inversion E1; subst U1'; clear E1.
  destruct (after_units_static self h U all_units self U)
    as (Hx & Hy & Hteam & Had & Hlb & _).
  rewrite Hlb in E. step_in E as did_b s2 E2. leaf_in E.
  set (U1 := after_units self h U all_units self U) in *.
  assert (HU1 : Heap.units s !! self = Some U1) by (rewrite Hu1, HU; reflexivity).
  destruct (attack_buildings_inv self s U1 HU1 _ _ _ _ _ _ (buildings_inv_start self s U1) E2)
    as [(Hr2 & Hb2 & Hu2) ->].
  cbn in Hb2, Hu2.
  assert (Hhit : forall b, hit s U1 b = hit h U b).
  { intros b. unfold hit. rewrite Hb1. destruct (Heap.buildings h !! b); [|reflexivity].
    apply in_contact_static; assumption. }
  assert (Hex : forall l, existsb (hit s U1) l = existsb (hit h U) l).
  { induction l as [|b l IH]; cbn; [reflexivity|]. rewrite Hhit, IH. reflexivity. }
  split.
  - split; [congruence|]. split.
    + intros j. rewrite Hb2, Hb1. destruct (Heap.buildings h !! j); cbn; [|reflexivity].
      unfold after_buildings. rewrite Had.
      assert (E : forall l acc,
                 foldl (fun acc b => if bool_decide (b = j) && hit s U1 b
                          then acc - Unit.attack_damage U * nlit (8 # 100) else acc) acc l =
                 foldl (fun acc b => if bool_decide (b = j) && hit h U b
                          then acc - Unit.attack_damage U * nlit (8 # 100) else acc) acc l).
      { induction l as [|b l IH]; intros acc; cbn; [reflexivity|].
        rewrite Hhit. apply IH. }
      rewrite E. reflexivity.
    + intros i. rewrite Hu2, Hu1. destruct (Heap.units h !! i); cbn; [|reflexivity].
      unfold after_contact. rewrite Hex. reflexivity.
  - cbn. rewrite Hex. reflexivity.
Qed.

Lemma after_units_none (self : nat) (h : Heap.t N) (U : Unit.t N) (l : list nat)
    (i : nat) (u : Unit.t N) :
  (i = self -> u = U) ->
  existsb (struck_back self h U) l = false -> after_units self h U l i u = u.
Proof.
  intros Hiu. induction l as [|w l IH] using rev_ind; intros Hex.
  - unfold after_units. cbn. destruct (decide (i = self)) as [Hi|Hi].
    + rewrite (Hiu Hi). destruct U; reflexivity.
    + destruct u; reflexivity.
  - rewrite existsb_app in Hex. cbn in Hex. rewrite orb_false_r in Hex.
    apply orb_false_elim in Hex as [Hl Hw].
    rewrite after_units_skip by assumption. auto.
Qed.

Lemma after_buildings_none (h : Heap.t N) (U : Unit.t N) (l : list nat)
    (j : nat) (B : Building.t N) :
  existsb (hit h U) l = false -> after_buildings h U l j B = B.
Proof.
  unfold after_buildings. intros Hex.
  assert (E : forall acc, foldl (fun acc b => if bool_decide (b = j) && hit h U b
                           then acc - Unit.attack_damage U * nlit (8 # 100) else acc)
                    acc l = acc).
  { induction l as [|b l IH]; intros acc; cbn; [reflexivity|].
    cbn in Hex. apply orb_false_elim in Hex as [Hb Hl].
    rewrite Hb, andb_false_r. auto. }
  rewrite E. destruct B; reflexivity.
Qed.

(** Without a combat event the scans leave the heap as it was. *)
Lemma attack_phase_quiet (self : nat) (all_units : list nat) (h h' : Heap.t N)
    (U : Unit.t N) :
  Heap.units h !! self = Some U ->
  attack_phase self all_units h = (Ok false, h') -> h' = h.
Proof.
  intros HU E. destruct (attack_phase_spec _ _ _ _ _ _ HU E) as [(Hr & Hb & Hu) Hdid].
  symmetry in Hdid. apply orb_false_elim in Hdid as [Hex1 Hex2].
  assert (Hunits : Heap.units h' = Heap.units h).
  { apply list_eq. intros i. rewrite Hu.
    destruct (Heap.units h !! i) as [u|] eqn:Hi; cbn; [|reflexivity].
    rewrite after_units_none; [|congruence|assumption].
    unfold after_contact. rewrite Hex2, andb_false_r. reflexivity. }
  assert (Hbuildings : Heap.buildings h' = Heap.buildings h).
  { apply list_eq. intros j. rewrite Hb.
    destruct (Heap.buildings h !! j) as [B|]; cbn; [|reflexivity].
    rewrite after_buildings_none by assumption. reflexivity. }
  destruct h, h'. cbn in *. congruence.
Qed.

End AttackPhase.

(** ** The movement phase *)

Lemma any_of_spec {S A : Type} (p : A -> M S bool) (l : list A) (s s' : S) (b : bool) :
  (forall a s r s', p a s = (r, s') -> s' = s) ->
  any_of p l s = (Ok b, s') ->
  s' = s /\ (b = true <-> exists a, a ∈ l /\ p a s = (Ok true, s)).
Proof.
  intros Hpure. revert b s'. induction l as [|a l IH]; intros b s' E; cbn in E.
  - leaf_in E. split; [reflexivity|]. split; [discriminate|].
    intros (a & Ha & _). inversion Ha.
  - step_in E as b0 s0 E0. pose proof (Hpure _ _ _ _ E0) as ->.
    destruct b0.
    + leaf_in E. split; [reflexivity|]. split; [|reflexivity].
      intros _. exists a. split; [left|assumption].
    + destruct (IH _ _ E) as [-> Hb]. split; [reflexivity|]. rewrite Hb. split.
      * intros (a' & Ha' & Hp). exists a'. split; [right|]; assumption.
      * intros (a' & Ha' & Hp). apply elem_of_cons in Ha' as [->|Ha'].
        -- rewrite E0 in Hp. discriminate.
        -- exists a'. auto.
Qed.

Section Movement.
Context {N : Type} `{Num N} `{Root N}.
Local Open Scope num_scope.

Lemma blocked_by_unit_pure (self : nat) (nx ny : N) (other : nat) (h : Heap.t N)
    (r : res bool) (h' : Heap.t N) :
  blocked_by_unit self nx ny other h = (r, h') -> h' = h.
Proof.
  unfold blocked_by_unit, mbind, M_bind, Heap.get_unit, lift, mret, M_ret.
  case_bool_decide; [|intros E; inversion E; reflexivity].
  destruct (Heap.units h !! other); [|intros E; inversion E; reflexivity].
  destruct (distance _ _ _ _); intros E; inversion E; reflexivity.
Qed.

Lemma blocked_by_building_pure (nx ny : N) (b : nat) (h : Heap.t N) (r : res bool)
    (h' : Heap.t N) :
  blocked_by_building nx ny b h = (r, h') -> h' = h.
Proof.
  unfold blocked_by_building, mbind, M_bind, Heap.get_building, lift, mret, M_ret.
  destruct (Heap.buildings h !! b); [|intros E; inversion E; reflexivity].
  destruct (rect_distance _ _ _ _ _ _); intros E; inversion E; reflexivity.
Qed.

Lemma blocked_by_unit_true (self : nat) (nx ny : N) (other : nat) (h : Heap.t N) :
  blocked_by_unit self nx ny other h = (Ok true, h) <->
  other <> self /\ exists o, Heap.units h !! other = Some o /\ too_close nx ny o = true.
Proof.
  unfold blocked_by_unit, too_close, mbind, M_bind, Heap.get_unit, lift, mret, M_ret.
  case_bool_decide as Ho.
  - destruct (Heap.units h !! other) as [o|].
    + destruct (distance nx ny (Unit.x o) (Unit.y o)) as [d|e] eqn:Hdist.
      * split.
        -- intros E. inversion E. split; [assumption|]. exists o. rewrite Hdist. auto.
        -- intros (_ & o' & Heq & Hd). inversion Heq; subst o'. rewrite Hdist in Hd.
           rewrite Hd. reflexivity.
      * split; [discriminate|]. intros (_ & o' & Heq & Hd). inversion Heq; subst o'.
        rewrite Hdist in Hd. discriminate.
    + split; [discriminate|]. intros (_ & o' & Heq & _). discriminate.
  - split; [discriminate|]. intros (Hn & _). tauto.
Qed.

Lemma blocked_by_building_true (nx ny : N) (b : nat) (h : Heap.t N) :
  blocked_by_building nx ny b h = (Ok true, h) <->
  exists B, Heap.buildings h !! b = Some B /\ touches nx ny B = true.
Proof.
  unfold blocked_by_building, touches, mbind, M_bind, Heap.get_building, lift, mret, M_ret.
  destruct (Heap.buildings h !! b) as [B|].
  - destruct (rect_distance nx ny (Building.x B) (Building.y B) (Building.width B)
                            (Building.height B)) as [d|e] eqn:Hdist.
    + split.
      * intros E. inversion E. exists B. rewrite Hdist. auto.
      * intros (B' & Heq & Hd). inversion Heq; subst B'. rewrite Hdist in Hd.
        rewrite Hd. reflexivity.
    + split; [discriminate|]. intros (B' & Heq & Hd). inversion Heq; subst B'.
      rewrite Hdist in Hd. discriminate.
  - split; [discriminate|]. intros (B' & Heq & _). discriminate.
Qed.

(** What [move] does when it returns. *)
Lemma move_spec (self : nat) (all_units : list nat) (target : N * N)
    (h h' : Heap.t N) (s : Unit.t N) :
  Heap.units h !! self = Some s ->
  move self all_units target h = (Ok tt, h') ->
  exists dist,
    distance target.1 target.2 (Unit.x s) (Unit.y s) = Ok dist /\
    (((dist >? Unit.speed s) = false /\
      h' = Heap.with_unit self (Unit.set_target_pos None) h) \/
     ((dist >? Unit.speed s) = true /\
      exists nx ny,
        next_position s target dist = Ok (nx, ny) /\
        ((blocked_at h self all_units (Unit.all_buildings s) nx ny /\
          h' = Heap.with_unit self (Unit.set_target_pos None) h) \/
         (~ blocked_at h self all_units (Unit.all_buildings s) nx ny /\
          h' = Heap.with_unit self (Unit.set_pos nx ny) h)))).
Proof.
  intros Hs E. unfold move in E.
  step_in E as s' h1 E0. leaf_in E0. rewrite Hs in E0. inversion E0; subst s'; clear E0.
  step_in E as dist h1 E0. leaf_in E0. exists dist. split; [exact E0|].
  destruct (dist >? Unit.speed s) eqn:Hgt.
  - right. split; [reflexivity|].
    step_in E as next h1 E1. leaf_in E1. destruct next as [nx ny].
    exists nx, ny. split; [exact E1|].
    step_in E as bu h1 E2.
    destruct (any_of_spec _ _ _ _ _ (blocked_by_unit_pure self nx ny) E2) as [-> Hbu].
    step_in E as bb h1 E3.
    destruct bu; cbn in E3.
    + leaf_in E3. cbn in E. leaf_in E. left. split; [|reflexivity].
      left. destruct Hbu as [Hbu _]. destruct (Hbu eq_refl) as (o & Ho & Hp).
      apply blocked_by_unit_true in Hp as (Hne & u & Hu & Hc). exists o, u. auto.
    + destruct (any_of_spec _ _ _ _ _ (blocked_by_building_pure nx ny) E3) as [-> Hbb].
      destruct bb; cbn in E; leaf_in E.
      * left. split; [|reflexivity]. right.
        destruct Hbb as [Hbb _]. destruct (Hbb eq_refl) as (b & Hb & Hp).
        apply blocked_by_building_true in Hp as (B & HB & Hc). exists b, B. auto.
      * right. split; [|reflexivity]. intros [(o & u & Ho & Hne & Hu & Hc)|(b & B & Hb & HB & Hc)].
        -- assert (false = true); [|discriminate]. apply Hbu. exists o. split; [assumption|].
           apply blocked_by_unit_true. split; [assumption|]. exists u. auto.
        -- assert (false = true); [|discriminate]. apply Hbb. exists b. split; [assumption|].
           apply blocked_by_building_true. exists B. auto.
  - left. leaf_in E. split; reflexivity.
Qed.

(** [Unit.update], phase by phase. *)
Lemma Unit_update_spec (self : nat) (all_units : list nat) (h h' : Heap.t N) :
  Unit_update self all_units h = (Ok tt, h') ->
  exists did h1 s1 h2,
    attack_phase self all_units h = (Ok did, h1) /\
    Heap.units h1 !! self = Some s1 /\
    match Unit.target_pos s1 with
    | Some target =>
        if negb did then move self all_units target h1 = (Ok tt, h2) else h2 = h1
    | None => h2 = h1
    end /\
    h' = Heap.with_unit self
           (fun s => Unit.set_health (pymax (nZ 0) (Unit.health s)) s) h2.
Proof.
  intros E. unfold Unit_update in E.
  step_in E as did h1 E0. step_in E as s1 h1' E1. leaf_in E1.
  step_in E as u h2 E2. unfold clamp_health in E. leaf_in E.
  exists did, h1, s1, h2. split; [exact E0|]. split; [exact E1|]. split; [|reflexivity].
  destruct (Unit.target_pos s1) as [target|].
  - destruct (negb did).
    + destruct u. exact E2.
    + leaf_in E2. reflexivity.
  - leaf_in E2. reflexivity.
Qed.

End Movement.

(** ** [Unit.update]: arrival, blocking, clamping *)

Section UpdateFacts.
Context {N : Type} `{Num N} `{Root N}.
Local Open Scope num_scope.

Lemma with_unit_lookup (i j : nat) (f : Unit.t N -> Unit.t N) (h : Heap.t N) :
  Heap.units (Heap.with_unit i f h) !! j =
  if decide (i = j) then f <$> Heap.units h !! j else Heap.units h !! j.
Proof.
  unfold Heap.with_unit. cbn. destruct (decide (i = j)) as [->|Hij].
  - apply list_lookup_alter_eq.
  - apply list_lookup_alter_ne. assumption.
Qed.

(** C1, as the code has it: with a destination set, no combat event and
    the destination within one step, [update] returns, leaves the unit
    where it is and unsets the destination. *)
Theorem arrival_clears_destination (self : nat) (all_units : list nat) (h : Heap.t N)
    (s : Unit.t N) (target : N * N) (dist : N) :
  Heap.units h !! self = Some s ->
  Unit.target_pos s = Some target ->
  (attack_phase self all_units h).1 = Ok false ->
  distance target.1 target.2 (Unit.x s) (Unit.y s) = Ok dist ->
  (dist >? Unit.speed s) = false ->
  exists h' s',
    Unit_update self all_units h = (Ok tt, h') /\
    Heap.units h' !! self = Some s' /\
    Unit.x s' = Unit.x s /\ Unit.y s' = Unit.y s /\ Unit.target_pos s' = None.
Proof.
  intros Hs Ht Hquiet Hdist Hle.
  destruct (attack_phase self all_units h) as [r h1] eqn:Ha. cbn in Hquiet. subst r.
  pose proof (attack_phase_quiet _ _ _ _ _ Hs Ha) as ->.
  eexists _, _. split; [|split].
  - unfold Unit_update, mbind, M_bind. rewrite Ha.
    unfold Heap.get_unit at 1. rewrite Hs, Ht. cbn.
    unfold move, mbind, M_bind, Heap.get_unit, lift. rewrite Hs, Hdist, Hle.
    unfold Heap.modify_unit, modify, clamp_health, Heap.modify_unit, modify. reflexivity.
  - cbn. rewrite !list_lookup_alter_eq, Hs. reflexivity.
  - cbn. auto.
Qed.

(** C3: with a destination set, no combat event and the destination more
    than one step away, the candidate position is the current position
    plus [speed] times the unit vector toward the destination:
    [x + (target_x - x) / dist * speed], [y + (target_y - y) / dist * speed].
    It is this point that is tested against every other unit of the roster
    (minimum separation 28) and every building of the context (contact
    radius 16).  If it is blocked the unit stays where it is and loses its
    destination; otherwise it moves onto it and keeps its destination. *)
Theorem blocked_move_gives_up (self : nat) (all_units : list nat) (h h' : Heap.t N)
    (s : Unit.t N) (target : N * N) (dist qx qy : N) :
  Heap.units h !! self = Some s ->
  Unit.target_pos s = Some target ->
  (attack_phase self all_units h).1 = Ok false ->
  distance target.1 target.2 (Unit.x s) (Unit.y s) = Ok dist ->
  (dist >? Unit.speed s) = true ->
  ndiv (target.1 - Unit.x s) dist = Ok qx ->
  ndiv (target.2 - Unit.y s) dist = Ok qy ->
  Unit_update self all_units h = (Ok tt, h') ->
  let next_x := Unit.x s + qx * Unit.speed s in
  let next_y := Unit.y s + qy * Unit.speed s in
  exists s',
    Heap.units h' !! self = Some s' /\
    (blocked_at h self all_units (Unit.all_buildings s) next_x next_y ->
     Unit.x s' = Unit.x s /\ Unit.y s' = Unit.y s /\ Unit.target_pos s' = None) /\
    (~ blocked_at h self all_units (Unit.all_buildings s) next_x next_y ->
     Unit.x s' = next_x /\ Unit.y s' = next_y /\ Unit.target_pos s' = Some target).
Proof.
  intros Hs Ht Hquiet Hdist Hgt Hqx Hqy E. cbv zeta.
  assert (Hnext : next_position s target dist
                  = Ok (Unit.x s + qx * Unit.speed s, Unit.y s + qy * Unit.speed s)).
  { unfold next_position. rewrite Hqx. cbn. rewrite Hqy. reflexivity. }
  destruct (Unit_update_spec _ _ _ _ E) as (did & h1 & s1 & h2 & Ha & Hs1 & Hmv & ->).
  rewrite Ha in Hquiet. cbn in Hquiet. inversion Hquiet; subst did; clear Hquiet.
  pose proof (attack_phase_quiet _ _ _ _ _ Hs Ha) as ->.
  rewrite Hs in Hs1. inversion Hs1; subst s1; clear Hs1.
  rewrite Ht in Hmv. cbn in Hmv.
  destruct (move_spec _ _ _ _ _ _ Hs Hmv) as (dist' & Hdist' & Hcases).
  rewrite Hdist in Hdist'. inversion Hdist'; subst dist'; clear Hdist'.
  destruct Hcases as [[Hle _]|(_ & nx & ny & Hnext' & Hcases)]; [congruence|].
  rewrite Hnext in Hnext'. inversion Hnext'; subst nx ny; clear Hnext'.
  destruct Hcases as [[Hbl ->]|[Hfree ->]].
  - eexists. split.
    + rewrite !with_unit_lookup, !decide_True, Hs by reflexivity. reflexivity.
    + cbn. split; [auto|]. intros Hn. contradiction.
  - eexists. split.
    + rewrite !with_unit_lookup, !decide_True, Hs by reflexivity. reflexivity.
    + cbn. split; [intros Hb; contradiction|]. auto.
Qed.

Lemma pymax_zero_nonneg `{!NumOrder N} (a : N) : (nZ 0 <=? pymax (nZ 0) a) = true.
Proof.
  unfold pymax, ngt. destruct (nZ 0 <? a) eqn:E.
  - apply nlt_nle. exact E.
  - apply nle_zero.
Qed.

(** C9: when [update] returns, the health of the unit it was called on
    is at least zero: it is [max(0, .)] of whatever the scans left. *)
Theorem health_clamped `{!NumOrder N} (self : nat) (all_units : list nat)
    (h h' : Heap.t N) :
  Unit_update self all_units h = (Ok tt, h') ->
  exists s', Heap.units h' !! self = Some s' /\ (nZ 0 <=? Unit.health s') = true.
Proof.
  intros E.
  destruct (Unit_update_spec _ _ _ _ E) as (did & h1 & s1 & h2 & Ha & Hs1 & Hmv & ->).
  assert (Hs2 : exists s2, Heap.units h2 !! self = Some s2).
  { destruct (Unit.target_pos s1) as [target|]; [|subst h2; eauto].
    destruct (negb did); [|subst h2; eauto].
    destruct (move_spec _ _ _ _ _ _ Hs1 Hmv) as (dist & _ & Hcases).
    destruct Hcases as [[_ ->]|(_ & nx & ny & _ & [[_ ->]|[_ ->]])];
      rewrite with_unit_lookup, decide_True, Hs1 by reflexivity; cbn; eauto. }
  destruct Hs2 as [s2 Hs2]. eexists. split.
  - rewrite with_unit_lookup, decide_True, Hs2 by reflexivity. reflexivity.
  - cbn. apply pymax_zero_nonneg.
Qed.

End UpdateFacts.

(** ** [Unit.update]: combat *)

Section CombatFacts.
Context {N : Type} `{Num N} `{Root N}.
Local Open Scope num_scope.

Lemma foldl_once {A : Type} `{EqDecision A} (g : N -> N) (p : A -> bool) (v : A)
    (l : list A) (acc : N) :
  NoDup l -> v ∈ l -> p v = true ->
  foldl (fun acc w => if bool_decide (w = v) && p w then g acc else acc) acc l = g acc.
Proof.
  intros Hnd. revert acc. induction Hnd as [|w l Hw Hnd IH]; intros acc Hin Hp.
  - inversion Hin.
  - cbn. apply elem_of_cons in Hin as [->|Hin].
    + rewrite bool_decide_true, Hp by reflexivity. cbn.
      clear IH. induction l as [|w' l IH]; cbn; [reflexivity|].
      rewrite bool_decide_false.
      * cbn. apply IH.
        -- intros Hv. apply Hw. right. assumption.
        -- inversion Hnd; assumption.
      * intros ->. apply Hw. left.
    + rewrite bool_decide_false by (intros ->; contradiction). cbn. apply IH; assumption.
Qed.

Lemma existsb_elem {A : Type} (p : A -> bool) (l : list A) (v : A) :
  v ∈ l -> p v = true -> existsb p l = true.
Proof.
  intros Hin Hp. apply existsb_exists. exists v. split; [|assumption].
  apply list_elem_of_In. assumption.
Qed.

(** The heap that [update] leaves is the scanned heap, possibly with
    [self] moved or stopped, with the health of [self] clamped. *)
Lemma Unit_update_scanned (self : nat) (all_units : list nat) (h h' : Heap.t N)
    (U : Unit.t N) :
  Heap.units h !! self = Some U ->
  Unit_update self all_units h = (Ok tt, h') ->
  exists h1 f,
    scanned self h U all_units h1 /\
    (forall u, Unit.health (f u) = Unit.health u /\ Unit.team (f u) = Unit.team u /\
               Unit.attack_damage (f u) = Unit.attack_damage u) /\
    (existsb (struck_back self h U) all_units || existsb (hit h U) (Unit.all_buildings U)
     = true -> forall u, f u = u) /\
    h' = Heap.with_unit self
           (fun s => Unit.set_health (pymax (nZ 0) (Unit.health s)) s)
           (Heap.with_unit self f h1).
Proof.
  intros HU E.
  destruct (Unit_update_spec _ _ _ _ E) as (did & h1 & s1 & h2 & Ha & Hs1 & Hmv & ->).
  destruct (attack_phase_spec _ _ _ _ _ _ HU Ha) as [Hsc Hdid].
  exists h1.
  assert (Hid : Heap.with_unit self (fun u => u) h1 = h1).
  { unfold Heap.with_unit. rewrite list_alter_id by reflexivity.
    destruct h1; reflexivity. }
  assert (Hquiet : h2 = h1 -> exists f,
             scanned self h U all_units h1 /\
             (forall u, Unit.health (f u) = Unit.health u /\
                        Unit.team (f u) = Unit.team u /\
                        Unit.attack_damage (f u) = Unit.attack_damage u) /\
             (existsb (struck_back self h U) all_units
              || existsb (hit h U) (Unit.all_buildings U) = true -> forall u, f u = u) /\
             Heap.with_unit self
               (fun s => Unit.set_health (pymax (nZ 0) (Unit.health s)) s) h2 =
             Heap.with_unit self
               (fun s => Unit.set_health (pymax (nZ 0) (Unit.health s)) s)
               (Heap.with_unit self f h1)).
  { intros ->. exists (fun u => u). rewrite Hid. auto. }
  destruct (Unit.target_pos s1) as [target|]; [|auto].
  destruct did; cbn in Hmv; [auto|].
  destruct (move_spec _ _ _ _ _ _ Hs1 Hmv) as (dist & _ & Hcases).
  rewrite <- Hdid.
  destruct Hcases as [[_ ->]|(_ & nx & ny & _ & [[_ ->]|[_ ->]])];
    eexists; (split; [exact Hsc|]); (split; [|split; [discriminate|reflexivity]]);
    intros u; auto.
Qed.

Lemma in_melee_static (U U' V V' : Unit.t N) :
  Unit.x U' = Unit.x U -> Unit.y U' = Unit.y U -> Unit.team U' = Unit.team U ->
  Unit.x V' = Unit.x V -> Unit.y V' = Unit.y V -> Unit.team V' = Unit.team V ->
  in_melee U' V' = in_melee U V.
Proof.
  intros Hx Hy Ht Hx' Hy' Ht'. unfold in_melee. rewrite Hx, Hy, Ht, Hx', Hy', Ht'.
  reflexivity.
Qed.

(** One [update], seen from the roster: what is left of [self], of the
    opponents it struck, and what no [update] changes. *)
Lemma melee_once (self : nat) (all_units : list nat) (h h' : Heap.t N) (U : Unit.t N) :
  Heap.units h !! self = Some U ->
  NoDup all_units ->
  Unit_update self all_units h = (Ok tt, h') ->
  (exists U', Heap.units h' !! self = Some U' /\
              Unit.health U' = pymax (nZ 0) (struck (Heap.units h) self U all_units)) /\
  (forall v V,
     v ∈ all_units -> v <> self -> Heap.units h !! v = Some V -> in_melee U V = true ->
     (exists V', Heap.units h' !! v = Some V' /\
                 Unit.health V' = Unit.health V - Unit.attack_damage U * nlit (1 # 10)) /\
     (exists U', Heap.units h' !! self = Some U' /\ Unit.target_pos U' = None /\
                 Unit.x U' = Unit.x U /\ Unit.y U' = Unit.y U)) /\
  (forall i u, Heap.units h !! i = Some u ->
     exists u', Heap.units h' !! i = Some u' /\
                Unit.team u' = Unit.team u /\
                Unit.attack_damage u' = Unit.attack_damage u /\
                (i <> self -> Unit.x u' = Unit.x u /\ Unit.y u' = Unit.y u)).
Proof.
  intros HU Hnd E.
  destruct (Unit_update_scanned _ _ _ _ _ HU E) as (h1 & f & (_ & _ & Hu) & Hf & Hfid & ->).
  assert (Hself : Heap.units h1 !! self =
                  Some (after_contact self h U (Unit.all_buildings U) self
                          (after_units self h U all_units self U)))
    by (rewrite Hu, HU; reflexivity).
  split; [|split].
  - eexists. split.
    + rewrite !with_unit_lookup, !decide_True, Hself by reflexivity. reflexivity.
    + cbn. destruct (Hf (after_contact self h U (Unit.all_buildings U) self
                           (after_units self h U all_units self U))) as (-> & _).
      f_equal.
      destruct (after_contact_static self h U (Unit.all_buildings U) self
                  (after_units self h U all_units self U)) as (_ & _ & _ & _ & ->).
      unfold after_units. rewrite decide_True by reflexivity. reflexivity.
  - intros v V Hin Hv HV Hmelee.
    assert (Hsb : struck_back self h U v = true).
    { unfold struck_back. rewrite HV, bool_decide_true by assumption. exact Hmelee. }
    assert (Hex : existsb (struck_back self h U) all_units = true)
      by (eapply existsb_elem; eassumption).
    split.
    + eexists. split.
      * rewrite !with_unit_lookup, !decide_False by congruence. rewrite Hu, HV. reflexivity.
      * unfold after_contact. rewrite bool_decide_false by assumption. cbn.
        unfold after_units. rewrite decide_False by assumption. cbn.
        apply (foldl_once (fun acc => acc - Unit.attack_damage U * nlit (1 # 10))
                          (struck_back self h U)); assumption.
    + eexists. split.
      * rewrite !with_unit_lookup, !decide_True, Hself by reflexivity. reflexivity.
      * cbn. rewrite Hfid by (rewrite Hex; reflexivity).
        destruct (after_contact_static self h U (Unit.all_buildings U) self
                    (after_units self h U all_units self U)) as (-> & -> & _).
        destruct (after_units_static self h U all_units self U) as (-> & -> & _).
        split; [|auto].
        unfold after_contact, after_units. rewrite decide_True by reflexivity.
        rewrite Hex. destruct (_ && _); reflexivity.
  - intros i u Hi.
    destruct (after_contact_static self h U (Unit.all_buildings U) i
                (after_units self h U all_units i u)) as (Hx & Hy & Ht & Ha & _).
    destruct (after_units_static self h U all_units i u) as (Hx' & Hy' & Ht' & Ha' & _).
    destruct (decide (i = self)) as [->|Hne].
    + eexists. split.
      * rewrite !with_unit_lookup, !decide_True, Hu, Hi by reflexivity. reflexivity.
      * cbn. destruct (Hf (after_contact self h U (Unit.all_buildings U) self
                             (after_units self h U all_units self u))) as (_ & -> & ->).
        split; [congruence|]. split; [congruence|]. intros Hn. contradiction.
    + eexists. split.
      * rewrite !with_unit_lookup, !decide_False, Hu, Hi by congruence. reflexivity.
      * cbn. split; [congruence|]. split; [congruence|]. intros _. split; congruence.
Qed.

(** C2: when [update] of the unit [U] at [self] returns, on a roster
    without repetition: the health of [U] is what is left after losing
    [V.attack_damage * 0.05] for every opponent [V] of the roster closer
    than 30, clamped at zero; every such [V] has lost
    [U.attack_damage * 0.1]; and if there is one, the destination of [U]
    is unset.  When such a [V] is updated next and sees [U] as close, [U]
    in turn loses [V.attack_damage * 0.1]: both lose health in the tick,
    each by a multiple of the other's attack damage. *)
Theorem melee_exchange (self : nat) (all_units : list nat) (h h' : Heap.t N)
    (U : Unit.t N) :
  Heap.units h !! self = Some U ->
  NoDup all_units ->
  Unit_update self all_units h = (Ok tt, h') ->
  (exists U', Heap.units h' !! self = Some U' /\
              Unit.health U' = pymax (nZ 0) (struck (Heap.units h) self U all_units)) /\
  forall v V,
    v ∈ all_units -> v <> self -> Heap.units h !! v = Some V -> in_melee U V = true ->
    (exists V', Heap.units h' !! v = Some V' /\
                Unit.health V' = Unit.health V - Unit.attack_damage U * nlit (1 # 10)) /\
    (exists U', Heap.units h' !! self = Some U' /\ Unit.target_pos U' = None) /\
    forall h'',
      self ∈ all_units -> in_melee V U = true ->
      Unit_update v all_units h' = (Ok tt, h'') ->
      exists U' U'', Heap.units h' !! self = Some U' /\
                     Heap.units h'' !! self = Some U'' /\
                     Unit.health U'' = Unit.health U' - Unit.attack_damage V * nlit (1 # 10).
Proof.
  intros HU Hnd E.
  destruct (melee_once _ _ _ _ _ HU Hnd E) as (Hself & Hstruck & Hstatic).
  split; [exact Hself|]. intros v V Hin Hv HV Hmelee.
  destruct (Hstruck v V Hin Hv HV Hmelee) as ((V' & HV' & Hh) & (U' & HU' & Ht & Hx & Hy)).
  split; [eauto|]. split; [eauto|].
  intros h'' Hin' Hback E'.
  destruct (Hstatic self U HU) as (U1 & HU1 & Hteam & Had & _).
  assert (U1 = U') as -> by congruence.
  destruct (Hstatic v V HV) as (V1 & HV1 & Hteam' & Had' & Hpos').
  assert (V1 = V') as -> by congruence.
  destruct (Hpos' Hv) as [Hx' Hy'].
  destruct (melee_once _ _ _ _ _ HV' Hnd E') as (_ & Hstruck' & _).
  destruct (Hstruck' self U') as ((U'' & HU'' & Hh'') & _); auto.
  - rewrite <- Hback. apply in_melee_static; assumption.
  - exists U', U''. rewrite Hh'', Had'. auto.
Qed.

(** The naming rule on the types of the game, in any letter case. *)
Example hostility_by_name :
  is_enemy_building "player" (lower "EnemyStonekeep") = true /\
  is_enemy_building "player" (lower "Stockpile") = false /\
  is_enemy_building "enemy" (lower "Stockpile") = true /\
  is_enemy_building "enemy" (lower "ENEMYSTONEKEEP") = false /\
  is_enemy_building "neutral" (lower "Stockpile") = false.
Proof. repeat split; reflexivity. Qed.

(** C4: a building is hostile to [U] exactly when [U] is of team "player"
    and the lowercased type name contains "enemy", or [U] is of team
    "enemy" and it does not.  When [update] of [U] returns, every hostile
    building of its context (without repetition) whose rectangle, at the
    point obtained by clamping the position of [U] into it axis by axis,
    is within 16 of [U] has lost [U.attack_damage * 0.08], and the
    destination of [U] is unset. *)
Theorem building_attack (self : nat) (all_units : list nat) (h h' : Heap.t N)
    (U : Unit.t N) :
  Heap.units h !! self = Some U ->
  NoDup (Unit.all_buildings U) ->
  Unit_update self all_units h = (Ok tt, h') ->
  forall b B,
    b ∈ Unit.all_buildings U -> Heap.buildings h !! b = Some B ->
    let btype := lower (Building.building_type B) in
    let closest_x := pymin (pymax (Unit.x U) (Building.x B))
                           (Building.x B + Building.width B) in
    let closest_y := pymin (pymax (Unit.y U) (Building.y B))
                           (Building.y B + Building.height B) in
    (is_enemy_building (Unit.team U) btype = true <->
     (Unit.team U = "player"%string /\ contains "enemy" btype = true) \/
     (Unit.team U = "enemy"%string /\ contains "enemy" btype = false)) /\
    forall dist,
      is_enemy_building (Unit.team U) btype = true ->
      distance (Unit.x U) (Unit.y U) closest_x closest_y = Ok dist ->
      (dist <=? nZ 16) = true ->
      (exists B', Heap.buildings h' !! b = Some B' /\
                  Building.health B' =
                  Building.health B - Unit.attack_damage U * nlit (8 # 100)) /\
      (exists U', Heap.units h' !! self = Some U' /\ Unit.target_pos U' = None).
Proof.
  intros HU Hnd E b B Hin HB btype cx cy. split.
  - unfold is_enemy_building.
    destruct (String.eqb_spec (Unit.team U) "player") as [Hp|Hp];
      destruct (String.eqb_spec (Unit.team U) "enemy") as [He|He];
      destruct (contains "enemy" btype); cbn; split; intros Hyp;
      try reflexivity; try discriminate; try tauto;
      try (destruct Hyp as [[? ?]|[? ?]]; congruence).
  - intros dist Hen Hdist Hle.
    destruct (Unit_update_scanned _ _ _ _ _ HU E)
      as (h1 & f & (_ & Hb & Hu) & Hf & Hfid & ->).
    assert (Hhit : hit h U b = true).
    { unfold hit, in_contact. rewrite HB. fold btype. rewrite Hen. cbn.
      unfold rect_distance. fold cx cy. rewrite Hdist. exact Hle. }
    assert (Hex : existsb (hit h U) (Unit.all_buildings U) = true)
      by (eapply existsb_elem; eassumption).
    split.
    + eexists. split.
      * cbn. rewrite Hb, HB. reflexivity.
      * unfold after_buildings. cbn.
        apply (foldl_once (fun acc => acc - Unit.attack_damage U * nlit (8 # 100))
                          (hit h U)); assumption.
    + eexists. split.
      * rewrite !with_unit_lookup, !decide_True, Hu, HU by reflexivity. reflexivity.
      * cbn. rewrite Hfid by (rewrite Hex, orb_true_r; reflexivity).
        unfold after_contact. rewrite bool_decide_true, Hex by reflexivity. reflexivity.
Qed.

End CombatFacts.

(** ** The laws of the order, on both number types *)

#[global] Instance float_NumOrder : NumOrder float.
Proof.
  split.
  - intros a b. cbn. rewrite ltb_spec, leb_spec. unfold SFltb, SFleb.
    destruct (SFcompare _ _) as [[]|]; congruence.
  - vm_compute. reflexivity.
Qed.

(** ** The properties at concrete inputs *)

(** Closes a decidable goal about concrete lists by evaluation. *)
Ltac by_decision := refine (bool_decide_unpack _ _); vm_compute; exact I.

Section Witnesses.
Import Scenario.

Lemma arrival_clears_destination_witness :
  exists h' s',
    Unit_update 0 [0%nat] arriving = (Ok tt, h') /\
    Heap.units h' !! 0%nat = Some s' /\
    Unit.x s' = nZ 0 /\ Unit.y s' = nZ 0 /\ Unit.target_pos s' = None.
Proof.
  apply (arrival_clears_destination 0 [0%nat] arriving
           (Unit.move_to (nZ 1, nZ 0) (swordsman 0 0 "player")) (nZ 1, nZ 0) (nZ 1));
    vm_compute; reflexivity.
Defined.

(** C1 as stated fails: the unit below is one pixel from its destination
    and moves two per tick, no combat takes place, and after [update] it
    has lost its destination without having moved onto it. *)
Lemma arrival_does_not_reach_destination :
  let u := Unit.move_to (nZ 1, nZ 0) (swordsman 0 0 "player") in
  Heap.units arriving !! 0%nat = Some u /\
  (attack_phase 0 [0%nat] arriving).1 = Ok false /\
  (exists dist, distance (nZ 1) (nZ 0) (Unit.x u) (Unit.y u) = Ok dist /\
                (dist <=? Unit.speed u)%num = true) /\
  exists h' s',
    Unit_update 0 [0%nat] arriving = (Ok tt, h') /\
    Heap.units h' !! 0%nat = Some s' /\
    Unit.target_pos s' = None /\
    (Unit.x s' =? nZ 1)%num = false.
Proof.
  cbv zeta. split; [reflexivity|]. split; [vm_compute; reflexivity|]. split.
  - exists (nZ 1). split; vm_compute; reflexivity.
  - eexists _, _. split; [vm_compute; reflexivity|].
    split; [reflexivity|]. split; vm_compute; reflexivity.
Qed.

(** The unit of [walled] stands 17 pixels from the wall of its keep,
    clear of it; one step of 2 pixels toward its destination would bring
    it to 15 pixels, inside the contact radius: the step is dropped.  The
    unit of [marching] has nothing in the way and steps from (0, 0) onto
    (2, 0). *)
Lemma blocked_move_gives_up_witness :
  (~ blocked_at walled 0 [0%nat] [0%nat] (nZ (-8)) (nZ 50) /\
   blocked_at walled 0 [0%nat] [0%nat] (nZ (-6)) (nZ 50) /\
   exists s',
     Heap.units (Unit_update 0 [0%nat] walled).2 !! 0%nat = Some s' /\
     Unit.x s' = nZ (-8) /\ Unit.y s' = nZ 50 /\ Unit.target_pos s' = None) /\
  (exists s',
     Heap.units (Unit_update 0 [0%nat] marching).2 !! 0%nat = Some s' /\
     Unit.x s' = nZ 2 /\ Unit.y s' = nZ 0 /\
     Unit.target_pos s' = Some (nZ 100, nZ 0)).
Proof.
  assert (Hwall : blocked_at walled 0 [0%nat] [0%nat] (nZ (-6)) (nZ 50)).
  { right. exists 0%nat, (Building.init (N := float) (nZ 9) (nZ 13) "Stonekeep" false).
    split; [by_decision|]. split; vm_compute; reflexivity. }
  split; [split; [|split; [exact Hwall|]]|].
  - intros [(other & o & Hin & Hne & _)|(b & B & Hin & HB & Htouch)].
    + apply list_elem_of_singleton in Hin. contradiction.
    + apply list_elem_of_singleton in Hin. subst b.
      vm_compute in HB. inversion HB; subst B. vm_compute in Htouch. discriminate.
  - destruct (blocked_move_gives_up 0 [0%nat] walled (Unit_update 0 [0%nat] walled).2
                (Unit.set_all_buildings [0%nat]
                   (Unit.move_to (nZ 100, nZ 50) (swordsman (-8) 50 "player")))
                (nZ 100, nZ 50) (nZ 108) (nZ 1) (nZ 0))
      as (s' & Hs' & Hblocked & _); try (vm_compute; reflexivity).
    exists s'. split; [exact Hs'|].
    destruct Hblocked as (Hx & Hy & Ht).
    + replace (_ + _ * _)%num with (nZ (N := float) (-6)) by (vm_compute; reflexivity).
      replace (_ + _ * _)%num with (nZ (N := float) 50) by (vm_compute; reflexivity).
      exact Hwall.
    + rewrite Hx, Hy, Ht. split; [|split]; vm_compute; reflexivity.
  - destruct (blocked_move_gives_up 0 [0%nat] marching (Unit_update 0 [0%nat] marching).2
                (Unit.move_to (nZ 100, nZ 0) (swordsman 0 0 "player"))
                (nZ 100, nZ 0) (nZ 100) (nZ 1) (nZ 0))
      as (s' & Hs' & _ & Hfree); try (vm_compute; reflexivity).
    exists s'. split; [exact Hs'|].
    destruct Hfree as (Hx & Hy & Ht).
    + intros [(other & o & Hin & Hne & _)|(b & B & Hin & _)].
      * apply list_elem_of_singleton in Hin. contradiction.
      * cbn in Hin. inversion Hin.
    + rewrite Hx, Hy, Ht. split; [|split]; vm_compute; reflexivity.
Defined.

(** The two outcomes of a step, evaluated: nothing in the way, and a
    building in the way. *)
Example free_step_is_taken :
  (fun s => (Unit.x s, Unit.y s, Unit.target_pos s))
    <$> Heap.units (Unit_update 0 [0%nat] marching).2 !! 0%nat
  = Some (nZ 2, nZ 0, Some (nZ 100, nZ 0)).
Proof. vm_compute. reflexivity. Qed.

Example step_into_a_wall_is_dropped :
  (fun s => (Unit.x s, Unit.y s, Unit.target_pos s))
    <$> Heap.units (Unit_update 0 [0%nat] walled).2 !! 0%nat
  = Some (nZ (-8), nZ 50, None).
Proof. vm_compute. reflexivity. Qed.

Lemma health_clamped_witness :
  exists s',
    Heap.units (Unit_update 0 [0%nat; 1%nat] overkill).2 !! 0%nat = Some s' /\
    (nZ 0 <=? Unit.health s')%num = true /\ Unit.health s' = nZ 0.
Proof.
  destruct (health_clamped 0 [0%nat; 1%nat] overkill
              (Unit_update 0 [0%nat; 1%nat] overkill).2) as (s' & Hs' & Hle).
  - vm_compute. reflexivity.
  - exists s'. split; [exact Hs'|]. split; [exact Hle|].
    vm_compute in Hs'. inversion Hs'. vm_compute. reflexivity.
Defined.

(** The example of the specification: health 5, 1000 damage, health 0. *)
Example overkill_leaves_zero :
  Unit.health <$> Heap.units overkill !! 0%nat = Some (nZ 5) /\
  struck (Heap.units overkill) 0 (fighter 0 0 "player" 5 10) [0%nat; 1%nat] = nZ (-995) /\
  Unit.health <$> Heap.units (Unit_update 0 [0%nat; 1%nat] overkill).2 !! 0%nat
  = Some (nZ 0).
Proof. repeat split; vm_compute; reflexivity. Qed.

Lemma melee_exchange_witness :
  let h' := (Unit_update 0 [0%nat; 1%nat] duel).2 in
  let h'' := (Unit_update 1 [0%nat; 1%nat] h').2 in
  (exists U', Heap.units h' !! 0%nat = Some U' /\ Unit.health U' = nlit (995 # 10)) /\
  (exists V', Heap.units h' !! 1%nat = Some V' /\ Unit.health V' = nZ 99) /\
  (exists U'', Heap.units h'' !! 0%nat = Some U'' /\ Unit.health U'' = nlit (985 # 10)).
Proof.
  cbv zeta.
  destruct (melee_exchange 0 [0%nat; 1%nat] duel (Unit_update 0 [0%nat; 1%nat] duel).2
              (swordsman 0 0 "player")) as [(U' & HU' & Hh) Hothers].
  - reflexivity.
  - by_decision.
  - vm_compute. reflexivity.
  - destruct (Hothers 1%nat (swordsman 10 0 "enemy"))
      as ((V' & HV' & Hv) & _ & Hnext).
    + by_decision.
    + discriminate.
    + reflexivity.
    + vm_compute. reflexivity.
    + split; [|split].
      * exists U'. split; [exact HU'|]. rewrite Hh. vm_compute. reflexivity.
      * exists V'. split; [exact HV'|]. rewrite Hv. vm_compute. reflexivity.
      * destruct (Hnext (Unit_update 1 [0%nat; 1%nat]
                           (Unit_update 0 [0%nat; 1%nat] duel).2).2)
          as (U1 & U'' & HU1 & HU'' & Hh'').
        -- by_decision.
        -- vm_compute. reflexivity.
        -- vm_compute. reflexivity.
        -- exists U''. split; [exact HU''|]. rewrite Hh''.
           assert (U1 = U') as -> by congruence. rewrite Hh. vm_compute. reflexivity.
Defined.

Lemma building_attack_witness :
  (exists B', Heap.buildings (Unit_update 0 [0%nat] siege).2 !! 0%nat = Some B' /\
              Building.health B' = nlit (992 # 10)) /\
  (exists U', Heap.units (Unit_update 0 [0%nat] siege).2 !! 0%nat = Some U' /\
              Unit.target_pos U' = None).
Proof.
  destruct (building_attack 0 [0%nat] siege (Unit_update 0 [0%nat] siege).2
              (Unit.set_all_buildings [0%nat]
                 (Unit.move_to (nZ 300, nZ 300) (swordsman 96 48 "player"))))
    with (b := 0%nat) (B := Building.init (N := float) (nZ 65) (nZ 5) "EnemyStonekeep" false)
    as [_ Heffect].
  - reflexivity.
  - by_decision.
  - vm_compute. reflexivity.
  - by_decision.
  - reflexivity.
  - destruct (Heffect (nZ 0)) as [(B' & HB' & Hh) HU']; try (vm_compute; reflexivity).
    split; [|exact HU'].
    exists B'. split; [exact HB'|]. rewrite Hh. vm_compute. reflexivity.
Defined.

End Witnesses.

(** ** The driver *)

Section DriverFacts.
Context {N : Type} `{Num N} `{Root N}.
Local Open Scope num_scope.

Abbreviation Engine := (GameEngine.t N).
Abbreviation won := GameEngine.win_message_shown.

Lemma keeps_win_ret {A : Type} (a : A) : keeps_win (mret a : M Engine A).
Proof. intros e. reflexivity. Qed.

Lemma keeps_win_lift {A : Type} (r : res A) : keeps_win (lift r : M Engine A).
Proof. intros e. reflexivity. Qed.

Lemma keeps_win_gets {A : Type} (f : Engine -> A) : keeps_win (gets f).
Proof. intros e. reflexivity. Qed.

Lemma keeps_win_modify (f : Engine -> Engine) :
  (forall e, won (f e) = won e) -> keeps_win (modify f).
Proof. intros Hf e. apply Hf. Qed.

Lemma keeps_win_bind {A B : Type} (m : M Engine A) (f : A -> M Engine B) :
  keeps_win m -> (forall a, keeps_win (f a)) -> keeps_win (m ≫= f).
Proof.
  intros Hm Hf e. unfold mbind, M_bind. specialize (Hm e).
  destruct (m e) as [[a|x] e1]; cbn in *.
  - rewrite Hf. exact Hm.
  - exact Hm.
Qed.

Lemma keeps_win_with_heap {A : Type} (m : M (Heap.t N) A) :
  keeps_win (GameEngine.with_heap m).
Proof.
  intros e. unfold GameEngine.with_heap. destruct (m (GameEngine.heap e)). reflexivity.
Qed.

Lemma keeps_win_catch {A : Type} (m : M Engine A) : keeps_win m -> keeps_win (catch m).
Proof. intros Hm e. apply Hm. Qed.

Lemma keeps_win_if {A : Type} (b : bool) (m1 m2 : M Engine A) :
  keeps_win m1 -> keeps_win m2 -> keeps_win (if b then m1 else m2).
Proof. destruct b; auto. Qed.

Lemma foldl_won {A : Type} (f : Engine -> A -> Engine) (l : list A) (e : Engine) :
  (forall e a, won (f e a) = won e) -> won (foldl f e l) = won e.
Proof.
  intros Hf. revert e. induction l as [|a l IH]; intros e; cbn; [reflexivity|].
  rewrite IH. apply Hf.
Qed.

Ltac keeps_win_step :=
  first
    [ apply keeps_win_bind; [|intros ?]
    | apply keeps_win_with_heap
    | apply keeps_win_gets
    | apply keeps_win_ret
    | apply keeps_win_lift
    | apply keeps_win_if ].

Lemma keeps_win_move_camera (inp : Input N) : keeps_win (move_camera inp).
Proof.
  unfold move_camera. repeat keeps_win_step;
    apply keeps_win_modify; intros; reflexivity.
Qed.

Lemma keeps_win_move_selected (inp : Input N) : keeps_win (move_selected inp).
Proof. unfold move_selected. repeat keeps_win_step. Qed.

Lemma keeps_win_clamp_camera : keeps_win clamp_camera_position.
Proof.
  apply keeps_win_modify. intros e.
  destruct (get_camera_limits e) as [[[? ?] ?] ?]. reflexivity.
Qed.

Lemma keeps_win_update_entities : keeps_win update_entities.
Proof.
  unfold update_entities. repeat keeps_win_step;
    apply keeps_win_modify; intros e; apply foldl_won; intros; reflexivity.
Qed.

Lemma keeps_win_update_preview (inp : Input N) : keeps_win (update_preview inp).
Proof.
  unfold update_preview. apply keeps_win_bind; [apply keeps_win_gets|intros e].
  destruct (GameEngine.placement_preview e) as [preview|]; [|apply keeps_win_ret].
  destruct (mouse_pos inp) as [mouse_x mouse_y].
  repeat (apply keeps_win_bind; [apply keeps_win_lift|intros ?]).
  destruct (GameMap.get_tile_at_screen_pos _ _ _ _ _ _);
    [apply keeps_win_modify; intros; reflexivity | apply keeps_win_ret].
Qed.

Lemma keeps_win_simulate (inp : Input N) : keeps_win (simulate inp).
Proof.
  unfold simulate.
  apply keeps_win_bind; [apply keeps_win_gets|intros e].
  apply keeps_win_bind; [apply keeps_win_with_heap|intros _].
  apply keeps_win_bind; [apply keeps_win_move_camera|intros _].
  apply keeps_win_bind; [apply keeps_win_move_selected|intros _].
  apply keeps_win_bind; [apply keeps_win_clamp_camera|intros _].
  apply keeps_win_bind; [apply keeps_win_update_entities|intros _].
  apply keeps_win_update_preview.
Qed.

(** The list that the win test builds. *)
Lemma enemy_swordsmen_spec (units acc l : list nat) (h h' : Heap.t N) :
  foldM (fun acc i => u ← Heap.get_unit i;
                      mret (if living_enemy_swordsman u then acc ++ [i] else acc))
        units acc h = (Ok l, h') ->
  h' = h /\
  (l = [] <-> acc = [] /\
              forall i u, i ∈ units -> Heap.units h !! i = Some u ->
                          living_enemy_swordsman u = false).
Proof.
  revert acc. induction units as [|i units IH]; intros acc E; cbn in E.
  - leaf_in E. split; [reflexivity|]. split; [|tauto].
    intros ->. split; [reflexivity|]. intros i u Hi. inversion Hi.
  - step_in E as acc' h1 E0. step_in E0 as u h2 E1. leaf_in E1. leaf_in E0.
    destruct (IH _ E) as [-> Hl]. split; [reflexivity|]. rewrite Hl. split.
    + intros [Hacc Hall]. destruct (living_enemy_swordsman u) eqn:Hu.
      * destruct acc; discriminate.
      * split; [assumption|]. intros j w Hj Hw.
        apply elem_of_cons in Hj as [->|Hj]; [congruence|eauto].
    + intros [-> Hall]. rewrite (Hall i u); [|left|assumption].
      split; [reflexivity|]. intros j w Hj Hw. apply (Hall j w); [right|]; assumption.
Qed.

(** What the win test does to the flag. *)
Lemma check_win_spec (e e' : Engine) :
  check_win e = (Ok tt, e') ->
  GameEngine.units e' = GameEngine.units e /\
  GameEngine.heap e' = GameEngine.heap e /\
  (won e' = true <-> won e = true \/ enemy_defeated e).
Proof.
  unfold check_win. intros E. step_in E as e0 e1 E0. leaf_in E0. unfold id in E.
  destruct (won e) eqn:Hw; cbn [negb] in E.
  - leaf_in E. rewrite Hw. tauto.
  - step_in E as l e1 E1. unfold GameEngine.with_heap in E1.
    destruct (enemy_swordsmen _ _) as [r h1] eqn:El. inversion E1; subst r e1; clear E1.
    destruct (enemy_swordsmen_spec _ _ _ _ _ El) as [-> Hl].
    assert (Hheap : GameEngine.set_heap (GameEngine.heap e) e = e) by (destruct e; reflexivity).
    rewrite Hheap in E.
    destruct (length l =? 0)%nat eqn:Hlen.
    + leaf_in E. cbn. split; [reflexivity|]. split; [reflexivity|].
      split; [|reflexivity]. intros _. right.
      apply Nat.eqb_eq in Hlen. destruct l; [|discriminate].
      destruct Hl as [Hl _]. destruct (Hl eq_refl) as [_ Hall]. exact Hall.
    + leaf_in E. rewrite Hw. split; [reflexivity|]. split; [reflexivity|].
      split; [discriminate|]. intros [?|Hd]; [discriminate|].
      apply Nat.eqb_neq in Hlen. exfalso. apply Hlen.
      assert (l = []) as -> by (apply Hl; split; [reflexivity|exact Hd]). reflexivity.
Qed.

Lemma check_win_latched (e : Engine) : won e = true -> check_win e = (Ok tt, e).
Proof.
  intros Hw. unfold check_win, mbind, M_bind, gets, id. rewrite Hw. reflexivity.
Qed.

Lemma tick_keeps_win (inp : Input N) (e : Engine) :
  won e = true -> won (tick inp e) = true.
Proof.
  intros Hw. unfold tick, update, catch, update_body. cbn [snd].
  unfold mbind, M_bind, gets, id.
  destruct ((if negb (GameEngine.paused e) then simulate inp else mret tt) e)
    as [[[]|x] e1] eqn:Es.
  - assert (Hw1 : won e1 = true).
    { replace e1 with (((if negb (GameEngine.paused e) then simulate inp else mret tt) e).2)
        by (rewrite Es; reflexivity).
      rewrite (keeps_win_if _ _ _ (keeps_win_simulate inp) (keeps_win_ret tt)). exact Hw. }
    rewrite check_win_latched by exact Hw1. exact Hw1.
  - cbn. replace e1 with (((if negb (GameEngine.paused e) then simulate inp else mret tt) e).2)
      by (rewrite Es; reflexivity).
    rewrite (keeps_win_if _ _ _ (keeps_win_simulate inp) (keeps_win_ret tt)). exact Hw.
Qed.

(** C8: the won flag is a one-way latch.  Along any run of the engine,
    ticks mixed with anything else that happens to it (a new enemy unit
    being added, for one), a flag that is true stays true; and a tick
    that runs to its end leaves the flag true exactly when it was true
    before or no living enemy swordsman is left in [self.units]. *)
Theorem win_latch :
  (forall e e' : Engine, rtc step e e' -> won e = true -> won e' = true) /\
  (forall (inp : Input N) (e : Engine),
     (update_body inp e).1 = Ok tt ->
     (won (tick inp e) = true <-> won e = true \/ enemy_defeated (tick inp e))).
Proof.
  split.
  - intros e e' Hrun. induction Hrun as [e|e e1 e' Hstep _ IH]; [auto|].
    intros Hw. apply IH. destruct Hstep as [inp e|e e1 Hsame].
    + apply tick_keeps_win. exact Hw.
    + congruence.
  - intros inp e Hok. unfold tick, update, catch. cbn [snd].
    destruct (update_body inp e) as [r e'] eqn:E. cbn in Hok. subst r. cbn [snd].
    unfold update_body in E. step_in E as e0 e1 E0. leaf_in E0. unfold id in E.
    step_in E as u e1 E1.
    assert (Hw1 : won e1 = won e).
    { replace e1 with (((if negb (GameEngine.paused e) then simulate inp else mret tt) e).2)
        by (rewrite E1; reflexivity).
      apply (keeps_win_if _ _ _ (keeps_win_simulate inp) (keeps_win_ret tt)). }
    destruct (check_win_spec _ _ E) as (Hunits & Hheap & Hiff).
    rewrite Hiff, Hw1. unfold enemy_defeated. rewrite Hunits, Hheap. reflexivity.
Qed.

End DriverFacts.


(** ** Runs of the engine, on binary64 *)

Section Runs.
Import Scenario.

Variables (terrain : Z -> Z -> TileType) (amount : Z -> Z -> Z).

Lemma fresh_init : init terrain amount = Ok (fresh terrain amount).
Proof.
  unfold fresh.
  assert (E : exists e, init (N := float) terrain amount = Ok e)
    by (vm_compute; eexists; reflexivity).
  destruct E as [e ->]. reflexivity.
Qed.

Lemma reachable_fresh : reachable (fresh terrain amount).
Proof. apply (reach_init terrain amount). apply fresh_init. Qed.

Lemma reachable_ticks (n : nat) (inp : Input float) (e : GameEngine.t float) :
  reachable e -> reachable (Nat.iter n (tick inp) e).
Proof. intros He. induction n as [|n IH]; cbn; [exact He|]. apply reach_tick, IH. Qed.

Lemma reachable_assault : reachable (assault (fresh terrain amount)).
Proof.
  unfold assault. apply reachable_ticks.
  apply reach_spawn; [|reflexivity]. apply reach_placement.
  apply reach_spawn; [|reflexivity]. apply reach_placement.
  apply reachable_ticks. apply reachable_fresh.
Qed.

(** Whatever happens to the position of an entity, [Entity.get_screen_pos]
    answers as before: it reads the cache and the base point computed by
    the constructor, never [x] and [y]. *)
Lemma get_screen_pos_ignores_position {N : Type} `{Num N} (zoom x' y' : N)
    (b : Building.t N) :
  (Building.get_screen_pos zoom (Building.set_y y' (Building.set_x x' b))).1 =
  (Building.get_screen_pos zoom b).1.
Proof.
  unfold Building.get_screen_pos. cbn.
  destruct (Building.cache_get zoom (Building.screen_pos_cache b)); reflexivity.
Qed.

(** [Unit.get_screen_pos], the override, does follow the unit. *)
Lemma Unit_get_screen_pos_current {N : Type} `{Num N} (zoom x' y' : N) (u : Unit.t N) :
  Unit.get_screen_pos zoom (Unit.set_pos x' y' u) = (x' * zoom, y' * zoom)%num.
Proof. reflexivity. Qed.

(** C5 fails on the code.  In a fresh engine, pick the farm button and let
    one tick pass with the mouse over the tile (35, 35): [update] moves
    the placement preview to that tile, and [get_screen_pos] still
    answers (0, 0), the point of the tile (0, 0) where the preview was
    built, while a building at (35, 35) is drawn at (0, 1120). *)
Theorem preview_screen_pos_is_stale :
  let e := placing (fresh terrain amount) in
  reachable e /\
  (fun b => (Building.x b, Building.y b)) <$> GameEngine.placement_preview e
  = Some (nZ 35, nZ 35) /\
  preview_screen_pos e = Some (nZ 0, nZ 0) /\
  (Building.get_screen_pos (N := float) (nlit 1)
     (Building.init (nZ 35) (nZ 35) "Farm" false)).1 = (nZ 0, nZ 1120).
Proof.
  cbv zeta. split; [|repeat split; vm_compute; reflexivity].
  unfold placing. apply reach_tick, reach_placement, reachable_fresh.
Qed.

(** A strike on a building in contact: the subtraction is all there is. *)
Lemma attack_building_strikes {N : Type} `{Num N} `{Root N} (self b : nat) (did : bool)
    (h : Heap.t N) (s : Unit.t N) (B : Building.t N) :
  Heap.units h !! self = Some s ->
  Heap.buildings h !! b = Some B ->
  in_contact s B = true ->
  exists h', attack_building self did b h = (Ok true, h') /\
             Building.health <$> Heap.buildings h' !! b =
             Some (Building.health B - Unit.attack_damage s * nlit (8 # 100))%num.
Proof.
  intros Hs HB Hc. unfold in_contact in Hc. apply andb_prop in Hc as [Hen Hd].
  destruct (rect_distance _ _ _ _ _ _) as [d|] eqn:Hdist; [|discriminate].
  eexists. split.
  - unfold attack_building, mbind, M_bind, Heap.get_unit, Heap.get_building, lift.
    rewrite Hs, HB, Hen, Hdist, Hd. reflexivity.
  - cbn. rewrite list_lookup_alter_eq, HB. reflexivity.
Qed.

(** C10: nothing bounds the health of a building from below.
    [Building.update] leaves it alone, and a strike subtracts
    [attack_damage * 0.08] from it whatever it is.  So, in the engine
    reached by [assault], whatever the map, the enemy keep is still among
    the entities with a health below zero; it stays below zero during the
    next tick, which removes it. *)
Theorem building_health_unclamped :
  (forall (N : Type) (HN : Num N) (dt : Z) (b : Building.t N) (rm : ResourceManager.t),
     Building.health (Building.update dt b rm).1 = Building.health b) /\
  (forall (self b : nat) (did : bool) (h : Heap.t float) (s : Unit.t float)
          (B : Building.t float),
     Heap.units h !! self = Some s -> Heap.buildings h !! b = Some B ->
     in_contact s B = true ->
     exists h', attack_building self did b h = (Ok true, h') /\
                Building.health <$> Heap.buildings h' !! b =
                Some (Building.health B - Unit.attack_damage s * nlit (8 # 100))%num) /\
  let e := assault (fresh terrain amount) in
  reachable e /\
  RBuilding 2 ∈ GameEngine.entities e /\
  (exists B, Heap.buildings (GameEngine.heap e) !! 2%nat = Some B /\
             Building.building_type B = "EnemyStonekeep"%string /\
             (Building.health B <? nZ 0)%num = true) /\
  (RBuilding 2 ∉ GameEngine.entities (tick idle e)) /\
  (exists B, Heap.buildings (GameEngine.heap (tick idle e)) !! 2%nat = Some B /\
             (Building.health B <? nZ 0)%num = true).
Proof.
  split; [|split].
  - intros N HN dt b rm. unfold Building.update.
    destruct (Building.produces b); [|reflexivity].
    destruct (Building.resource_manager b); [|reflexivity].
    destruct (30 <=? Building.resource_timer b + dt); reflexivity.
  - intros self b did h s B. apply attack_building_strikes.
  - cbv zeta. split; [apply reachable_assault|].
    split; [by_decision|]. split.
    + eexists. split; [vm_compute; reflexivity|]. split; vm_compute; reflexivity.
    + split; [by_decision|].
      eexists. split; vm_compute; reflexivity.
Qed.

End Runs.

Section LatchWitness.
Import Scenario.

(** The strike of [siege], through the second part of the theorem: the
    keep goes from 100 to 99.2. *)
Lemma building_health_unclamped_witness :
  exists h', attack_building 0 false 0 siege = (Ok true, h') /\
             Building.health <$> Heap.buildings h' !! 0%nat = Some (nlit (992 # 10)).
Proof.
  destruct (proj1 (proj2 (building_health_unclamped (fun _ _ => GRASS) (fun _ _ => 0)))
              0%nat 0%nat false siege
              (Unit.set_all_buildings [0%nat]
                 (Unit.move_to (nZ 300, nZ 300) (swordsman 96 48 "player")))
              (Building.init (nZ 65) (nZ 5) "EnemyStonekeep" false))
    as (h' & Hrun & Hhealth).
  - vm_compute. reflexivity.
  - vm_compute. reflexivity.
  - vm_compute. reflexivity.
  - exists h'. split; [exact Hrun|]. rewrite Hhealth. vm_compute. reflexivity.
Defined.

(** A tick on the fresh engine, where five enemy swordsmen live; and a
    run in which the flag is set on an engine without units, an enemy
    swordsman is then added, and a further tick leaves the flag set. *)
Lemma win_latch_witness :
  let e := fresh (fun _ _ => GRASS) (fun _ _ => 0) in
  let won := GameEngine.win_message_shown in
  (won (tick idle e) = true <-> won e = true \/ enemy_defeated (tick idle e)) /\
  let e1 := tick idle (empty_engine 1280 720 meadow) in
  let e2 := (add_unit (swordsman 0 0 "enemy") 0 0 e1).2 in
  won e1 = true /\
  won (tick idle e2) = true /\ ~ enemy_defeated (tick idle e2).
Proof.
  cbv zeta. split.
  - apply (proj2 (win_latch (N := float))). vm_compute. reflexivity.
  - split; [vm_compute; reflexivity|]. split.
    + apply (proj1 (win_latch (N := float)) (tick idle (empty_engine 1280 720 meadow))).
      * eapply rtc_l; [apply step_other|apply rtc_once, step_tick].
        vm_compute. reflexivity.
      * vm_compute. reflexivity.
    + intros Hall.
      assert (Hfalse : living_enemy_swordsman (swordsman 0 0 "enemy") = false).
      { apply (Hall 0%nat); [by_decision|vm_compute; reflexivity]. }
      vm_compute in Hfalse. discriminate.
Defined.

End LatchWitness.

(** * Further properties of the code *)

(** ** The map *)

Section MapMore.

(** X1: on a well-formed map [get_tile_at] never raises; it answers a
    tile exactly when the coordinates lie on the map, and that tile is the
    one that carries these coordinates. *)
Theorem get_tile_at_bounds (m : GameMap.t) (x y : Z) :
  GameMap.wf m ->
  exists r, GameMap.get_tile_at m x y = Ok r /\
            (is_Some r <-> 0 <= x < GameMap.width m /\ 0 <= y < GameMap.height m) /\
            (forall tile, r = Some tile -> Tile.x tile = x /\ Tile.y tile = y).
Proof.
  intros Hwf. unfold GameMap.get_tile_at.
  destruct ((0 <=? x) && (x <? GameMap.width m) && (0 <=? y) && (y <? GameMap.height m))
    eqn:E.
  - repeat (apply andb_prop in E; destruct E as [E ?]).
    destruct (Hwf x y) as (tile & Hi & Hx & Hy); [lia..|].
    rewrite Hi. cbn. eexists; split; [reflexivity|]. split.
    + split; [lia | eauto].
    + intros ? [= <-]. auto.
  - exists None. split; [reflexivity|]. split.
    + split; [intros [? [=]]|]. intros [Hx Hy].
      assert ((0 <=? x) && (x <? GameMap.width m) && (0 <=? y) && (y <? GameMap.height m)
              = true) by (repeat (apply andb_true_intro; split); lia).
      congruence.
    + intros ? [=].
Qed.

Lemma get_tile_at_bounds_witness :
  exists r, GameMap.get_tile_at Scenario.meadow 1 0 = Ok r /\
            (is_Some r <-> 0 <= 1 < GameMap.width Scenario.meadow /\
                           0 <= 0 < GameMap.height Scenario.meadow) /\
            (forall tile, r = Some tile -> Tile.x tile = 1 /\ Tile.y tile = 0).
Proof. apply (get_tile_at_bounds Scenario.meadow 1 0). apply generated_wf. Defined.

Lemma is_walkable_spec (tile : Tile.t) :
  is_walkable tile = true <->
  Tile.tile_type tile <> WATER /\ Tile.tile_type tile <> MOUNTAIN.
Proof.
  unfold is_walkable.
  rewrite andb_true_iff, !negb_true_iff, !bool_decide_eq_false. reflexivity.
Qed.

Lemma walkable_fold (m : GameMap.t) (x y : Z) (ds : list (Z * Z)) (acc : list (Z * Z)) :
  GameMap.wf m ->
  exists l,
    fold_res (fun neighbors (d : Z * Z) =>
                tile ← GameMap.get_tile_at m (x + d.1) (y + d.2);
                Ok match tile with
                   | Some tile =>
                       if is_walkable tile
                       then neighbors ++ [(x + d.1, y + d.2)] else neighbors
                   | None => neighbors
                   end) ds acc = Ok l /\
    forall p, p ∈ l <->
              p ∈ acc \/ (exists d, d ∈ ds /\ p = (x + d.1, y + d.2)) /\ walkable_at m p.
Proof.
  intros Hwf. revert acc. induction ds as [|d ds IH]; intros acc; cbn.
  - exists acc. split; [reflexivity|]. intros p. split; [auto|].
    intros [?|[(d & Hd & _) _]]; [assumption | inversion Hd].
  - destruct (get_tile_at_wf m (x + d.1) (y + d.2) Hwf)
      as [(Hx & Hy & tile & Hi & ->)|[Hout ->]]; cbn.
    + destruct (is_walkable tile) eqn:Hw.
      * destruct (IH (acc ++ [(x + d.1, y + d.2)])) as (l & -> & Hl).
        exists l. split; [reflexivity|]. intros p. rewrite Hl, elem_of_app, list_elem_of_singleton.
        apply is_walkable_spec in Hw. split.
        -- intros [[?| ->]|[(d' & Hd' & ->) Hp]]; [auto| |].
           ++ right. split; [exists d; split; [left|reflexivity]|].
              repeat split; cbn; try lia. eauto.
           ++ right. split; [exists d'; split; [right; assumption|reflexivity]|assumption].
        -- intros [?|[(d' & Hd' & ->) Hp]]; [auto|].
           apply elem_of_cons in Hd' as [->|Hd']; [auto|].
           right. split; [eauto|assumption].
      * destruct (IH acc) as (l & -> & Hl).
        exists l. split; [reflexivity|]. intros p. rewrite Hl. split.
        -- intros [?|[(d' & Hd' & ->) Hp]]; [auto|].
           right. split; [exists d'; split; [right; assumption|reflexivity]|assumption].
        -- intros [?|[(d' & Hd' & ->) Hp]]; [auto|].
           apply elem_of_cons in Hd' as [->|Hd'].
           ++ exfalso. destruct Hp as (_ & _ & tile' & Hi' & Hp). cbn in Hi'.
              assert (tile' = tile) as -> by congruence.
              apply is_walkable_spec in Hp. congruence.
           ++ right. split; [eauto|assumption].
    + destruct (IH acc) as (l & -> & Hl).
      exists l. split; [reflexivity|]. intros p. rewrite Hl. split.
      * intros [?|[(d' & Hd' & ->) Hp]]; [auto|].
        right. split; [exists d'; split; [right; assumption|reflexivity]|assumption].
      * intros [?|[(d' & Hd' & ->) Hp]]; [auto|].
        apply elem_of_cons in Hd' as [->|Hd'].
        -- exfalso. apply Hout. destruct Hp as (? & ? & _). cbn in *. lia.
        -- right. split; [eauto|assumption].
Qed.

(** X2: on a well-formed map [get_walkable_neighbors x y] answers, and
    its list holds exactly the tiles one step away along an axis that lie
    on the map and are neither WATER nor MOUNTAIN. *)
Theorem walkable_neighbors_spec (m : GameMap.t) (x y : Z) :
  GameMap.wf m ->
  exists l, get_walkable_neighbors m x y = Ok l /\
            forall nx ny,
              (nx, ny) ∈ l <->
              Z.abs (nx - x) + Z.abs (ny - y) = 1 /\
              0 <= nx < GameMap.width m /\ 0 <= ny < GameMap.height m /\
              exists tile, GameMap.index m nx ny = Ok tile /\
                           Tile.tile_type tile <> WATER /\
                           Tile.tile_type tile <> MOUNTAIN.
Proof.
  intros Hwf. unfold get_walkable_neighbors.
  destruct (walkable_fold m x y [(0, 1); (1, 0); (0, -1); (-1, 0)] [] Hwf) as (l & Hl & Hiff).
  exists l. split; [exact Hl|]. intros nx ny. rewrite Hiff. unfold walkable_at. cbn.
  split.
  - intros [Hin|[(d & Hd & [= -> ->]) Hp]]; [inversion Hin|].
    split; [|exact Hp].
    repeat (apply elem_of_cons in Hd as [->|Hd]); cbn; try lia. inversion Hd.
  - intros (Habs & Hp). right. split; [|exact Hp].
    assert (Hcase : (nx - x = 0 /\ ny - y = 1) \/ (nx - x = 1 /\ ny - y = 0) \/
                    (nx - x = 0 /\ ny - y = -1) \/ (nx - x = -1 /\ ny - y = 0)) by lia.
    destruct Hcase as [[? ?]|[[? ?]|[[? ?]|[? ?]]]].
    + exists (0, 1). split; [(repeat constructor)|cbn; f_equal; lia].
    + exists (1, 0). split; [(repeat constructor)|cbn; f_equal; lia].
    + exists (0, -1). split; [(repeat constructor)|cbn; f_equal; lia].
    + exists (-1, 0). split; [(repeat constructor)|cbn; f_equal; lia].
Qed.

Lemma walkable_neighbors_spec_witness :
  exists l, get_walkable_neighbors Scenario.foothill 0 0 = Ok l /\
            forall nx ny,
              (nx, ny) ∈ l <->
              Z.abs (nx - 0) + Z.abs (ny - 0) = 1 /\
              0 <= nx < GameMap.width Scenario.foothill /\
              0 <= ny < GameMap.height Scenario.foothill /\
              exists tile, GameMap.index Scenario.foothill nx ny = Ok tile /\
                           Tile.tile_type tile <> WATER /\
                           Tile.tile_type tile <> MOUNTAIN.
Proof. apply (walkable_neighbors_spec Scenario.foothill 0 0). apply generated_wf. Defined.

(** X3: with a zoom of zero (of either sign) [get_tile_at_screen_pos]
    finds no tile, wherever the point and the camera are: the division
    by the zoom raises and the handler answers [None]. *)
Theorem zero_zoom_finds_no_tile (m : GameMap.t) (screen_x screen_y zoom camera_x camera_y : float) :
  PrimFloat.eqb zoom 0 = true ->
  GameMap.get_tile_at_screen_pos m screen_x screen_y zoom camera_x camera_y = None.
Proof.
  intros Hz. unfold GameMap.get_tile_at_screen_pos, GameMap.screen_to_tile.
  cbn [ndiv float_Num]. change (Z2F 0) with 0%float. rewrite Hz. reflexivity.
Qed.

Lemma zero_zoom_finds_no_tile_witness :
  GameMap.get_tile_at_screen_pos Scenario.meadow 100%float 100%float (-0)%float 0%float 0%float
  = None.
Proof. apply zero_zoom_finds_no_tile. vm_compute. reflexivity. Defined.

End MapMore.

(** X4: a footprint of width or height zero or less may be built
    anywhere: [can_build_at] answers true without looking at any tile, off
    the map and on a malformed grid as well. *)
Theorem empty_footprint_is_buildable (m : GameMap.t) (x y w h : Z) :
  w <= 0 \/ h <= 0 -> GameMap.can_build_at m x y w h = Ok true.
Proof.
  intros Hwh. unfold GameMap.can_build_at.
  destruct (decide (h <= 0)) as [Hh|Hh].
  - rewrite (seqZ_nil 0 h) by lia. reflexivity.
  - rewrite (seqZ_nil 0 w) by lia. induction (seqZ 0 h) as [|dy l IH]; [reflexivity|].
    cbn. exact IH.
Qed.

Lemma empty_footprint_is_buildable_witness :
  GameMap.can_build_at Scenario.foothill 5 (-3) 0 2 = Ok true.
Proof. apply empty_footprint_is_buildable. left. lia. Defined.

(** ** The stockpile *)

Section StockpileFacts.

Lemma can_afford_spec (costs : list (ResourceType * Z)) (rm : ResourceManager.t) :
  Stockpile.can_afford costs rm = true <-> forall r c, (r, c) ∈ costs -> c <= rm r.
Proof.
  induction costs as [|[r0 c0] costs IH]; cbn.
  - split; [|reflexivity]. intros _ r c Hin. inversion Hin.
  - destruct (rm r0 <? c0) eqn:E.
    + split; [discriminate|]. intros Hall. specialize (Hall r0 c0 ltac:(left)). lia.
    + rewrite IH. split.
      * intros Hall r c Hin. apply elem_of_cons in Hin as [[= -> ->]|Hin]; [lia|auto].
      * intros Hall r c Hin. apply Hall. right. exact Hin.
Qed.

Lemma cost_of_absent (costs : list (ResourceType * Z)) (r : ResourceType) :
  r ∉ costs.*1 -> Stockpile.cost_of costs r = 0.
Proof.
  induction costs as [|[r0 c0] costs IH]; cbn; [reflexivity|].
  intros Hn. apply not_elem_of_cons in Hn as [Hne Hn].
  rewrite bool_decide_false by congruence. auto.
Qed.

Lemma pay_all (costs : list (ResourceType * Z)) (rm : ResourceManager.t) :
  NoDup costs.*1 ->
  (forall r c, (r, c) ∈ costs -> c <= rm r) ->
  forall r,
    foldl (fun rm (c : ResourceType * Z) => (Stockpile.remove_resource c.1 c.2 rm).2)
          rm costs r
    = rm r - Stockpile.cost_of costs r.
Proof.
  revert rm. induction costs as [|[r0 c0] costs IH]; intros rm Hnd Hall r; cbn.
  - lia.
  - apply NoDup_cons in Hnd as [Hn Hnd].
    unfold Stockpile.remove_resource at 2. cbn.
    replace (c0 <=? rm r0) with true
      by (symmetry; apply Z.leb_le, (Hall r0 c0); left). cbn.
    rewrite IH; [|exact Hnd|].
    + case_bool_decide as E1; case_bool_decide as E2; subst; try congruence.
      rewrite cost_of_absent by exact Hn. lia.
    + intros r' c' Hin. rewrite bool_decide_false.
      * apply Hall. right. exact Hin.
      * intros ->. apply Hn. apply (list_elem_of_fmap_2 fst) in Hin. exact Hin.
Qed.

(** X5: [pay_costs] pays all or nothing.  It succeeds exactly when every
    resource covers its cost; then each resource goes down by what the
    dictionary asks of it (nothing for a resource it does not name);
    otherwise the stockpile is left as it was.  A named resource that was
    not negative does not become negative. *)
Theorem pay_costs_all_or_nothing (costs : list (ResourceType * Z)) (rm : ResourceManager.t) :
  NoDup costs.*1 ->
  let paid := (Stockpile.pay_costs costs rm).1 in
  let rm' := (Stockpile.pay_costs costs rm).2 in
  (paid = true <-> forall r c, (r, c) ∈ costs -> c <= rm r) /\
  (forall r, rm' r = if paid then rm r - Stockpile.cost_of costs r else rm r) /\
  (forall r c, (r, c) ∈ costs -> 0 <= rm r -> 0 <= rm' r).
Proof.
  intros Hnd. cbv zeta. unfold Stockpile.pay_costs.
  destruct (Stockpile.can_afford costs rm) eqn:E; cbn.
  - pose proof (proj1 (can_afford_spec costs rm) E) as Hall. clear E.
    split; [tauto|]. split.
    + intros r. apply pay_all; assumption.
    + intros r c Hin _. rewrite pay_all by assumption.
      assert (Hc : Stockpile.cost_of costs r = c).
      { clear Hall. induction costs as [|[r0 c0] costs IH]; [inversion Hin|]. cbn.
        apply NoDup_cons in Hnd as [Hn Hnd].
        apply elem_of_cons in Hin as [[= -> ->]|Hin].
        - rewrite bool_decide_true; reflexivity.
        - rewrite bool_decide_false; [auto|].
          intros ->. apply Hn. apply (list_elem_of_fmap_2 fst) in Hin. exact Hin. }
      specialize (Hall r c Hin). lia.
  - split; [|split; [reflexivity|auto]].
    split; [discriminate|]. intros Hall.
    pose proof (proj2 (can_afford_spec costs rm) Hall). congruence.
Qed.

Lemma pay_costs_all_or_nothing_witness :
  let costs := [(WOOD, 200); (STONE, 700)] in
  let paid := (Stockpile.pay_costs costs ResourceManager.init).1 in
  let rm' := (Stockpile.pay_costs costs ResourceManager.init).2 in
  (paid = true <-> forall r c, (r, c) ∈ costs -> c <= ResourceManager.init r) /\
  (forall r, rm' r = if paid then ResourceManager.init r - Stockpile.cost_of costs r
                     else ResourceManager.init r) /\
  (forall r c, (r, c) ∈ costs -> 0 <= ResourceManager.init r -> 0 <= rm' r).
Proof.
  apply (pay_costs_all_or_nothing [(WOOD, 200); (STONE, 700)] ResourceManager.init).
  refine (bool_decide_unpack _ _). vm_compute. exact I.
Defined.

(** X6: removing what was just added succeeds exactly when the resource
    was not negative before, and then gives back the stockpile as it was. *)
Theorem add_then_remove (r : ResourceType) (amount : Z) (rm : ResourceManager.t) :
  let back := Stockpile.remove_resource r amount (ResourceManager.add_resource r amount rm) in
  (back.1 = true <-> 0 <= rm r) /\
  (back.1 = true -> forall r', back.2 r' = rm r').
Proof.
  cbv zeta. unfold Stockpile.remove_resource, ResourceManager.add_resource.
  rewrite bool_decide_true by reflexivity.
  destruct (amount <=? rm r + amount) eqn:E; cbn.
  - split; [split; [lia|reflexivity]|].
    intros _ r'. case_bool_decide; lia.
  - split; [split; [discriminate|lia]|discriminate].
Qed.

End StockpileFacts.

(** ** Buildings *)

Section BuildingFacts.
Context {N : Type} `{Num N}.

(** X7: a Woodcutter, Quarry or Farm that holds the stockpile, with its
    timer between 0 and 29, after [k] updates has its timer at
    (timer + k) mod 30 and has added 10 of its resource once for every
    full 30 ticks, (timer + k) / 30 times in all; nothing else of the
    building or of the stockpile has changed. *)
Theorem production_cycle (b : Building.t N) (rm : ResourceManager.t)
    (r : ResourceType) (k : nat) :
  Building.produces b = Some r ->
  Building.resource_manager b = true ->
  0 <= Building.resource_timer b < 30 ->
  let total := Building.resource_timer b + Z.of_nat k in
  let b' := (Building_updates k (b, rm)).1 in
  let rm' := (Building_updates k (b, rm)).2 in
  b' = Building.set_resource_timer (total mod 30) b /\
  forall r', rm' r' = if bool_decide (r' = r) then rm r' + 10 * (total / 30) else rm r'.
Proof.
  intros Hp Hm Ht. cbv zeta. induction k as [|k [IHb IHr]].
  - cbn. rewrite Z.add_0_r, Z.mod_small, Z.div_small by lia. split.
    + destruct b; reflexivity.
    + intros r'. case_bool_decide; lia.
  - unfold Building_updates in *. rewrite Nat.iter_succ.
    destruct (Nat.iter k _ (b, rm)) as [bk rmk]. cbn [fst snd] in *. subst bk.
    unfold Building.update.
    replace (Building.produces (Building.set_resource_timer _ b)) with (Some r)
      by (symmetry; exact Hp).
    cbn [Building.resource_manager Building.set_resource_timer Building.resource_timer].
    rewrite Hm.
    set (s := Building.resource_timer b + Z.of_nat k) in *.
    replace (Building.resource_timer b + Z.of_nat (S k)) with (s + 1) by lia.
    assert (Hs : 0 <= s) by lia.
    destruct (30 <=? s mod 30 + 1) eqn:E; cbn [fst snd].
    + assert (Hm30 : (s + 1) mod 30 = 0 /\ (s + 1) / 30 = s / 30 + 1).
      { apply Z.leb_le in E. Z.div_mod_to_equations. lia. }
      destruct Hm30 as [-> Hd]. split; [destruct b; reflexivity|].
      intros r'. unfold ResourceManager.add_resource. rewrite IHr, Hd.
      case_bool_decide; lia.
    + assert (Hm30 : (s + 1) mod 30 = s mod 30 + 1 /\ (s + 1) / 30 = s / 30).
      { apply Z.leb_gt in E. Z.div_mod_to_equations. lia. }
      destruct Hm30 as [-> Hd]. split; [destruct b; reflexivity|].
      intros r'. rewrite IHr, Hd. reflexivity.
Qed.


End BuildingFacts.

Lemma production_cycle_witness :
  let b := Building.init 0%float 0%float "Woodcutter" true in
  let total := Building.resource_timer b + Z.of_nat 65 in
  let b' := (Building_updates 65 (b, ResourceManager.init)).1 in
  let rm' := (Building_updates 65 (b, ResourceManager.init)).2 in
  b' = Building.set_resource_timer (total mod 30) b /\
  forall r', rm' r' = if bool_decide (r' = WOOD)
                      then ResourceManager.init r' + 10 * (total / 30)
                      else ResourceManager.init r'.
Proof.
  apply (production_cycle (Building.init 0%float 0%float "Woodcutter" true)
                          ResourceManager.init WOOD 65).
  - reflexivity.
  - reflexivity.
  - cbn. lia.
Defined.



(** ** [Unit.update]: what it leaves alone *)

Section UpdateFrame.
Context {N : Type} `{Num N} `{Root N}.
Local Open Scope num_scope.

Lemma foldl_never {A : Type} (g : N -> N) (p : A -> bool) (l : list A) (acc : N) :
  (forall w, w ∈ l -> p w = false) ->
  foldl (fun acc w => if p w then g acc else acc) acc l = acc.
Proof.
  revert acc. induction l as [|w l IH]; intros acc Hp; cbn; [reflexivity|].
  rewrite (Hp w) by left. apply IH. intros w' Hw'. apply Hp. right. exact Hw'.
Qed.

(** The heap that [update] leaves, with what the movement phase did to
    [self] told apart. *)
Lemma Unit_update_shape (self : nat) (all_units : list nat) (h h' : Heap.t N)
    (U : Unit.t N) :
  Heap.units h !! self = Some U ->
  Unit_update self all_units h = (Ok tt, h') ->
  exists h1 f,
    scanned self h U all_units h1 /\
    (f = (fun u => u) \/ f = Unit.set_target_pos None \/
     exists nx ny, f = Unit.set_pos nx ny) /\
    h' = Heap.with_unit self
           (fun s => Unit.set_health (pymax (nZ 0) (Unit.health s)) s)
           (Heap.with_unit self f h1).
Proof.
  intros HU E.
  destruct (Unit_update_spec _ _ _ _ E) as (did & h1 & s1 & h2 & Ha & Hs1 & Hmv & ->).
  destruct (attack_phase_spec _ _ _ _ _ _ HU Ha) as [Hsc Hdid].
  exists h1.
  assert (Hid : Heap.with_unit self (fun u => u) h1 = h1).
  { unfold Heap.with_unit. rewrite list_alter_id by reflexivity.
    destruct h1; reflexivity. }
  assert (Hquiet : h2 = h1 -> exists f,
             scanned self h U all_units h1 /\
             (f = (fun u => u) \/ f = Unit.set_target_pos None \/
              exists nx ny, f = Unit.set_pos nx ny) /\
             Heap.with_unit self
               (fun s => Unit.set_health (pymax (nZ 0) (Unit.health s)) s) h2 =
             Heap.with_unit self
               (fun s => Unit.set_health (pymax (nZ 0) (Unit.health s)) s)
               (Heap.with_unit self f h1)).
  { intros ->. exists (fun u => u). rewrite Hid. auto. }
  destruct (Unit.target_pos s1) as [target|]; [|auto].
  destruct did; cbn in Hmv; [auto|].
  destruct (move_spec _ _ _ _ _ _ Hs1 Hmv) as (dist & _ & Hcases).
  destruct Hcases as [[_ ->]|(_ & nx & ny & _ & [[_ ->]|[_ ->]])];
    eexists; (split; [exact Hsc|]); (split; [|reflexivity]); eauto.
Qed.

(** X9: when [update] returns, the stockpile is as before, every other
    unit that is not an opponent in melee range is exactly as before, and
    so is every building that is not a hostile building in contact. *)
Theorem update_spares_bystanders (self : nat) (all_units : list nat) (h h' : Heap.t N)
    (U : Unit.t N) :
  Heap.units h !! self = Some U ->
  Unit_update self all_units h = (Ok tt, h') ->
  Heap.resources h' = Heap.resources h /\
  (forall v V, v <> self -> Heap.units h !! v = Some V ->
               (v ∈ all_units -> in_melee U V = false) ->
               Heap.units h' !! v = Some V) /\
  (forall b B, Heap.buildings h !! b = Some B ->
               (b ∈ Unit.all_buildings U -> in_contact U B = false) ->
               Heap.buildings h' !! b = Some B).
Proof.
  intros HU E.
  destruct (Unit_update_shape _ _ _ _ _ HU E) as (h1 & f & (Hr & Hb & Hu) & _ & ->).
  split; [exact Hr|]. split.
  - intros v V Hv HV Hfar.
    rewrite !with_unit_lookup, !decide_False by congruence.
    rewrite Hu, HV. cbn. f_equal.
    unfold after_contact. rewrite bool_decide_false by assumption. cbn.
    unfold after_units. rewrite decide_False by assumption.
    rewrite (foldl_never (fun acc => acc - Unit.attack_damage U * nlit (1 # 10))
                         (fun w => bool_decide (w = v) && struck_back self h U w)).
    + destruct V; reflexivity.
    + intros w Hw. case_bool_decide as Hwv; [|reflexivity]. subst w. cbn.
      unfold struck_back. rewrite HV, (Hfar Hw). apply andb_false_r.
  - intros b B HB Hfar. cbn. rewrite Hb, HB. cbn. f_equal.
    unfold after_buildings.
    rewrite (foldl_never (fun acc => acc - Unit.attack_damage U * nlit (8 # 100))
                         (fun w => bool_decide (w = b) && hit h U w)).
    + destruct B; reflexivity.
    + intros w Hw. case_bool_decide as Hwb; [|reflexivity]. subst w. cbn.
      unfold hit. rewrite HB. auto.
Qed.

(** X10: a unit that has an opponent of the roster in melee range, or a
    hostile building of its context in contact, does not move during
    [update] and ends without a destination. *)
Theorem combat_freezes_movement (self : nat) (all_units : list nat) (h h' : Heap.t N)
    (U : Unit.t N) :
  Heap.units h !! self = Some U ->
  Unit_update self all_units h = (Ok tt, h') ->
  (exists v V, v ∈ all_units /\ v <> self /\ Heap.units h !! v = Some V /\
               in_melee U V = true) \/
  (exists b B, b ∈ Unit.all_buildings U /\ Heap.buildings h !! b = Some B /\
               in_contact U B = true) ->
  exists U', Heap.units h' !! self = Some U' /\
             Unit.x U' = Unit.x U /\ Unit.y U' = Unit.y U /\
             Unit.target_pos U' = None.
Proof.
  intros HU E Hfight.
  destruct (Unit_update_scanned _ _ _ _ _ HU E) as (h1 & f & (Hr & Hb & Hu) & _ & Hf & ->).
  assert (Hex : existsb (struck_back self h U) all_units
                || existsb (hit h U) (Unit.all_buildings U) = true).
  { destruct Hfight as [(v & V & Hin & Hne & HV & Hm)|(b & B & Hin & HB & Hc)].
    - apply orb_true_iff. left. apply (existsb_elem _ _ v Hin).
      unfold struck_back. rewrite HV, Hm, bool_decide_true by assumption. reflexivity.
    - apply orb_true_iff. right. apply (existsb_elem _ _ b Hin).
      unfold hit. rewrite HB. exact Hc. }
  eexists. split.
  - rewrite !with_unit_lookup, !decide_True, Hu, HU by reflexivity. reflexivity.
  - cbn. rewrite (Hf Hex).
    destruct (after_contact_static self h U (Unit.all_buildings U) self
                (after_units self h U all_units self U)) as (-> & -> & _).
    destruct (after_units_static self h U all_units self U) as (-> & -> & _).
    split; [reflexivity|]. split; [reflexivity|].
    unfold after_contact, after_units.
    rewrite bool_decide_true, decide_True by reflexivity. cbn.
    apply orb_true_iff in Hex as [Hex|Hex]; rewrite Hex.
    + destruct (existsb (hit h U) (Unit.all_buildings U)); reflexivity.
    + reflexivity.
Qed.

(** X11: for a unit without destination, with no combat event and with
    health above zero, [update] returns and leaves the whole store as it
    was. *)
Theorem idle_unit_is_unchanged (self : nat) (all_units : list nat) (h : Heap.t N)
    (U : Unit.t N) :
  Heap.units h !! self = Some U ->
  Unit.target_pos U = None ->
  (attack_phase self all_units h).1 = Ok false ->
  (nZ 0 <? Unit.health U) = true ->
  Unit_update self all_units h = (Ok tt, h).
Proof.
  intros HU Ht Hquiet Hpos.
  destruct (attack_phase self all_units h) as [r h1] eqn:Ha. cbn in Hquiet. subst r.
  pose proof (attack_phase_quiet _ _ _ _ _ HU Ha) as ->.
  unfold Unit_update, mbind, M_bind. rewrite Ha.
  unfold Heap.get_unit at 1. rewrite HU, Ht. cbn.
  unfold clamp_health, Heap.modify_unit, modify. f_equal.
  assert (Hsame : alter (fun s => Unit.set_health (pymax (nZ 0) (Unit.health s)) s) self
                        (Heap.units h) = Heap.units h).
  { apply list_eq. intros i. destruct (decide (i = self)) as [->|Hi].
    - rewrite list_lookup_alter_eq, HU. cbn. f_equal.
      unfold pymax, ngt. rewrite Hpos. destruct U; reflexivity.
    - rewrite list_lookup_alter_ne by congruence. reflexivity. }
  rewrite Hsame. destruct h; reflexivity.
Qed.

(** X12: [update] changes of a unit nothing but position, destination and
    health, and of a unit other than the one updated nothing but health; of
    a building it changes nothing but health; it neither adds nor drops an
    object of the store. *)
Theorem update_keeps_identity (self : nat) (all_units : list nat) (h h' : Heap.t N)
    (U : Unit.t N) :
  Heap.units h !! self = Some U ->
  Unit_update self all_units h = (Ok tt, h') ->
  (forall i,
     match Heap.units h !! i with
     | Some u =>
         exists px py tp hp,
           Heap.units h' !! i
           = Some (Unit.set_pos px py (Unit.set_target_pos tp (Unit.set_health hp u))) /\
           (i <> self -> px = Unit.x u /\ py = Unit.y u /\ tp = Unit.target_pos u)
     | None => Heap.units h' !! i = None
     end) /\
  (forall j,
     match Heap.buildings h !! j with
     | Some B => exists hp, Heap.buildings h' !! j = Some (Building.set_health hp B)
     | None => Heap.buildings h' !! j = None
     end).
Proof.
  intros HU E.
  destruct (Unit_update_shape _ _ _ _ _ HU E) as (h1 & f & (Hr & Hb & Hu) & Hf & ->).
  split.
  - intros i. rewrite !with_unit_lookup.
    destruct (decide (self = i)) as [<-|Hi].
    + rewrite Hu, HU. cbn. unfold after_contact, after_units.
      rewrite decide_True by reflexivity.
      destruct Hf as [->|[->|(nx & ny & ->)]]; destruct (_ && _);
        match goal with
        | |- exists _ _ _ _, Some ?X = _ /\ _ =>
            exists (Unit.x X), (Unit.y X), (Unit.target_pos X), (Unit.health X)
        end;
        (split; [reflexivity|intros Hn; contradiction]).
    + rewrite Hu. destruct (Heap.units h !! i) as [u|]; cbn; [|reflexivity].
      unfold after_contact, after_units.
      rewrite bool_decide_false, decide_False by congruence. cbn.
      match goal with
      | |- exists _ _ _ _, Some ?X = _ /\ _ =>
          exists (Unit.x X), (Unit.y X), (Unit.target_pos X), (Unit.health X)
      end.
      split; [reflexivity|]. cbn. auto.
  - intros j. cbn. rewrite Hb. destruct (Heap.buildings h !! j) as [B|]; cbn; [|reflexivity].
    unfold after_buildings. eauto.
Qed.

End UpdateFrame.


(** ** Methods and what they keep *)

Section Always.
Context {S : Type} (R : relation S) `{!PreOrder R}.

Lemma always_ret {A : Type} (a : A) : always R (mret a : M S A).
Proof. intros s. reflexivity. Qed.

Lemma always_lift {A : Type} (r : res A) : always R (lift r : M S A).
Proof. intros s. reflexivity. Qed.

Lemma always_gets {A : Type} (f : S -> A) : always R (gets f).
Proof. intros s. reflexivity. Qed.

Lemma always_modify (f : S -> S) : (forall s, R s (f s)) -> always R (modify f).
Proof. intros Hf s. apply Hf. Qed.

Lemma always_bind {A B : Type} (m : M S A) (f : A -> M S B) :
  always R m -> (forall a, always R (f a)) -> always R (m ≫= f).
Proof.
  intros Hm Hf s. unfold mbind, M_bind. specialize (Hm s).
  destruct (m s) as [[a|x] s1]; cbn in *; [|exact Hm].
  transitivity s1; [exact Hm | apply Hf].
Qed.

Lemma always_if {A : Type} (b : bool) (m1 m2 : M S A) :
  always R m1 -> always R m2 -> always R (if b then m1 else m2).
Proof. destruct b; auto. Qed.

Lemma always_catch {A : Type} (m : M S A) : always R m -> always R (catch m).
Proof. intros Hm s. apply Hm. Qed.

Lemma always_foldM {A B : Type} (body : B -> A -> M S B) (l : list A) (acc : B) :
  (forall acc a, always R (body acc a)) -> always R (foldM body l acc).
Proof.
  intros Hb. revert acc. induction l as [|a l IH]; intros acc; cbn.
  - apply always_ret.
  - apply always_bind; [apply Hb | intros acc'; apply IH].
Qed.

Lemma always_any_of {A : Type} (p : A -> M S bool) (l : list A) :
  (forall a, always R (p a)) -> always R (any_of p l).
Proof.
  intros Hp. induction l as [|a l IH]; cbn.
  - apply always_ret.
  - apply always_bind; [apply Hp | intros b; destruct b; [apply always_ret | exact IH]].
Qed.

End Always.

Lemma always_get_unit {N : Type} (R : relation (Heap.t N)) `{!PreOrder R} (i : nat) :
  always R (Heap.get_unit i).
Proof. intros h. reflexivity. Qed.

Lemma always_get_building {N : Type} (R : relation (Heap.t N)) `{!PreOrder R} (i : nat) :
  always R (Heap.get_building i).
Proof. intros h. reflexivity. Qed.

Ltac always_step :=
  lazymatch goal with
  | |- always _ (mbind _ _) => apply always_bind; [typeclasses eauto| |intros ?]
  | |- always _ (Heap.get_unit _) => apply always_get_unit; typeclasses eauto
  | |- always _ (Heap.get_building _) => apply always_get_building; typeclasses eauto
  | |- always _ (gets _) => apply always_gets; typeclasses eauto
  | |- always _ (mret _) => apply always_ret; typeclasses eauto
  | |- always _ (lift _) => apply always_lift; typeclasses eauto
  | |- always _ (catch _) => apply always_catch
  | |- always _ (foldM _ _ _) => apply always_foldM; [typeclasses eauto|intros ? ?]
  | |- always _ (any_of _ _) => apply always_any_of; [typeclasses eauto|intros ?]
  | |- always _ (match ?b with _ => _ end) => destruct b
  end.

(** ** The enemy AI *)

Section AI.
Context {N : Type} `{Num N} `{Root N}.
Local Open Scope num_scope.

Lemma seek_pure (enemy : nat) (acc : option (N * nat)) (unit : nat) :
  always eq (seek enemy acc unit).
Proof.
  unfold seek. repeat always_step.
Qed.

Lemma sees_app (h : Heap.t N) (en : Unit.t N) (l1 l2 : list nat) :
  sees h en (l1 ++ l2) = sees h en l1 || sees h en l2.
Proof. apply existsb_app. Qed.

Lemma seek_fold (enemy : nat) (en : Unit.t N) (h : Heap.t N) :
  Heap.units h !! enemy = Some en ->
  forall (l done : list nat) (acc acc' : option (N * nat)) (h' : Heap.t N),
    foldM (seek enemy) l acc h = (Ok acc', h') ->
    match acc with
    | None => sees h en done = false
    | Some (_, t) => t ∈ done /\ exists T, Heap.units h !! t = Some T /\ in_sight en T = true
    end ->
    h' = h /\
    match acc' with
    | None => sees h en (done ++ l) = false
    | Some (_, t) => t ∈ done ++ l /\
                     exists T, Heap.units h !! t = Some T /\ in_sight en T = true
    end.
Proof.
  intros Hen. induction l as [|p l IH]; intros done acc acc' h' E Hinv; cbn in E.
  - leaf_in E. rewrite app_nil_r. auto.
  - step_in E as acc1 h1 E0.
    pose proof (seek_pure enemy acc p h) as Hp. rewrite E0 in Hp. cbn in Hp. subst h1.
    destruct (IH (done ++ [p]) acc1 acc' h' E) as [-> Hacc'].
    + unfold seek in E0. step_in E0 as P h1 E1. leaf_in E1.
      destruct (String.eqb (Unit.team P) "player") eqn:Hteam.
      * step_in E0 as en' h1 E2. leaf_in E2. rewrite Hen in E2. inversion E2; subst en'.
        step_in E0 as dist h1 E3. leaf_in E3.
        assert (Hsight : in_sight en P = (dist <? nZ 400)).
        { unfold in_sight. rewrite Hteam, E3. reflexivity. }
        destruct (dist <? nZ 400) eqn:Hd; cbn in E0.
        -- assert (Hnew : p ∈ done ++ [p] /\
                          exists T, Heap.units h !! p = Some T /\ in_sight en T = true).
           { split; [apply elem_of_app; right; left | eauto]. }
           destruct acc as [[min_dist t]|].
           ++ destruct (dist <? min_dist); leaf_in E0; [exact Hnew|].
              destruct Hinv as [Hin HT]. split; [apply elem_of_app; left; exact Hin | exact HT].
           ++ leaf_in E0. exact Hnew.
        -- leaf_in E0. destruct acc as [[min_dist t]|].
           ++ destruct Hinv as [Hin HT]. split; [apply elem_of_app; left; exact Hin | exact HT].
           ++ rewrite sees_app, Hinv. cbn. rewrite E1, Hsight. reflexivity.
      * leaf_in E0. destruct acc as [[min_dist t]|].
        -- destruct Hinv as [Hin HT]. split; [apply elem_of_app; left; exact Hin | exact HT].
        -- rewrite sees_app, Hinv. cbn. rewrite E1. unfold in_sight. rewrite Hteam. reflexivity.
    + split; [reflexivity|]. rewrite <- app_assoc in Hacc'. exact Hacc'.
Qed.

(** X13: the enemy AI sends an enemy unit after a player unit exactly when
    some player unit of the list is less than 400 pixels away; the
    destination it sets is the position of such a unit; otherwise, and for
    a unit that is not an enemy, it changes nothing. *)
Theorem enemy_ai_targets (units : list nat) (enemy : nat) (h h' : Heap.t N)
    (en : Unit.t N) :
  Heap.units h !! enemy = Some en ->
  enemy_ai units enemy h = (Ok tt, h') ->
  if String.eqb (Unit.team en) "enemy" && sees h en units
  then exists target T,
         target ∈ units /\ Heap.units h !! target = Some T /\
         in_sight en T = true /\
         h' = Heap.with_unit enemy (Unit.move_to (Unit.x T, Unit.y T)) h
  else h' = h.
Proof.
  intros Hen E. unfold enemy_ai in E.
  step_in E as en' h1 E0. leaf_in E0. rewrite Hen in E0. inversion E0; subst en'; clear E0.
  destruct (String.eqb (Unit.team en) "enemy"); cbn [andb]; [|leaf_in E; reflexivity].
  step_in E as acc h1 E1.
  destruct (seek_fold enemy en h Hen units [] None acc h1 E1 eq_refl) as [-> Hacc].
  rewrite app_nil_l in Hacc. destruct acc as [[d target]|].
  - destruct Hacc as (Hin & T & HT & Hs).
    assert (Hsees : sees h en units = true).
    { unfold sees. apply existsb_exists. exists target.
      split; [apply list_elem_of_In; exact Hin|]. rewrite HT. exact Hs. }
    rewrite Hsees. step_in E as T' h1 E2. leaf_in E2. rewrite HT in E2.
    inversion E2; subst T'. leaf_in E. exists target, T. auto.
  - rewrite Hacc. leaf_in E. reflexivity.
Qed.

End AI.

(** ** The driver: pause, camera, removals *)

Section DriverMore.
Context {N : Type} `{Num N} `{Root N}.
Local Open Scope num_scope.

Lemma enemy_swordsmen_pure (units : list nat) : always (@eq (Heap.t N)) (enemy_swordsmen units).
Proof. unfold enemy_swordsmen. repeat always_step. Qed.

Lemma set_heap_same (e : GameEngine.t N) : GameEngine.set_heap (GameEngine.heap e) e = e.
Proof. destruct e; reflexivity. Qed.

(** X14: while the game is paused a tick changes nothing, whatever the
    input, except that it still runs the win test: it may set the won flag,
    and does so only if the flag was unset and no enemy swordsman is
    alive. *)
Theorem paused_tick_only_checks_win (inp : Input N) (e : GameEngine.t N) :
  GameEngine.paused e = true ->
  tick inp e = e \/
  (GameEngine.win_message_shown e = false /\ enemy_defeated e /\
   tick inp e = GameEngine.set_win_message_shown true e).
Proof.
  intros Hp.
  assert (Ht : tick inp e = (check_win e).2).
  { unfold tick, update, catch, update_body, mbind, M_bind, gets, id. cbn [snd].
    rewrite Hp. reflexivity. }
  rewrite Ht. clear Ht.
  destruct (GameEngine.win_message_shown e) eqn:Hw.
  - left. rewrite check_win_latched by exact Hw. reflexivity.
  - destruct (check_win e) as [r e'] eqn:E. cbn [snd].
    unfold check_win, mbind, M_bind, gets, id in E. rewrite Hw in E. cbn [negb] in E.
    unfold GameEngine.with_heap in E.
    pose proof (enemy_swordsmen_pure (GameEngine.units e) (GameEngine.heap e)) as Hpure.
    destruct (enemy_swordsmen (GameEngine.units e) (GameEngine.heap e)) as [[l|x] h1] eqn:El;
      cbn in Hpure; subst h1; rewrite set_heap_same in E.
    + destruct (length l =? 0)%nat eqn:Hlen.
      * right. inversion E; subst. split; [reflexivity|]. split; [|reflexivity].
        apply Nat.eqb_eq in Hlen. destruct l; [|discriminate].
        destruct (enemy_swordsmen_spec _ _ _ _ _ El) as [_ [Hl _]].
        destruct (Hl eq_refl) as [_ Hall]. exact Hall.
      * left. inversion E; reflexivity.
    + left. inversion E; reflexivity.
Qed.

Lemma clamp_between `{!NumOrder N} (lo hi c : N) :
  (lo <=? lo) = true -> (hi <=? hi) = true -> (lo <=? hi) = true ->
  (lo <=? pymax lo (pymin hi c)) = true /\ (pymax lo (pymin hi c) <=? hi) = true.
Proof.
  intros Hlo Hhi Hle. unfold pymax, pymin, ngt.
  destruct (c <? hi) eqn:Hc.
  - destruct (lo <? c) eqn:Hl.
    + split; apply nlt_nle; assumption.
    + split; assumption.
  - destruct (lo <? hi) eqn:Hl.
    + split; assumption.
    + split; assumption.
Qed.

(** What [clamp_camera_position] leaves, given limits that are numbers
    and in order. *)
Lemma clamp_camera_spec `{!NumOrder N} (e : GameEngine.t N) (min_x max_x min_y max_y : N) :
  get_camera_limits e = (min_x, max_x, min_y, max_y) ->
  (min_x <=? min_x) = true -> (max_x <=? max_x) = true -> (min_x <=? max_x) = true ->
  (min_y <=? min_y) = true -> (max_y <=? max_y) = true -> (min_y <=? max_y) = true ->
  let e' := (clamp_camera_position e).2 in
  (min_x <=? GameEngine.camera_x e') = true /\ (GameEngine.camera_x e' <=? max_x) = true /\
  (min_y <=? GameEngine.camera_y e') = true /\ (GameEngine.camera_y e' <=? max_y) = true /\
  get_camera_limits e' = get_camera_limits e.
Proof.
  intros Hlim Hx1 Hx2 Hx3 Hy1 Hy2 Hy3. cbv zeta.
  unfold clamp_camera_position, modify. cbn [snd]. rewrite Hlim. cbn.
  destruct (clamp_between min_x max_x (GameEngine.camera_x e) Hx1 Hx2 Hx3) as [? ?].
  destruct (clamp_between min_y max_y (GameEngine.camera_y e) Hy1 Hy2 Hy3) as [? ?].
  auto.
Qed.





End DriverMore.

(** ** What a tick keeps *)

Section Keeps.
Context {N : Type} `{Num N} `{Root N}.
Local Open Scope num_scope.

#[global] Instance tame_preorder : PreOrder (@tame N).
Proof.
  split.
  - intros h. repeat split; lia.
  - intros h1 h2 h3 (Hu1 & Hb1 & Hr1) (Hu2 & Hb2 & Hr2). repeat split; try congruence.
    intros r. specialize (Hr1 r). specialize (Hr2 r). lia.
Qed.

Lemma tame_modify_unit (i : nat) (f : Unit.t N -> Unit.t N) :
  always tame (Heap.modify_unit i f).
Proof. intros h. repeat split; cbn; [apply length_alter | lia]. Qed.

Lemma tame_modify_building (i : nat) (f : Building.t N -> Building.t N) :
  always tame (Heap.modify_building i f).
Proof. intros h. repeat split; cbn; [apply length_alter | lia]. Qed.

Lemma tame_update_building (i : nat) : always tame (update_building (N := N) i).
Proof.
  intros h. unfold update_building.
  destruct (Heap.buildings h !! i) as [b|]; [|reflexivity].
  unfold Building.update.
  destruct (Building.produces b) as [r|]; [|repeat split; cbn; [apply length_insert | lia]].
  destruct (Building.resource_manager b);
    [|repeat split; cbn; [apply length_insert | lia]].
  destruct (30 <=? Building.resource_timer b + 1)%Z;
    repeat split; cbn; try apply length_insert; try lia.
  intros r'. unfold ResourceManager.add_resource. case_bool_decide; lia.
Qed.

Ltac tame_step :=
  first [ always_step | apply tame_modify_unit | apply tame_modify_building ].

Lemma tame_Unit_update (self : nat) (all_units : list nat) :
  always tame (Unit_update (N := N) self all_units).
Proof.
  unfold Unit_update, attack_phase, clamp_health, move. repeat tame_step;
    unfold attack_unit, attack_building, blocked_by_unit, blocked_by_building;
    repeat tame_step.
Qed.

Lemma tame_enemy_ai (units : list nat) (enemy : nat) :
  always tame (enemy_ai (N := N) units enemy).
Proof. unfold enemy_ai. repeat tame_step; unfold seek; repeat tame_step. Qed.

Lemma tame_wasd_entity (dx dy : Z) (entity : ref) :
  always tame (wasd_entity (N := N) dx dy entity).
Proof. unfold wasd_entity. repeat tame_step. Qed.

Lemma tame_update_entity (all_units all_buildings : list nat) (acc : list nat * list nat)
    (entity : ref) :
  always tame (update_entity (N := N) all_units all_buildings acc entity).
Proof.
  unfold update_entity. destruct entity as [i|i]; repeat tame_step.
  - apply tame_Unit_update.
  - apply tame_update_building.
Qed.

Lemma tame_enemy_swordsmen (units : list nat) : always tame (enemy_swordsmen (N := N) units).
Proof. unfold enemy_swordsmen. repeat tame_step. Qed.


#[global] Instance evolves_preorder : PreOrder (@evolves N).
Proof.
  split.
  - intros e. split; [reflexivity|]. split; [exact (fun Hs => Hs)|]. repeat split; auto.
  - intros e1 e2 e3 (Ht1 & Hs1 & He1 & Hz1 & Hp1 & Hw1 & Hh1 & Hmw1 & Hmh1)
      (Ht2 & Hs2 & He2 & Hz2 & Hp2 & Hw2 & Hh2 & Hmw2 & Hmh2).
    split; [etransitivity; eassumption|]. split; [exact (fun Hs => Hs2 (Hs1 Hs))|].
    repeat split; auto; congruence.
Qed.

Lemma evolves_with_heap {A : Type} (m : M (Heap.t N) A) :
  always tame m -> always evolves (GameEngine.with_heap m).
Proof.
  intros Hm e. unfold GameEngine.with_heap. specialize (Hm (GameEngine.heap e)).
  destruct (m (GameEngine.heap e)) as [r h']. cbn in *.
  split; [exact Hm|]. split; [|repeat split; auto].
  destruct Hm as (Hu & Hb & _).
  intros (H1 & H2 & H3 & H4 & H5). unfold sound. cbn. repeat split; auto.
  - intros i Hi. rewrite Hu. auto.
  - intros i Hi. rewrite Hb. auto.
Qed.

Lemma evolves_settings (f : GameEngine.t N -> GameEngine.t N) :
  settings_only f -> always evolves (modify f).
Proof.
  intros Hf e. cbn. destruct (Hf e) as (Hh & He & Hu & Hb & Hz & Hp & Hw & Hhh & Hmw & Hmh).
  split; [rewrite Hh; reflexivity|]. split; [|repeat split; auto; congruence].
  intros (H1 & H2 & H3 & H4 & H5). unfold sound. rewrite Hh, He, Hu, Hb. auto.
Qed.

Lemma unit_refs_remove_unit (d : nat) (l : list ref) :
  unit_refs (remove_first (RUnit d) l) = remove_first d (unit_refs l) /\
  building_refs (remove_first (RUnit d) l) = building_refs l.
Proof.
  unfold unit_refs, building_refs. induction l as [|r l [IH1 IH2]]; cbn; [auto|].
  destruct (decide (r = RUnit d)) as [->|Hr]; cbn.
  - rewrite decide_True by reflexivity. auto.
  - destruct r as [i|i]; cbn.
    + rewrite decide_False by congruence. rewrite IH1, IH2. auto.
    + rewrite IH1, IH2. auto.
Qed.

Lemma building_refs_remove_building (b : nat) (l : list ref) :
  building_refs (remove_first (RBuilding b) l) = remove_first b (building_refs l) /\
  unit_refs (remove_first (RBuilding b) l) = unit_refs l.
Proof.
  unfold unit_refs, building_refs. induction l as [|r l [IH1 IH2]]; cbn; [auto|].
  destruct (decide (r = RBuilding b)) as [->|Hr]; cbn.
  - rewrite decide_True by reflexivity. auto.
  - destruct r as [i|i]; cbn.
    + rewrite IH1, IH2. auto.
    + rewrite decide_False by congruence. rewrite IH1, IH2. auto.
Qed.

Lemma remove_first_sublist {A : Type} `{EqDecision A} (a : A) (l : list A) :
  remove_first a l `sublist_of` l.
Proof.
  induction l as [|b l IH]; cbn; [constructor|].
  destruct (decide (b = a)); [apply sublist_cons | apply sublist_skip]; [reflexivity|exact IH].
Qed.

Lemma evolves_remove_unit (d : nat) (e : GameEngine.t N) : evolves e (remove_unit d e).
Proof.
  unfold remove_unit. split; [reflexivity|].
  cbn -[unit_refs building_refs remove_first]. split; [|repeat split; auto].
  - intros (H1 & H2 & H3 & H4 & H5). unfold sound.
    cbn -[unit_refs building_refs remove_first].
    destruct (unit_refs_remove_unit d (GameEngine.entities e)) as [-> ->].
    pose proof (remove_first_sublist (RUnit d) (GameEngine.entities e)) as Hsub.
    repeat split.
    + rewrite H1. reflexivity.
    + exact H2.
    + eapply sublist_NoDup; eassumption.
    + intros i Hi. apply H4. eapply elem_of_sublist; eassumption.
    + intros i Hi. apply H5. eapply elem_of_sublist; eassumption.
  - intros r Hr. eapply elem_of_sublist; [exact Hr|]. apply remove_first_sublist.
Qed.

Lemma evolves_remove_building (b : nat) (e : GameEngine.t N) : evolves e (remove_building b e).
Proof.
  unfold remove_building. split; [reflexivity|].
  cbn -[unit_refs building_refs remove_first]. split; [|repeat split; auto].
  - intros (H1 & H2 & H3 & H4 & H5). unfold sound.
    cbn -[unit_refs building_refs remove_first].
    destruct (building_refs_remove_building b (GameEngine.entities e)) as [-> ->].
    pose proof (remove_first_sublist (RBuilding b) (GameEngine.entities e)) as Hsub.
    repeat split.
    + exact H1.
    + rewrite H2. reflexivity.
    + eapply sublist_NoDup; eassumption.
    + intros i Hi. apply H4. eapply elem_of_sublist; eassumption.
    + intros i Hi. apply H5. eapply elem_of_sublist; eassumption.
  - intros r Hr. eapply elem_of_sublist; [exact Hr|]. apply remove_first_sublist.
Qed.

Lemma evolves_foldl {A : Type} (f : GameEngine.t N -> A -> GameEngine.t N) (l : list A)
    (e : GameEngine.t N) :
  (forall e a, evolves e (f e a)) -> evolves e (foldl f e l).
Proof.
  intros Hf. revert e. induction l as [|a l IH]; intros e; cbn; [reflexivity|].
  etransitivity; [apply Hf | apply IH].
Qed.

Ltac settings := intros e; cbn; repeat split; reflexivity.

Ltac evolves_step :=
  first [ always_step
        | apply evolves_with_heap
        | apply evolves_settings; settings ].

Lemma evolves_move_camera (inp : Input N) : always evolves (move_camera inp).
Proof. unfold move_camera. repeat evolves_step. Qed.

Lemma evolves_move_selected (inp : Input N) : always evolves (move_selected inp).
Proof.
  unfold move_selected. repeat evolves_step. apply tame_wasd_entity.
Qed.

Lemma evolves_clamp_camera : always evolves (clamp_camera_position (N := N)).
Proof.
  apply evolves_settings. intros e.
  destruct (get_camera_limits e) as [[[? ?] ?] ?]. cbn. repeat split; reflexivity.
Qed.

Lemma evolves_update_entities : always evolves (update_entities (N := N)).
Proof.
  unfold update_entities. repeat evolves_step.
  - apply tame_update_entity.
  - apply always_modify. intros e. apply evolves_foldl. intros; apply evolves_remove_unit.
  - apply always_modify. intros e. apply evolves_foldl. intros; apply evolves_remove_building.
Qed.

Lemma evolves_update_preview (inp : Input N) : always evolves (update_preview inp).
Proof. unfold update_preview. repeat evolves_step. Qed.

Lemma evolves_check_win : always evolves (check_win (N := N)).
Proof.
  unfold check_win. repeat evolves_step. apply tame_enemy_swordsmen.
Qed.

Lemma evolves_update (inp : Input N) : always evolves (update inp).
Proof.
  unfold update, update_body, simulate. repeat evolves_step.
  - apply tame_enemy_ai.
  - apply evolves_move_camera.
  - apply evolves_move_selected.
  - apply evolves_update_entities.
  - apply evolves_update_preview.
  - apply evolves_check_win.
Qed.


(** X18: a tick, however it ends, adds no entity to the engine and neither
    adds nor drops an object of the store; it leaves the zoom, the pause,
    the size of the screen and the size of the map as they were. *)
Theorem tick_adds_nothing (inp : Input N) (e : GameEngine.t N) :
  let e' := tick inp e in
  (forall r, r ∈ GameEngine.entities e' -> r ∈ GameEngine.entities e) /\
  length (Heap.units (GameEngine.heap e')) = length (Heap.units (GameEngine.heap e)) /\
  length (Heap.buildings (GameEngine.heap e'))
  = length (Heap.buildings (GameEngine.heap e)) /\
  GameEngine.zoom_level e' = GameEngine.zoom_level e /\
  GameEngine.paused e' = GameEngine.paused e /\
  GameEngine.screen_width e' = GameEngine.screen_width e /\
  GameEngine.screen_height e' = GameEngine.screen_height e /\
  GameMap.width (GameEngine.game_map e') = GameMap.width (GameEngine.game_map e) /\
  GameMap.height (GameEngine.game_map e') = GameMap.height (GameEngine.game_map e).
Proof.
  cbv zeta. destruct (evolves_update inp e) as ((Hu & Hb & _) & _ & He & Hrest).
  unfold tick. auto.
Qed.

(** X19: a tick, however it ends, never lowers a resource of the
    stockpile. *)
Theorem tick_never_spends (inp : Input N) (e : GameEngine.t N) (r : ResourceType) :
  Heap.resources (GameEngine.heap e) r <= Heap.resources (GameEngine.heap (tick inp e)) r.
Proof. destruct (evolves_update inp e) as ((_ & _ & Hr) & _). apply Hr. Qed.

#[global] Instance stays_sound_preorder : PreOrder (@stays_sound N).
Proof. split; [intros e Hs; exact Hs | intros e1 e2 e3 H1 H2 Hs; exact (H2 (H1 Hs))]. Qed.

Lemma stays_sound_settings (f : GameEngine.t N -> GameEngine.t N) :
  settings_only f -> always stays_sound (modify f).
Proof. intros Hf e. destruct (evolves_settings f Hf e) as (_ & Hs & _). exact Hs. Qed.

Lemma refs_snoc_unit (l : list ref) (i : nat) :
  unit_refs (l ++ [RUnit i]) = unit_refs l ++ [i] /\
  building_refs (l ++ [RUnit i]) = building_refs l.
Proof.
  unfold unit_refs, building_refs. rewrite !omap_app. cbn. rewrite app_nil_r. auto.
Qed.

Lemma refs_snoc_building (l : list ref) (i : nat) :
  unit_refs (l ++ [RBuilding i]) = unit_refs l /\
  building_refs (l ++ [RBuilding i]) = building_refs l ++ [i].
Proof.
  unfold unit_refs, building_refs. rewrite !omap_app. cbn. rewrite app_nil_r. auto.
Qed.

Lemma stays_sound_add_unit (u : Unit.t N) (tx ty : Z) :
  always stays_sound (add_unit u tx ty).
Proof.
  intros e (H1 & H2 & H3 & H4 & H5). unfold sound.
  unfold add_unit, mbind, M_bind, GameEngine.with_heap, Heap.new_unit, modify, mret, M_ret.
  cbn -[unit_refs building_refs].
  destruct (refs_snoc_unit (GameEngine.entities e) (length (Heap.units (GameEngine.heap e))))
    as [-> ->].
  repeat split.
  - rewrite H1. reflexivity.
  - exact H2.
  - apply NoDup_app. split; [exact H3|]. split; [|apply NoDup_singleton].
    intros r Hr Hin. apply list_elem_of_singleton in Hin. subst r.
    specialize (H4 _ Hr). lia.
  - intros i Hi. rewrite length_app. cbn.
    apply elem_of_app in Hi as [Hi|Hi].
    + specialize (H4 _ Hi). lia.
    + apply list_elem_of_singleton in Hi. inversion Hi. lia.
  - intros i Hi. apply elem_of_app in Hi as [Hi|Hi]; [auto|].
    apply list_elem_of_singleton in Hi. discriminate.
Qed.

Lemma stays_sound_add_building (b : Building.t N) :
  always stays_sound (add_building b).
Proof.
  intros e (H1 & H2 & H3 & H4 & H5). unfold sound.
  unfold add_building, mbind, M_bind, GameEngine.with_heap, Heap.new_building, modify,
    mret, M_ret.
  cbn -[unit_refs building_refs].
  destruct (refs_snoc_building (GameEngine.entities e)
              (length (Heap.buildings (GameEngine.heap e)))) as [-> ->].
  repeat split.
  - exact H1.
  - rewrite H2. reflexivity.
  - apply NoDup_app. split; [exact H3|]. split; [|apply NoDup_singleton].
    intros r Hr Hin. apply list_elem_of_singleton in Hin. subst r.
    specialize (H5 _ Hr). lia.
  - intros i Hi. apply elem_of_app in Hi as [Hi|Hi]; [auto|].
    apply list_elem_of_singleton in Hi. discriminate.
  - intros i Hi. rewrite length_app. cbn.
    apply elem_of_app in Hi as [Hi|Hi].
    + specialize (H5 _ Hi). lia.
    + apply list_elem_of_singleton in Hi. inversion Hi. lia.
Qed.

Ltac sound_step :=
  first [ always_step
        | apply stays_sound_add_unit
        | apply stays_sound_add_building
        | apply stays_sound_settings; settings ].

Lemma stays_sound_init_body : always stays_sound (init_body (N := N)).
Proof. unfold init_body, center_camera, set_map. repeat sound_step. Qed.

Lemma stays_sound_spawn (pos : N * N) : always stays_sound (spawn_swordsman_click pos).
Proof. unfold spawn_swordsman_click. repeat sound_step. Qed.

Lemma stays_sound_start (building_type : string) :
  always stays_sound (start_building_placement (N := N) building_type).
Proof. unfold start_building_placement. repeat sound_step. Qed.

Lemma stays_sound_place_tiles (b : nat) (px py w h : Z) :
  always stays_sound (place_tiles (N := N) b px py w h).
Proof. unfold place_tiles, set_map. repeat sound_step. Qed.

Lemma stays_sound_place (pos : N * N) (button : Z) :
  always stays_sound (place_building_click pos button).
Proof.
  unfold place_building_click. repeat sound_step. apply stays_sound_place_tiles.
Qed.

Lemma sound_empty_engine (screen_width screen_height : Z) (m : GameMap.t) :
  sound (empty_engine (N := N) screen_width screen_height m).
Proof.
  unfold sound, empty_engine. cbn.
  repeat split; try constructor; intros i Hi; inversion Hi.
Qed.

Lemma init_sound (terrain : Z -> Z -> TileType) (amount : Z -> Z -> Z)
    (e : GameEngine.t N) :
  init terrain amount = Ok e -> sound e.
Proof.
  unfold init.
  generalize (sound_empty_engine 1280 720 (GameMap.generated 71 71 terrain amount)).
  generalize (empty_engine (N := N) 1280 720 (GameMap.generated 71 71 terrain amount)).
  intros e0 Hs0 Hinit.
  pose proof (stays_sound_init_body e0 Hs0) as Hs.
  destruct (init_body e0) as [[[]|x] e1]; [|discriminate].
  inversion Hinit; subst e1. exact Hs.
Qed.

(** X20: in every engine that construction, ticks, button picks and spawn
    clicks can produce, [units] and [buildings] are exactly the units and
    the buildings of [entities], in the same order; no entity is listed
    twice; and every reference points to an object of the store. *)
Theorem reachable_sound (e : GameEngine.t N) : reachable e -> sound e.
Proof.
  induction 1 as [terrain amount e Hinit|inp e _ IH|building_type e _ IH|pos e _ IH _].
  - exact (init_sound terrain amount e Hinit).
  - destruct (evolves_update inp e) as (_ & Hs & _). apply Hs, IH.
  - apply stays_sound_start, IH.
  - apply stays_sound_spawn, IH.
Qed.

End Keeps.


(** ** Clicks: spawning and placing *)

Section Clicks.
Context {N : Type} `{Num N} `{Root N}.
Local Open Scope num_scope.



End Clicks.

(** ** The footprint of a placed building *)

Section Occupation.

Lemma index_set_tile_same (x y : Z) (f : Tile.t -> Tile.t) (m : GameMap.t) (t0 : Tile.t) :
  GameMap.index m x y = Ok t0 -> GameMap.index (set_tile x y f m) x y = Ok (f t0).
Proof.
  unfold GameMap.index, set_tile. cbn.
  destruct (GameMap.tiles m !! Z.to_nat y) as [row|] eqn:Erow; [|discriminate].
  destruct (row !! Z.to_nat x) as [t|] eqn:Et; [|discriminate]. intros [= ->].
  rewrite list_lookup_alter_eq, Erow. cbn. rewrite list_lookup_alter_eq, Et. reflexivity.
Qed.

Lemma index_set_tile_any (x y x' y' : Z) (f : Tile.t -> Tile.t) (m : GameMap.t)
    (t0 : Tile.t) :
  GameMap.index m x y = Ok t0 ->
  GameMap.index (set_tile x' y' f m) x y = Ok t0 \/
  GameMap.index (set_tile x' y' f m) x y = Ok (f t0).
Proof.
  unfold GameMap.index, set_tile. cbn.
  destruct (GameMap.tiles m !! Z.to_nat y) as [row|] eqn:Erow; [|discriminate].
  destruct (row !! Z.to_nat x) as [t|] eqn:Et; [|discriminate]. intros [= ->].
  destruct (decide (Z.to_nat y' = Z.to_nat y)) as [Ey|Ey].
  - rewrite Ey, list_lookup_alter_eq, Erow. cbn.
    destruct (decide (Z.to_nat x' = Z.to_nat x)) as [Ex|Ex].
    + rewrite Ex, list_lookup_alter_eq, Et. auto.
    + rewrite list_lookup_alter_ne, Et by exact Ex. auto.
  - rewrite list_lookup_alter_ne, Erow, Et by exact Ey. auto.
Qed.

Lemma wf_set_tile (x y : Z) (b : option nat) (m : GameMap.t) :
  GameMap.wf m -> GameMap.wf (set_tile x y (Tile.set_building b) m).
Proof.
  intros Hwf tx ty Hx Hy. destruct (Hwf tx ty Hx Hy) as (t0 & Hi & Htx & Hty).
  destruct (index_set_tile_any tx ty x y (Tile.set_building b) m t0 Hi) as [->| ->];
    eexists; (split; [reflexivity|]); cbn; auto.
Qed.

Lemma occupy_cons (b : nat) (c : Z * Z) (cells : list (Z * Z)) (m : GameMap.t) :
  occupy b (c :: cells) m
  = occupy b cells (set_tile c.1 c.2 (Tile.set_building (Some b)) m).
Proof. reflexivity. Qed.

Lemma occupy_dims (b : nat) (cells : list (Z * Z)) (m : GameMap.t) :
  GameMap.width (occupy b cells m) = GameMap.width m /\
  GameMap.height (occupy b cells m) = GameMap.height m.
Proof.
  revert m. induction cells as [|c cells IH]; intros m; [auto|].
  rewrite occupy_cons.
  destruct (IH (set_tile c.1 c.2 (Tile.set_building (Some b)) m)) as [-> ->]. auto.
Qed.

Lemma occupy_keeps (b : nat) (cells : list (Z * Z)) (m : GameMap.t) (x y : Z) (t : Tile.t) :
  GameMap.index m x y = Ok t -> Tile.building t = Some b ->
  exists t', GameMap.index (occupy b cells m) x y = Ok t' /\ Tile.building t' = Some b.
Proof.
  revert m t. induction cells as [|c cells IH]; intros m t Hi Hb; [eauto|].
  rewrite occupy_cons.
  destruct (index_set_tile_any x y c.1 c.2 (Tile.set_building (Some b)) m t Hi) as [Hi'|Hi'];
    eapply IH; eauto.
Qed.

Lemma occupy_sets (b : nat) (cells : list (Z * Z)) (m : GameMap.t) :
  (forall c, c ∈ cells -> exists t, GameMap.index m c.1 c.2 = Ok t) ->
  forall c, c ∈ cells ->
            exists t', GameMap.index (occupy b cells m) c.1 c.2 = Ok t' /\
                       Tile.building t' = Some b.
Proof.
  revert m. induction cells as [|c0 cells IH]; intros m Hall c Hc; [inversion Hc|].
  rewrite occupy_cons. apply elem_of_cons in Hc as [->|Hc].
  - destruct (Hall c0) as (t0 & Hi0); [left|].
    apply (occupy_keeps b cells _ c0.1 c0.2 (Tile.set_building (Some b) t0)).
    + apply index_set_tile_same. exact Hi0.
    + reflexivity.
  - apply IH; [|exact Hc]. intros c' Hc'. destruct (Hall c') as (t & Hi); [right; exact Hc'|].
    destruct (index_set_tile_any c'.1 c'.2 c0.1 c0.2 (Tile.set_building (Some b)) m t Hi);
      eauto.
Qed.

Lemma can_build_at_true (m : GameMap.t) (x y w h : Z) :
  GameMap.wf m -> GameMap.can_build_at m x y w h = Ok true ->
  forall dy dx, dy ∈ seqZ 0 h -> dx ∈ seqZ 0 w -> GameMap.buildable m (x + dx) (y + dy).
Proof.
  intros Hwf E. unfold GameMap.can_build_at in E.
  destruct (all_of_spec
              (fun dy => GameMap.all_of (fun dx => GameMap.tile_ok m (x + dx) (y + dy))
                                        (seqZ 0 w))
              (fun dy => forall dx, dx ∈ seqZ 0 w -> GameMap.buildable m (x + dx) (y + dy))
              (seqZ 0 h)) as (b & Hb & Hiff).
  { intros dy _. apply all_of_spec. intros dx _. apply tile_ok_spec, Hwf. }
  rewrite E in Hb. inversion Hb; subst b. intros dy dx Hdy Hdx.
  apply (proj1 Hiff eq_refl dy Hdy dx Hdx).
Qed.

Lemma footprint_spec (px py w h tx ty : Z) :
  (tx, ty) ∈ footprint px py w h <-> (px <= tx < px + w /\ py <= ty < py + h).
Proof.
  unfold footprint. rewrite list_elem_of_bind. split.
  - intros (dy & Hin & Hdy). apply list_elem_of_bind in Hin as (dx & Hin & Hdx).
    apply list_elem_of_singleton in Hin. inversion Hin; subst.
    apply elem_of_seqZ in Hdy, Hdx. lia.
  - intros [Hx Hy]. exists (ty - py). split; [|apply elem_of_seqZ; lia].
    apply list_elem_of_bind. exists (tx - px). split; [|apply elem_of_seqZ; lia].
    apply list_elem_of_singleton. f_equal; lia.
Qed.

End Occupation.

Section PlaceTiles.
Context {N : Type} `{Num N} `{Root N}.
Local Open Scope num_scope.

Lemma add_building_run (b : Building.t N) (e : GameEngine.t N) :
  add_building b e
  = (Ok (length (Heap.buildings (GameEngine.heap e))),
     GameEngine.set_buildings
       (GameEngine.buildings e ++ [length (Heap.buildings (GameEngine.heap e))])
       (GameEngine.set_entities
          (GameEngine.entities e ++ [RBuilding (length (Heap.buildings (GameEngine.heap e)))])
          (GameEngine.set_heap
             (Heap.mk (Heap.units (GameEngine.heap e))
                      (Heap.buildings (GameEngine.heap e) ++ [b])
                      (Heap.resources (GameEngine.heap e))) e))).
Proof. reflexivity. Qed.

Lemma place_row (b : nat) (px py dy : Z) (dxs : list Z) (e : GameEngine.t N) :
  GameMap.wf (GameEngine.game_map e) ->
  (forall dx, dx ∈ dxs -> cell_ok (GameEngine.game_map e) (px + dx, py + dy)%Z) ->
  foldM (fun (_ : unit) (dx : Z) =>
           e ← gets id;
           t ← lift (GameMap.get_tile_at (GameEngine.game_map e) (px + dx) (py + dy));
           match t with
           | Some _ =>
               set_map (N := N)
                 (set_tile (px + dx) (py + dy) (Tile.set_building (Some b)))
           | None => mret tt
           end) dxs tt e
  = (Ok tt,
     GameEngine.set_game_map
       (occupy b (dx ← dxs; [(px + dx, py + dy)%Z]) (GameEngine.game_map e)) e).
Proof.
  revert e. induction dxs as [|dx dxs IH]; intros e Hwf Hok.
  - cbn. destruct e; reflexivity.
  - cbn [foldM]. unfold mbind at 1, M_bind at 1.
    unfold mbind at 1, M_bind at 1, gets at 1, id.
    destruct (Hok dx) as [Hx Hy]; [left|]. cbn [fst snd] in Hx, Hy.
    destruct (get_tile_at_wf (GameEngine.game_map e) (px + dx) (py + dy) Hwf)
      as [(_ & _ & tile & _ & Ht)|[Hout _]]; [|exfalso; apply Hout; lia].
    unfold mbind at 1, M_bind at 1, lift at 1. rewrite Ht.
    unfold set_map at 1, modify at 1.
    rewrite IH.
    + reflexivity.
    + apply wf_set_tile. exact Hwf.
    + intros dx' Hdx'. apply (Hok dx'). right. exact Hdx'.
Qed.

Lemma occupy_app (b : nat) (l1 l2 : list (Z * Z)) (m : GameMap.t) :
  occupy b (l1 ++ l2) m = occupy b l2 (occupy b l1 m).
Proof. unfold occupy. apply foldl_app. Qed.

Lemma wf_occupy (b : nat) (cells : list (Z * Z)) (m : GameMap.t) :
  GameMap.wf m -> GameMap.wf (occupy b cells m).
Proof.
  revert m. induction cells as [|c cells IH]; intros m Hwf; [exact Hwf|].
  rewrite occupy_cons. apply IH, wf_set_tile, Hwf.
Qed.

Lemma place_tiles_run (b : nat) (px py w h : Z) (e : GameEngine.t N) :
  GameMap.wf (GameEngine.game_map e) ->
  (forall c, c ∈ footprint px py w h -> cell_ok (GameEngine.game_map e) c) ->
  place_tiles b px py w h e
  = (Ok tt, GameEngine.set_game_map
              (occupy b (footprint px py w h) (GameEngine.game_map e)) e).
Proof.
  unfold place_tiles, footprint. generalize (seqZ 0 h) as dys. intros dys. revert e.
  induction dys as [|dy dys IH]; intros e Hwf Hok.
  - cbn. destruct e; reflexivity.
  - cbn [foldM]. unfold mbind at 1, M_bind at 1.
    rewrite place_row.
    + rewrite IH.
      * cbn [mbind list_bind]. rewrite occupy_app. reflexivity.
      * apply wf_occupy. exact Hwf.
      * intros c Hc. unfold cell_ok. cbn [GameEngine.game_map GameEngine.set_game_map].
        destruct (occupy_dims b (dx ← seqZ 0 w; [(px + dx, py + dy)%Z])
                    (GameEngine.game_map e)) as [-> ->].
        apply Hok. cbn [mbind list_bind]. apply elem_of_app. right. exact Hc.
    + exact Hwf.
    + intros dx Hdx. apply Hok. cbn [mbind list_bind]. apply elem_of_app. left.
      apply list_elem_of_bind. exists dx. split; [left|exact Hdx].
Qed.


(** X24: on a well-formed map, a left click that ends the placement has
    added one building: the footprint was buildable, the new building holds
    the stockpile and is listed last, every tile of the footprint now
    carries it, the same footprint is refused from now on, and no resource
    was paid. *)
Theorem placed_building_occupies (pos : N * N) (e e' : GameEngine.t N) :
  GameMap.wf (GameEngine.game_map e) ->
  place_building_click pos 1 e = (Ok true, e') ->
  GameEngine.building_to_place e' = None ->
  exists building_type place_x place_y width height,
    let n := length (Heap.buildings (GameEngine.heap e)) in
    GameEngine.building_to_place e = Some building_type /\
    (1 <= width)%Z /\ (1 <= height)%Z /\
    GameMap.can_build_at (GameEngine.game_map e) place_x place_y width height = Ok true /\
    Heap.buildings (GameEngine.heap e')
    = Heap.buildings (GameEngine.heap e)
      ++ [Building.init (nZ place_x) (nZ place_y) building_type true] /\
    Heap.units (GameEngine.heap e') = Heap.units (GameEngine.heap e) /\
    Heap.resources (GameEngine.heap e') = Heap.resources (GameEngine.heap e) /\
    GameEngine.entities e' = GameEngine.entities e ++ [RBuilding n] /\
    GameEngine.buildings e' = GameEngine.buildings e ++ [n] /\
    GameEngine.units e' = GameEngine.units e /\
    (forall tx ty,
       (place_x <= tx < place_x + width)%Z -> (place_y <= ty < place_y + height)%Z ->
       exists tile, GameMap.index (GameEngine.game_map e') tx ty = Ok tile /\
                    Tile.building tile = Some n) /\
    GameMap.can_build_at (GameEngine.game_map e') place_x place_y width height = Ok false.
Proof.
  intros Hwf E Hnone. unfold place_building_click in E.
  step_in E as e0 e1 E0. leaf_in E0. unfold id in E.
  step_in E as world_x e1 E1. leaf_in E1.
  step_in E as world_y e1 E2. leaf_in E2.
  destruct (GameEngine.placement_preview e) as [preview|]; [|inversion E].
  destruct (GameEngine.building_to_place e) as [building_type|] eqn:Eb;
    [|inversion E].
  destruct (GameMap.get_tile_at_screen_pos _ _ _ _ _ _) as [tile|];
    [|inversion E].
  destruct (String.eqb building_type EmptyString); [inversion E|].
  step_in E as pw e1 E3. leaf_in E3.
  step_in E as ph e1 E4. leaf_in E4.
  set (width := Z.max 1 (pw / 64)) in *. set (height := Z.max 1 (ph / 64)) in *.
  set (place_x := (Tile.x tile - width / 2)%Z) in *.
  set (place_y := (Tile.y tile - height / 2)%Z) in *.
  step_in E as u e1 E5. leaf_in E. cbn [Z.eqb Pos.eqb] in E5.
  step_in E5 as ok e2 E6. leaf_in E6.
  destruct ok; [|leaf_in E5; congruence].
  pose proof (can_build_at_true _ _ _ _ _ Hwf E6) as Hbuildable.
  assert (Hcells : forall c, c ∈ footprint place_x place_y width height ->
                             cell_ok (GameEngine.game_map e) c).
  { intros [tx ty] Hc. apply footprint_spec in Hc as [Hx Hy].
    destruct (Hbuildable (ty - place_y)%Z (tx - place_x)%Z) as (Hbx & Hby & _);
      try (apply elem_of_seqZ; lia).
    unfold cell_ok. cbn. lia. }
  step_in E5 as u1 e3 E7. step_in E5 as u2 e4 E8. leaf_in E5. leaf_in E8.
  assert (He3 : e3 = GameEngine.set_game_map
                      (occupy (length (Heap.buildings (GameEngine.heap e)))
                              (footprint place_x place_y width height)
                              (GameEngine.game_map e))
                      (add_building
                         (Building.init (nZ place_x) (nZ place_y) building_type true) e).2).
  { unfold catch in E7. inversion E7 as [[E7']]. clear E7 E7'.
    unfold mbind at 1, M_bind at 1. rewrite add_building_run.
    rewrite place_tiles_run by assumption. reflexivity. }
  clear E7. rewrite add_building_run in He3. cbn [snd] in He3. subst e3.
  set (n := length (Heap.buildings (GameEngine.heap e))) in *.
  exists building_type, place_x, place_y, width, height. cbv zeta. fold n.
  split; [reflexivity|]. split; [lia|]. split; [lia|]. split; [exact E6|].
  cbn -[occupy footprint].
  repeat (split; [reflexivity|]).
  assert (Hocc : forall tx ty,
             (place_x <= tx < place_x + width)%Z ->
             (place_y <= ty < place_y + height)%Z ->
             exists tile0,
               GameMap.index (occupy n (footprint place_x place_y width height)
                                     (GameEngine.game_map e)) tx ty = Ok tile0 /\
               Tile.building tile0 = Some n).
  { intros tx ty Hx Hy.
    apply (occupy_sets n (footprint place_x place_y width height) (GameEngine.game_map e))
      with (c := (tx, ty)).
    - intros [cx cy] Hc. destruct (Hcells _ Hc) as [Hcx Hcy].
      destruct (Hwf cx cy Hcx Hcy) as (t & Hi & _). eauto.
    - apply footprint_spec. auto. }
  split; [exact Hocc|].
  destruct (Hocc place_x place_y) as (tile0 & Hi0 & Hb0); [lia..|].
  destruct (Hcells (place_x, place_y)) as [Hx0 Hy0]; [apply footprint_spec; lia|].
  cbn [fst snd] in Hx0, Hy0.
  destruct (occupy_dims n (footprint place_x place_y width height) (GameEngine.game_map e))
    as [Hw Hh].
  assert (Htile : GameMap.tile_ok
                    (occupy n (footprint place_x place_y width height)
                            (GameEngine.game_map e)) place_x place_y = Ok false).
  { unfold GameMap.tile_ok, GameMap.get_tile_at. rewrite Hw, Hh.
    replace ((0 <=? place_x) && (place_x <? GameMap.width (GameEngine.game_map e))
             && (0 <=? place_y) && (place_y <? GameMap.height (GameEngine.game_map e)))%Z
      with true by (symmetry; repeat (apply andb_true_intro; split); lia).
    rewrite Hi0. cbn. rewrite Hb0.
    rewrite (bool_decide_true (is_Some (Some n))) by eauto.
    rewrite orb_true_r. reflexivity. }
  unfold GameMap.can_build_at.
  rewrite (seqZ_cons 0 height), (seqZ_cons 0 width) by lia.
  cbn [GameMap.all_of]. rewrite !Z.add_0_r. rewrite Htile. reflexivity.
Qed.

End PlaceTiles.


(** ** What a run keeps of the map and of the camera *)

Section MapKept.
Context {N : Type} `{Num N} `{Root N}.
Local Open Scope num_scope.

#[global] Instance keeps_map_preorder : PreOrder (@keeps_map N).
Proof.
  split.
  - intros e. repeat split; auto.
  - intros e1 e2 e3 (Hw1 & Hh1 & Hf1) (Hw2 & Hh2 & Hf2).
    split; [congruence|]. split; [congruence|auto].
Qed.

Lemma wf_set_tile_gen (x y : Z) (f : Tile.t -> Tile.t) (m : GameMap.t) :
  (forall t, Tile.x (f t) = Tile.x t /\ Tile.y (f t) = Tile.y t) ->
  GameMap.wf m -> GameMap.wf (set_tile x y f m).
Proof.
  intros Hf Hwf tx ty Hx Hy. destruct (Hwf tx ty Hx Hy) as (t0 & Hi & Htx & Hty).
  destruct (index_set_tile_any tx ty x y f m t0 Hi) as [->| ->];
    eexists; (split; [reflexivity|]); [auto|].
  destruct (Hf t0) as [-> ->]. auto.
Qed.

Lemma wf_clear_tiles (f : Tile.t -> Tile.t) (m : GameMap.t) :
  (forall t, Tile.x (f t) = Tile.x t /\ Tile.y (f t) = Tile.y t) ->
  GameMap.wf m -> GameMap.wf (clear_tiles f m).
Proof.
  intros Hf Hwf tx ty Hx Hy. destruct (Hwf tx ty Hx Hy) as (t0 & Hi & Htx & Hty).
  exists (f t0). destruct (Hf t0) as [-> ->]. split; [|auto].
  unfold GameMap.index, clear_tiles in *. cbn.
  rewrite list_lookup_fmap.
  destruct (GameMap.tiles m !! Z.to_nat ty) as [row|]; [|discriminate]. cbn.
  rewrite list_lookup_fmap.
  destruct (row !! Z.to_nat tx) as [t|]; [|discriminate]. cbn.
  inversion Hi. reflexivity.
Qed.

Lemma keeps_map_with_heap {A : Type} (m : M (Heap.t N) A) :
  always keeps_map (GameEngine.with_heap m).
Proof.
  intros e. unfold GameEngine.with_heap. destruct (m (GameEngine.heap e)).
  repeat split; auto.
Qed.

Lemma keeps_map_same (f : GameEngine.t N -> GameEngine.t N) :
  (forall e, GameEngine.game_map (f e) = GameEngine.game_map e) ->
  always keeps_map (modify f).
Proof. intros Hf e. cbn. unfold keeps_map. rewrite Hf. auto. Qed.

Lemma keeps_map_set_tile (x y : Z) (f : Tile.t -> Tile.t) :
  (forall t, Tile.x (f t) = Tile.x t /\ Tile.y (f t) = Tile.y t) ->
  always keeps_map
    (modify (fun e : GameEngine.t N =>
               GameEngine.set_game_map (set_tile x y f (GameEngine.game_map e)) e)).
Proof.
  intros Hf e. cbn. split; [reflexivity|]. split; [reflexivity|].
  apply wf_set_tile_gen, Hf.
Qed.

Lemma keeps_map_remove_unit (d : nat) (e : GameEngine.t N) : keeps_map e (remove_unit d e).
Proof.
  unfold remove_unit. cbn. split; [reflexivity|]. split; [reflexivity|].
  apply wf_clear_tiles. intros t. case_bool_decide; auto.
Qed.

Lemma keeps_map_remove_building (b : nat) (e : GameEngine.t N) :
  keeps_map e (remove_building b e).
Proof.
  unfold remove_building. cbn. split; [reflexivity|]. split; [reflexivity|].
  apply wf_clear_tiles. intros t. case_bool_decide; auto.
Qed.

Lemma keeps_map_foldl {A : Type} (f : GameEngine.t N -> A -> GameEngine.t N) (l : list A)
    (e : GameEngine.t N) :
  (forall e a, keeps_map e (f e a)) -> keeps_map e (foldl f e l).
Proof.
  intros Hf. revert e. induction l as [|a l IH]; intros e; cbn; [reflexivity|].
  etransitivity; [apply Hf | apply IH].
Qed.

Ltac map_step :=
  first [ always_step
        | apply keeps_map_with_heap
        | apply keeps_map_same; intros ?; reflexivity
        | apply keeps_map_set_tile; intros ?; split; reflexivity ].

Lemma keeps_map_update (inp : Input N) : always keeps_map (update inp).
Proof.
  unfold update, update_body, simulate, move_camera, move_selected, clamp_camera_position,
    update_entities, update_preview, check_win.
  repeat map_step.
  - apply always_modify. intros e. apply keeps_map_foldl. intros; apply keeps_map_remove_unit.
  - apply always_modify. intros e. apply keeps_map_foldl.
    intros; apply keeps_map_remove_building.
Qed.

Lemma keeps_map_init_body : always keeps_map (init_body (N := N)).
Proof.
  unfold init_body, center_camera, set_map, add_building, add_unit. repeat map_step.
Qed.

Lemma keeps_map_spawn (pos : N * N) : always keeps_map (spawn_swordsman_click pos).
Proof. unfold spawn_swordsman_click, add_unit. repeat map_step. Qed.

Lemma keeps_map_start (building_type : string) :
  always keeps_map (start_building_placement (N := N) building_type).
Proof. unfold start_building_placement. repeat map_step. Qed.

Lemma init_map (terrain : Z -> Z -> TileType) (amount : Z -> Z -> Z) (e : GameEngine.t N) :
  init terrain amount = Ok e ->
  GameMap.wf (GameEngine.game_map e) /\
  GameMap.width (GameEngine.game_map e) = 71%Z /\
  GameMap.height (GameEngine.game_map e) = 71%Z.
Proof.
  unfold init.
  assert (Hstart : GameMap.wf (GameEngine.game_map
                             (empty_engine (N := N) 1280 720
                                (GameMap.generated 71 71 terrain amount))) /\
               GameMap.width (GameEngine.game_map
                                (empty_engine (N := N) 1280 720
                                   (GameMap.generated 71 71 terrain amount))) = 71%Z /\
               GameMap.height (GameEngine.game_map
                                 (empty_engine (N := N) 1280 720
                                    (GameMap.generated 71 71 terrain amount))) = 71%Z).
  { split; [apply generated_wf|]. split; reflexivity. }
  revert Hstart.
  generalize (empty_engine (N := N) 1280 720 (GameMap.generated 71 71 terrain amount)).
  intros e0 (Hwf & Hw & Hh) Hinit.
  destruct (keeps_map_init_body e0) as (Hw' & Hh' & Hwf').
  destruct (init_body e0) as [[[]|x] e1]; [|discriminate].
  inversion Hinit; subst e1. cbn [snd] in *. split; [auto|]. split; congruence.
Qed.

(** X21: in every engine that construction, ticks, button picks and spawn
    clicks can produce, the map is 71 by 71 and well formed: each position
    of the grid holds the tile that carries its coordinates. *)
Theorem reachable_map_wf (e : GameEngine.t N) :
  reachable e ->
  GameMap.wf (GameEngine.game_map e) /\
  GameMap.width (GameEngine.game_map e) = 71%Z /\
  GameMap.height (GameEngine.game_map e) = 71%Z.
Proof.
  induction 1 as [terrain amount e Hinit|inp e _ IH|building_type e _ IH|pos e _ IH _].
  - exact (init_map terrain amount e Hinit).
  - destruct IH as (Hwf & Hw & Hh). destruct (keeps_map_update inp e) as (Hw' & Hh' & Hwf').
    unfold tick. split; [auto|]. split; congruence.
  - destruct IH as (Hwf & Hw & Hh).
    destruct (keeps_map_start building_type e) as (Hw' & Hh' & Hwf').
    split; [auto|]. split; congruence.
  - destruct IH as (Hwf & Hw & Hh). destruct (keeps_map_spawn pos e) as (Hw' & Hh' & Hwf').
    split; [auto|]. split; congruence.
Qed.

End MapKept.

Section CameraKept.
Context {N : Type} `{Num N} `{Root N}.
Local Open Scope num_scope.

#[global] Instance holds_camera_preorder : PreOrder (@holds_camera N).
Proof.
  split.
  - intros e. split; reflexivity.
  - intros e1 e2 e3 [Hx1 Hy1] [Hx2 Hy2]. split; congruence.
Qed.

Lemma holds_camera_with_heap {A : Type} (m : M (Heap.t N) A) :
  always holds_camera (GameEngine.with_heap m).
Proof.
  intros e. unfold GameEngine.with_heap. destruct (m (GameEngine.heap e)). split; reflexivity.
Qed.

Lemma holds_camera_foldl {A : Type} (f : GameEngine.t N -> A -> GameEngine.t N)
    (l : list A) (e : GameEngine.t N) :
  (forall e a, holds_camera e (f e a)) -> holds_camera e (foldl f e l).
Proof.
  intros Hf. revert e. induction l as [|a l IH]; intros e; cbn; [reflexivity|].
  etransitivity; [apply Hf | apply IH].
Qed.

Ltac camera_step :=
  first [ always_step
        | apply holds_camera_with_heap
        | apply always_modify; intros ?; split; reflexivity ].

Lemma holds_camera_tail (inp : Input N) :
  always holds_camera (update_entities (N := N)) /\
  always holds_camera (update_preview inp) /\
  always holds_camera (check_win (N := N)).
Proof.
  split; [|split].
  - unfold update_entities. repeat camera_step;
      apply always_modify; intros e; apply holds_camera_foldl; intros; split; reflexivity.
  - unfold update_preview. repeat camera_step.
  - unfold check_win. repeat camera_step.
Qed.

(** X15: after a tick of the running game that completes, the camera lies
    within the limits on both axes, provided the limits are numbers and in
    order (min <= max); the limits themselves are those of before the
    tick. *)
Theorem tick_leaves_camera_clamped `{!NumOrder N} (inp : Input N) (e : GameEngine.t N)
    (min_x max_x min_y max_y : N) :
  GameEngine.paused e = false ->
  (update_body inp e).1 = Ok tt ->
  get_camera_limits e = (min_x, max_x, min_y, max_y) ->
  (min_x <=? min_x) = true -> (max_x <=? max_x) = true -> (min_x <=? max_x) = true ->
  (min_y <=? min_y) = true -> (max_y <=? max_y) = true -> (min_y <=? max_y) = true ->
  let e' := tick inp e in
  (min_x <=? GameEngine.camera_x e') = true /\ (GameEngine.camera_x e' <=? max_x) = true /\
  (min_y <=? GameEngine.camera_y e') = true /\ (GameEngine.camera_y e' <=? max_y) = true /\
  get_camera_limits e' = get_camera_limits e.
Proof.
  intros Hp Hok Hlim Hx1 Hx2 Hx3 Hy1 Hy2 Hy3. cbv zeta.
  assert (Hlimits : forall e1 e2 : GameEngine.t N,
             evolves e1 e2 -> get_camera_limits e2 = get_camera_limits e1).
  { intros e1 e2 (_ & _ & _ & Hz & _ & Hw & Hh & Hmw & Hmh).
    unfold get_camera_limits. rewrite Hz, Hw, Hh, Hmw, Hmh. reflexivity. }
  assert (Hfinal : get_camera_limits (tick inp e) = get_camera_limits e)
    by apply Hlimits, (evolves_update inp e).
  revert Hfinal. unfold tick, update, catch. cbn [snd].
  destruct (update_body inp e) as [r e'] eqn:E. cbn in Hok. subst r. cbn [snd].
  intros Hfinal.
  unfold update_body in E. step_in E as e0 e1 E0. leaf_in E0. unfold id in E.
  rewrite Hp in E. cbn [negb] in E. step_in E as u e1 E1.
  unfold simulate in E1. step_in E1 as e0 e2 E2. leaf_in E2. unfold id in E1.
  step_in E1 as u1 e2 E3. step_in E1 as u2 e3 E4. step_in E1 as u3 e4 E5.
  step_in E1 as u4 e5 E6. step_in E1 as u5 e6 E7.
  destruct (holds_camera_tail inp) as (Hent & Hprev & Hwin).
  pose proof (Hent e5) as [Hx6 Hy6]. rewrite E7 in Hx6, Hy6. cbn [snd] in Hx6, Hy6.
  pose proof (Hprev e6) as [Hx7 Hy7]. rewrite E1 in Hx7, Hy7. cbn [snd] in Hx7, Hy7.
  pose proof (Hwin e1) as [Hx8 Hy8]. rewrite E in Hx8, Hy8. cbn [snd] in Hx8, Hy8.
  assert (Hlim4 : get_camera_limits e4 = (min_x, max_x, min_y, max_y)).
  { rewrite <- Hlim. apply Hlimits.
    assert (Hai : always evolves
                    (GameEngine.with_heap
                       (foldM (fun _ enemy => enemy_ai (GameEngine.units e) enemy)
                              (GameEngine.units e) tt))).
    { apply evolves_with_heap. apply always_foldM; [typeclasses eauto|].
      intros ? ?. apply tame_enemy_ai. }
    pose proof (Hai e) as Ha. rewrite E3 in Ha. cbn [snd] in Ha.
    pose proof (evolves_move_camera inp e2) as Hb. rewrite E4 in Hb. cbn [snd] in Hb.
    pose proof (evolves_move_selected inp e3) as Hc. rewrite E5 in Hc. cbn [snd] in Hc.
    etransitivity; [exact Ha|]. etransitivity; [exact Hb | exact Hc]. }
  destruct (clamp_camera_spec e4 min_x max_x min_y max_y Hlim4 Hx1 Hx2 Hx3 Hy1 Hy2 Hy3)
    as (C1 & C2 & C3 & C4 & _).
  assert (He5 : e5 = (clamp_camera_position e4).2) by (rewrite E6; reflexivity).
  rewrite Hx8, Hy8, Hx7, Hy7, Hx6, Hy6, He5. auto.
Qed.

End CameraKept.

(** ** The further properties at concrete inputs *)

Section MoreWitnesses.
Import Scenario.

Lemma update_spares_bystanders_witness :
  Heap.resources (Unit_update 0 [0%nat; 1%nat] crowded).2 = Heap.resources crowded /\
  Heap.units (Unit_update 0 [0%nat; 1%nat] crowded).2 !! 1%nat
  = Some (swordsman 20 0 "player").
Proof.
  destruct (update_spares_bystanders 0 [0%nat; 1%nat] crowded
              (Unit_update 0 [0%nat; 1%nat] crowded).2
              (Unit.move_to (nZ 100, nZ 0) (swordsman 0 0 "player")))
    as (Hr & Hu & _).
  - reflexivity.
  - vm_compute. reflexivity.
  - split; [exact Hr|]. apply Hu.
    + discriminate.
    + reflexivity.
    + intros _. vm_compute. reflexivity.
Defined.

Lemma combat_freezes_movement_witness :
  exists U', Heap.units (Unit_update 0 [0%nat] siege).2 !! 0%nat = Some U' /\
             Unit.x U' = nZ 96 /\ Unit.y U' = nZ 48 /\ Unit.target_pos U' = None.
Proof.
  apply (combat_freezes_movement 0 [0%nat] siege (Unit_update 0 [0%nat] siege).2
           (Unit.set_all_buildings [0%nat]
              (Unit.move_to (nZ 300, nZ 300) (swordsman 96 48 "player")))).
  - reflexivity.
  - vm_compute. reflexivity.
  - right. exists 0%nat, (Building.init (N := float) (nZ 65) (nZ 5) "EnemyStonekeep" false).
    split; [by_decision|]. split; vm_compute; reflexivity.
Defined.

Lemma idle_unit_is_unchanged_witness :
  Unit_update 1 [0%nat; 1%nat] crowded = (Ok tt, crowded).
Proof.
  apply (idle_unit_is_unchanged 1 [0%nat; 1%nat] crowded (swordsman 20 0 "player"));
    vm_compute; reflexivity.
Defined.

Lemma update_keeps_identity_witness :
  (forall i,
     match Heap.units duel !! i with
     | Some u =>
         exists px py tp hp,
           Heap.units (Unit_update 0 [0%nat; 1%nat] duel).2 !! i
           = Some (Unit.set_pos px py (Unit.set_target_pos tp (Unit.set_health hp u))) /\
           (i <> 0%nat -> px = Unit.x u /\ py = Unit.y u /\ tp = Unit.target_pos u)
     | None => Heap.units (Unit_update 0 [0%nat; 1%nat] duel).2 !! i = None
     end) /\
  (forall j,
     match Heap.buildings duel !! j with
     | Some B =>
         exists hp, Heap.buildings (Unit_update 0 [0%nat; 1%nat] duel).2 !! j
                    = Some (Building.set_health hp B)
     | None => Heap.buildings (Unit_update 0 [0%nat; 1%nat] duel).2 !! j = None
     end).
Proof.
  apply (update_keeps_identity 0 [0%nat; 1%nat] duel (Unit_update 0 [0%nat; 1%nat] duel).2
           (swordsman 0 0 "player")).
  - reflexivity.
  - vm_compute. reflexivity.
Defined.

Lemma enemy_ai_targets_witness :
  exists target T,
    target ∈ [0%nat; 1%nat] /\ Heap.units duel !! target = Some T /\
    in_sight (swordsman 10 0 "enemy") T = true /\
    (enemy_ai [0%nat; 1%nat] 1 duel).2
    = Heap.with_unit 1 (Unit.move_to (Unit.x T, Unit.y T)) duel.
Proof.
  pose proof (enemy_ai_targets [0%nat; 1%nat] 1 duel (enemy_ai [0%nat; 1%nat] 1 duel).2
                (swordsman 10 0 "enemy")) as Hai.
  replace (String.eqb (Unit.team (swordsman 10 0 "enemy")) "enemy"
           && sees duel (swordsman 10 0 "enemy") [0%nat; 1%nat]) with true in Hai
    by (vm_compute; reflexivity).
  apply Hai.
  - reflexivity.
  - vm_compute. reflexivity.
Defined.

Lemma paused_tick_only_checks_win_witness :
  tick idle Scene.halted = Scene.halted \/
  (GameEngine.win_message_shown Scene.halted = false /\ enemy_defeated Scene.halted /\
   tick idle Scene.halted = GameEngine.set_win_message_shown true Scene.halted).
Proof. apply (paused_tick_only_checks_win idle Scene.halted). vm_compute. reflexivity. Defined.

Lemma tick_leaves_camera_clamped_witness :
  let e' := tick idle Scene.astray in
  (nZ (-1092) <=? GameEngine.camera_x e')%num = true /\
  (GameEngine.camera_x e' <=? nZ 100)%num = true /\
  (nZ (-516) <=? GameEngine.camera_y e')%num = true /\
  (GameEngine.camera_y e' <=? nZ 100)%num = true /\
  get_camera_limits e' = get_camera_limits Scene.astray.
Proof.
  apply (tick_leaves_camera_clamped idle Scene.astray
           (nZ (-1092)) (nZ 100) (nZ (-516)) (nZ 100));
    vm_compute; reflexivity.
Defined.



Lemma reachable_sound_witness : sound Scene.start.
Proof. apply (reachable_sound Scene.start). apply reachable_fresh. Defined.

Lemma reachable_map_wf_witness :
  GameMap.wf (GameEngine.game_map Scene.start) /\
  GameMap.width (GameEngine.game_map Scene.start) = 71 /\
  GameMap.height (GameEngine.game_map Scene.start) = 71.
Proof. apply (reachable_map_wf Scene.start). apply reachable_fresh. Defined.

Lemma placed_building_occupies_witness :
  let e' := (place_building_click (nZ 0, nZ 0) 1 Scene.farming).2 in
  exists building_type place_x place_y width height,
    let n := length (Heap.buildings (GameEngine.heap Scene.farming)) in
    GameEngine.building_to_place Scene.farming = Some building_type /\
    1 <= width /\ 1 <= height /\
    GameMap.can_build_at (GameEngine.game_map Scene.farming) place_x place_y width height
    = Ok true /\
    Heap.buildings (GameEngine.heap e')
    = Heap.buildings (GameEngine.heap Scene.farming)
      ++ [Building.init (nZ place_x) (nZ place_y) building_type true] /\
    Heap.units (GameEngine.heap e') = Heap.units (GameEngine.heap Scene.farming) /\
    Heap.resources (GameEngine.heap e') = Heap.resources (GameEngine.heap Scene.farming) /\
    GameEngine.entities e' = GameEngine.entities Scene.farming ++ [RBuilding n] /\
    GameEngine.buildings e' = GameEngine.buildings Scene.farming ++ [n] /\
    GameEngine.units e' = GameEngine.units Scene.farming /\
    (forall tx ty,
       place_x <= tx < place_x + width -> place_y <= ty < place_y + height ->
       exists tile, GameMap.index (GameEngine.game_map e') tx ty = Ok tile /\
                    Tile.building tile = Some n) /\
    GameMap.can_build_at (GameEngine.game_map e') place_x place_y width height = Ok false.
Proof.
  apply (placed_building_occupies (nZ 0, nZ 0) Scene.farming
           (place_building_click (nZ 0, nZ 0) 1 Scene.farming).2).
  - apply generated_wf.
  - vm_compute. reflexivity.
  - vm_compute. reflexivity.
Defined.

End MoreWitnesses.
